(** * The recommendation engine of [useSupabaseData]

    A shallow embedding of the three recommendation strategies of
    [src/hooks/useSupabaseData.ts] ([getSmartPersonalizedSongs],
    [getPersonalizedSongs], [fetchPersonalizedSongs]) and of the helpers
    they use, then of the rest of the hook: its state, the reads
    [fetchSongs], [fetchRecentlyPlayed] and [fetchPlaylists], [toggleLike],
    the playlist operations and the listening-time tracker.  The
    properties the specification states about the strategies come first,
    further properties of the code after them.

    Conventions of the embedding.
    - A JavaScript number that carries a score is a [number]: a finite
      value (doubles are rationals, arithmetic on them is taken exact), one
      of the two infinities, or NaN.  Numbers that arrive as JSON (counts,
      minutes, identifiers) are finite: [Z] for integer columns, [Q] for
      minutes.
    - [Math.log] on a positive finite argument is the parameter
      [ln_approx]; [Math.random] is the parameter [Math_random], the k-th
      draw of one scoring pass.
    - Strings are [string]s of ASCII code units; [toLowerCase] and [trim]
      act on the ASCII letters and the ASCII white space.
    - [Set<T>] is a [gset], [Map<number, number>] a [gmap]; the two
      [Map]s whose iteration order is observed ([tagCounts], [artistCounts])
      are association lists in insertion order.
    - An awaited Supabase read is a value of [Awaited]: the promise is
      fulfilled with a [{ data, error }] pair or it is rejected; code inside
      [try] runs in the exception monad [Exc].
    - The React state of the hook is one record, [HookState.t]; an
      operation takes the outcome of each write or read it awaits and
      returns the state after its setters have run. *)

From Stdlib Require Import ZArith QArith Qminmax Qround Lqa Lia String Ascii.
From Stdlib Require DecimalString DecimalPos DecimalZ.
From stdpp Require Import base option list sorting gmap strings.

(** ** JavaScript numbers *)

Inductive number : Type :=
  | Fin (q : Q)
  | PosInf
  | NegInf
  | NaN.

Definition nneg (a : number) : number :=
  match a with
  | Fin x => Fin (- x)%Q
  | PosInf => NegInf
  | NegInf => PosInf
  | NaN => NaN
  end.

Definition nadd (a b : number) : number :=
  match a, b with
  | NaN, _ | _, NaN => NaN
  | Fin x, Fin y => Fin (x + y)%Q
  | PosInf, NegInf | NegInf, PosInf => NaN
  | PosInf, _ | _, PosInf => PosInf
  | NegInf, _ | _, NegInf => NegInf
  end.

Definition nsub (a b : number) : number := nadd a (nneg b).

(** The sign of a rational, as a comparison with zero. *)
Definition Qsign (x : Q) : comparison := (x ?= 0)%Q.

Definition inf_of_sign (c : comparison) : number :=
  match c with
  | Gt => PosInf
  | Lt => NegInf
  | Eq => NaN
  end.

Definition nmul (a b : number) : number :=
  match a, b with
  | NaN, _ | _, NaN => NaN
  | Fin x, Fin y => Fin (x * y)%Q
  | PosInf, Fin y | Fin y, PosInf => inf_of_sign (Qsign y)
  | NegInf, Fin y | Fin y, NegInf => inf_of_sign (CompOpp (Qsign y))
  | PosInf, PosInf | NegInf, NegInf => PosInf
  | PosInf, NegInf | NegInf, PosInf => NegInf
  end.

(** [v > 0], the test [Array.prototype.sort] makes on the value its
    comparator returns (NaN counts as [+0]). *)
Definition is_positive (v : number) : bool :=
  match v with
  | Fin q => negb (Qle_bool q 0)
  | PosInf => true
  | NegInf | NaN => false
  end.

Definition is_finite (v : number) : Prop :=
  match v with Fin _ => True | _ => False end.

(** Equality of numbers up to the representation of the rational. *)
Definition number_eq (a b : number) : Prop :=
  match a, b with
  | Fin x, Fin y => (x == y)%Q
  | PosInf, PosInf | NegInf, NegInf | NaN, NaN => True
  | _, _ => False
  end.

(** IEEE [a < b]: false as soon as one side is NaN. *)
Definition number_lt (a b : number) : Prop :=
  match a, b with
  | NaN, _ | _, NaN => False
  | Fin x, Fin y => (x < y)%Q
  | PosInf, _ | _, NegInf => False
  | NegInf, _ | _, PosInf => True
  end.

(** IEEE [a >= b]. *)
Definition number_ge (a b : number) : Prop :=
  match a, b with
  | NaN, _ | _, NaN => False
  | Fin x, Fin y => (y <= x)%Q
  | PosInf, _ | _, NegInf => True
  | _, _ => False
  end.

Infix "+'" := nadd (at level 50, left associativity).
Infix "*'" := nmul (at level 40, left associativity).

(** [x || 0] on a nullable integer column: null, undefined and 0 give 0. *)
Definition or_zero (x : option Z) : Z :=
  match x with
  | Some z => if (z =? 0)%Z then 0%Z else z
  | None => 0%Z
  end.

(** [x || 0] on a nullable duration. *)
Definition or_zeroQ (x : option Q) : Q :=
  match x with
  | Some q => if Qeq_bool q 0 then 0%Q else q
  | None => 0%Q
  end.

(** ** JavaScript strings *)

Definition lower_ascii (c : ascii) : ascii :=
  let n := nat_of_ascii c in
  if (65 <=? n)%nat && (n <=? 90)%nat then ascii_of_nat (n + 32) else c.

Fixpoint toLowerCase (s : string) : string :=
  match s with
  | EmptyString => EmptyString
  | String c s' => String (lower_ascii c) (toLowerCase s')
  end.

Definition is_space (c : ascii) : bool :=
  let n := nat_of_ascii c in
  (n =? 32)%nat || ((9 <=? n)%nat && (n <=? 13)%nat).

Fixpoint trimStart (s : string) : string :=
  match s with
  | EmptyString => EmptyString
  | String c s' => if is_space c then trimStart s' else s
  end.

Fixpoint trimEnd (s : string) : string :=
  match s with
  | EmptyString => EmptyString
  | String c s' =>
      match trimEnd s' with
      | EmptyString => if is_space c then EmptyString else String c EmptyString
      | t => String c t
      end
  end.

Definition trim (s : string) : string := trimEnd (trimStart s).

(** [n.toString()] for an integer [n] (decimal digits, which is what
    JavaScript prints for integers below 10^21). *)
Definition toString (n : Z) : string := DecimalString.NilZero.string_of_int (Z.to_int n).

(** [arr.includes(x)] on an array of strings. *)
Definition includes (arr : list string) (x : string) : bool :=
  bool_decide (x ∈ arr).

(** ** [Array.prototype.sort]

    The sort is stable and, for a consistent comparator, its result is the
    unique stable ordering; it is embedded as the insertion sort that
    yields it.  [comparefn a b > 0] places [a] after [b]. *)

Section ArraySort.
Context {A : Type} (comparefn : A → A → number).

Fixpoint sort_insert (x : A) (l : list A) : list A :=
  match l with
  | [] => [x]
  | y :: l' =>
      if is_positive (comparefn x y) then y :: sort_insert x l' else x :: l
  end.

Definition Array_sort (l : list A) : list A := foldr sort_insert [] l.

End ArraySort.

(** [arr.slice(0, n)]. *)
Definition slice0 {A : Type} (n : nat) (l : list A) : list A := take n l.

(** ** Records

    Modelled from the spec: the declarations of [DatabaseSong]
    ([lib/supabase]) and of [Song] ([types]) are not among the sources.
    Their fields are the ones [convertDatabaseSong] reads and writes; the
    columns the code guards with [?.] or [|| 0] ([tags], [views], [likes],
    [minutes_listened]) are nullable, the track "identifier" of the
    specification is [file_id]. *)

Module DatabaseSong.
Record t : Type := mk {
  file_id : Z;
  img_id : Z;
  name : string;
  artist : string;
  language : string;
  tags : option (list string);
  views : option Z;
  likes : option Z
}.
End DatabaseSong.

Module Song.
Record t : Type := mk {
  file_id : Z;
  img_id : Z;
  name : string;
  artist : string;
  language : string;
  tags : option (list string);
  views : option Z;
  likes : option Z;
  id : string;
  image : string;
  isLiked : bool
}.
End Song.

(** A row of [liked_songs] as [select('song_id')] returns it. *)
Module LikedRow.
Record t : Type := mk { song_id : Z }.
End LikedRow.

(** A row of [history] as [select('song_id, minutes_listened')] returns it. *)
Module HistoryRow.
Record t : Type := mk { song_id : Z; minutes_listened : option Q }.
End HistoryRow.

(** A row of [history] with the embedded [songs] resource (all columns). *)
Module TopHistoryRow.
Record t : Type := mk {
  song_id : Z;
  minutes_listened : option Q;
  songs : option DatabaseSong.t
}.
End TopHistoryRow.

(** A candidate paired with its score, [{ song, score }]. *)
Record ScoredSong : Type := mkScored { song : Song.t; score : number }.

Definition convertDatabaseSong (dbSong : DatabaseSong.t) (isLiked : bool) : Song.t :=
  {| Song.file_id := DatabaseSong.file_id dbSong;
     Song.img_id := DatabaseSong.img_id dbSong;
     Song.name := DatabaseSong.name dbSong;
     Song.artist := DatabaseSong.artist dbSong;
     Song.language := DatabaseSong.language dbSong;
     Song.tags := DatabaseSong.tags dbSong;
     Song.views := DatabaseSong.views dbSong;
     Song.likes := DatabaseSong.likes dbSong;
     Song.id := toString (DatabaseSong.file_id dbSong);
     Song.image :=
       ("https://images.pexels.com/photos/" ++ toString (DatabaseSong.img_id dbSong)
        ++ "/pexels-photo-" ++ toString (DatabaseSong.img_id dbSong)
        ++ ".jpeg?auto=compress&cs=tinysrgb&w=300")%string;
     Song.isLiked := isLiked |}.

(** ** Awaited reads and exceptions *)

Record Response (A : Type) : Type := mkResponse {
  data : option A;
  error : option string
}.
Arguments mkResponse {A} _ _.
Arguments data {A} _.
Arguments error {A} _.

Inductive Awaited (A : Type) : Type :=
  | Fulfilled (r : Response A)
  | Rejected (reason : string).
Arguments Fulfilled {A} _.
Arguments Rejected {A} _.

Inductive Exc (A : Type) : Type :=
  | Val (a : A)
  | Throw (reason : string).
Arguments Val {A} _.
Arguments Throw {A} _.

Definition Exc_bind {A B : Type} (m : Exc A) (f : A → Exc B) : Exc B :=
  match m with
  | Val a => f a
  | Throw e => Throw e
  end.

Notation "'let*' x := m 'in' k" := (Exc_bind m (λ x, k))
  (at level 10, x name, m at level 100, k at level 200).

(** [await p]: the response of a fulfilled promise, a throw for a rejected one. *)
Definition await {A : Type} (p : Awaited A) : Exc (Response A) :=
  match p with
  | Fulfilled r => Val r
  | Rejected e => Throw e
  end.

(** [try { body } catch (error) { handler }]. *)
Definition try_catch {A : Type} (body : Exc A) (handler : string → A) : A :=
  match body with
  | Val a => a
  | Throw e => handler e
  end.

(** The reads the three strategies issue on the [supabase] client. *)
Record Supabase : Type := mkSupabase {
  (* from('songs').select('*') *)
  select_songs : Awaited (list DatabaseSong.t);
  (* from('liked_songs').select('song_id').eq('user_id', userId) *)
  select_liked : string → Awaited (list LikedRow.t);
  (* from('history').select('song_id, minutes_listened').eq('user_id', userId) *)
  select_history : string → Awaited (list HistoryRow.t);
  (* from('history').select('song_id, minutes_listened, songs')
       .eq('user_id', user.id).order('minutes_listened', desc).limit(10) *)
  select_top_history : string → Awaited (list TopHistoryRow.t);
  (* from('songs').select('*').order('views', desc).limit(20) *)
  select_trending : Awaited (list DatabaseSong.t)
}.

(** [userLikedSongs]: the set filled from [likedData], empty when the read
    returned no data. *)
Definition likedSet (likedData : option (list LikedRow.t)) : gset Z :=
  match likedData with
  | Some rows => foldl (λ acc item, acc ∪ {[LikedRow.song_id item]}) ∅ rows
  | None => ∅
  end.

(** [if (cond) score += w]. *)
Definition bonus (cond : bool) (w : Q) (score : number) : number :=
  if cond then score +' Fin w else score.

(** [score += matchingTags.length * w]. *)
Definition add_matches (matchingTags : list string) (w : Q) (score : number) : number :=
  score +' Fin (inject_Z (Z.of_nat (length matchingTags)) * w)%Q.

(** The comparator [(a, b) => b.score - a.score]. *)
Definition by_score_desc (a b : ScoredSong) : number := nsub (score b) (score a).

(** [scoredSongs.sort(...).slice(0, n)]: the ranked entries. *)
Definition rankEntries (n : nat) (scoredSongs : list ScoredSong) : list ScoredSong :=
  slice0 n (Array_sort by_score_desc scoredSongs).

(** [scoredSongs.sort(...).slice(0, n).map(entry => entry.song)]. *)
Definition rank (n : nat) (scoredSongs : list ScoredSong) : list Song.t :=
  fmap song (rankEntries n scoredSongs).

(** ** The engine *)

Section Engine.

(** [Math.log] on a positive finite argument, and the sequence of values
    [Math.random()] returns during one scoring pass. *)
Variable ln_approx : Q → Q.
Variable Math_random : nat → Q.

Definition Math_log (x : number) : number :=
  match x with
  | Fin q =>
      match (q ?= 0)%Q with
      | Lt => NaN
      | Eq => NegInf
      | Gt => Fin (ln_approx q)
      end
  | PosInf => PosInf
  | NegInf | NaN => NaN
  end.

(** [score += Math.log(1 + (song.likes || 0)) * 2;
     score += Math.log(1 + (song.views || 0)) * 1]. *)
Definition popularity (song : DatabaseSong.t) (score : number) : number :=
  let score :=
    score +' Math_log (Fin (inject_Z (1 + or_zero (DatabaseSong.likes song)))) *' Fin 2 in
  score +' Math_log (Fin (inject_Z (1 + or_zero (DatabaseSong.views song)))) *' Fin 1.

(** [score += Math.random() * range], for the [k]-th candidate scored. *)
Definition jitter (k : nat) (range : Q) (score : number) : number :=
  score +' Fin (Math_random k) *' Fin range.

(** *** Session strategy: [getSmartPersonalizedSongs] *)

Definition smart_preferredTags (listenedSongsInBatch : list Song.t) : gset string :=
  foldl (λ preferredTags song,
           foldl (λ acc tag, acc ∪ {[toLowerCase tag]}) preferredTags
                 (default [] (Song.tags song)))
        ∅ listenedSongsInBatch.

Definition smart_preferredArtists (listenedSongsInBatch : list Song.t) : gset string :=
  foldl (λ preferredArtists song, preferredArtists ∪ {[toLowerCase (Song.artist song)]})
        ∅ listenedSongsInBatch.

Definition smart_matchingTags (preferredTags : gset string) (song : DatabaseSong.t)
  : list string :=
  let songTags :=
    match DatabaseSong.tags song with
    | Some ts => fmap toLowerCase ts
    | None => []
    end in
  filter (λ tag, tag ∈ preferredTags) songTags.

Definition smart_artistMatch (preferredArtists : gset string) (song : DatabaseSong.t)
  : bool :=
  bool_decide (toLowerCase (DatabaseSong.artist song) ∈ preferredArtists).

(** The score before the random term is added. *)
Definition smart_score_net (listenedSongsInBatch : list Song.t)
    (preferredTags preferredArtists : gset string) (userLikedSongs : gset Z)
    (song : DatabaseSong.t) : number :=
  let score := Fin 0 in
  let score := add_matches (smart_matchingTags preferredTags song) 25 score in
  let score := bonus (smart_artistMatch preferredArtists song) 30 score in
  let listenedLanguages := fmap Song.language listenedSongsInBatch in
  let score := bonus (includes listenedLanguages (DatabaseSong.language song)) 15 score in
  let score := popularity song score in
  bonus (bool_decide (DatabaseSong.file_id song ∈ userLikedSongs)) 10 score.

Definition smart_score (listenedSongsInBatch : list Song.t)
    (preferredTags preferredArtists : gset string) (userLikedSongs : gset Z)
    (k : nat) (song : DatabaseSong.t) : number :=
  jitter k 2
    (smart_score_net listenedSongsInBatch preferredTags preferredArtists userLikedSongs song).

Definition smart_available (excludeSongs : gset string) (songsData : list DatabaseSong.t)
  : list DatabaseSong.t :=
  filter (λ song, toString (DatabaseSong.file_id song) ∉ excludeSongs) songsData.

Definition smart_scored (listenedSongsInBatch : list Song.t) (userLikedSongs : gset Z)
    (availableSongs : list DatabaseSong.t) : list ScoredSong :=
  let preferredTags := smart_preferredTags listenedSongsInBatch in
  let preferredArtists := smart_preferredArtists listenedSongsInBatch in
  imap (λ k song,
          {| song := convertDatabaseSong song
                       (bool_decide (DatabaseSong.file_id song ∈ userLikedSongs));
             score := smart_score listenedSongsInBatch preferredTags preferredArtists
                        userLikedSongs k song |})
       availableSongs.

Definition getSmartPersonalizedSongs_try (supabase : Supabase) (userId : string)
    (listenedSongsInBatch : list Song.t) (excludeSongs : gset string)
  : Exc (list Song.t) :=
  if decide (length listenedSongsInBatch = 0) then Val [] else
  let* songs := await (select_songs supabase) in
  if error songs is Some _ then Val [] else
  match data songs return Exc (list Song.t) with
  | None => Val []
  | Some songsData =>
      if decide (length songsData = 0) then Val [] else
      let* liked := await (select_liked supabase userId) in
      let userLikedSongs := likedSet (data liked) in
      let availableSongs := smart_available excludeSongs songsData in
      if decide (length availableSongs = 0) then Val [] else
      Val (rank 15 (smart_scored listenedSongsInBatch userLikedSongs availableSongs))
  end.

Definition getSmartPersonalizedSongs (supabase : Supabase) (userId : string)
    (listenedSongsInBatch : list Song.t) (excludeSongs : gset string) : list Song.t :=
  try_catch
    (getSmartPersonalizedSongs_try supabase userId listenedSongsInBatch excludeSongs)
    (λ _, []).

(** *** Contextual strategy: [getPersonalizedSongs] *)

(** [historyData.forEach(h => historyMap.set(h.song_id, h.minutes_listened || 0))]. *)
Definition historyMap_of (historyData : option (list HistoryRow.t)) : gmap Z Q :=
  match historyData with
  | Some rows =>
      foldl (λ historyMap h,
               <[HistoryRow.song_id h := or_zeroQ (HistoryRow.minutes_listened h)]> historyMap)
            ∅ rows
  | None => ∅
  end.

(** The callback of [songsData.filter]: the current song and the listened
    songs are dropped. *)
Definition ctx_keep (currentSong : Song.t) (listenedSongs : option (gset string))
    (song : DatabaseSong.t) : bool :=
  if bool_decide (DatabaseSong.file_id song = Song.file_id currentSong) then false
  else if match listenedSongs with
          | Some listened => bool_decide (toString (DatabaseSong.file_id song) ∈ listened)
          | None => false
          end
       then false
       else true.

Definition ctx_available (currentSong : Song.t) (listenedSongs : option (gset string))
    (songsData : list DatabaseSong.t) : list DatabaseSong.t :=
  filter (λ song, Is_true (ctx_keep currentSong listenedSongs song)) songsData.

(** [song.tags?.filter(tag => currentSong.tags?.includes(tag)) || []]. *)
Definition ctx_tagMatch (currentSong : Song.t) (tag : string) : bool :=
  match Song.tags currentSong with
  | Some cts => includes cts tag
  | None => false
  end.

Definition ctx_matchingTags (currentSong : Song.t) (song : DatabaseSong.t) : list string :=
  match DatabaseSong.tags song with
  | Some ts => filter (λ tag, Is_true (ctx_tagMatch currentSong tag)) ts
  | None => []
  end.

Definition ctx_artistMatch (currentSong : Song.t) (song : DatabaseSong.t) : bool :=
  bool_decide (DatabaseSong.artist song = Song.artist currentSong).

(** [Math.min(listenedMinutes * 2, 20)] with
    [listenedMinutes = historyMap.get(song.file_id) || 0]. *)
Definition ctx_historyTerm (historyMap : gmap Z Q) (song : DatabaseSong.t) : number :=
  let listenedMinutes := or_zeroQ (historyMap !! DatabaseSong.file_id song) in
  Fin (Qmin (listenedMinutes * 2) 20).

Definition ctx_score_net (currentSong : Song.t) (historyMap : gmap Z Q)
    (userLikedSongs : gset Z) (song : DatabaseSong.t) : number :=
  let score := Fin 0 in
  let score := add_matches (ctx_matchingTags currentSong song) 15 score in
  let score := bonus (ctx_artistMatch currentSong song) 25 score in
  let score :=
    bonus (bool_decide (DatabaseSong.language song = Song.language currentSong)) 10 score in
  let score := score +' ctx_historyTerm historyMap song in
  let score := popularity song score in
  bonus (bool_decide (DatabaseSong.file_id song ∈ userLikedSongs)) 8 score.

Definition ctx_score (currentSong : Song.t) (historyMap : gmap Z Q)
    (userLikedSongs : gset Z) (k : nat) (song : DatabaseSong.t) : number :=
  jitter k 3 (ctx_score_net currentSong historyMap userLikedSongs song).

Definition ctx_scored (currentSong : Song.t) (historyMap : gmap Z Q)
    (userLikedSongs : gset Z) (availableSongs : list DatabaseSong.t) : list ScoredSong :=
  imap (λ k song,
          {| song := convertDatabaseSong song
                       (bool_decide (DatabaseSong.file_id song ∈ userLikedSongs));
             score := ctx_score currentSong historyMap userLikedSongs k song |})
       availableSongs.

Definition getPersonalizedSongs_try (supabase : Supabase) (userId : string)
    (currentSong : Song.t) (listenedSongs : option (gset string)) : Exc (list Song.t) :=
  let* songs := await (select_songs supabase) in
  if error songs is Some _ then Val [] else
  match data songs return Exc (list Song.t) with
  | None => Val []
  | Some songsData =>
      if decide (length songsData = 0) then Val [] else
      let* history := await (select_history supabase userId) in
      (* a history error is logged and the run goes on *)
      let historyMap := historyMap_of (data history) in
      let* liked := await (select_liked supabase userId) in
      let userLikedSongs := likedSet (data liked) in
      let availableSongs := ctx_available currentSong listenedSongs songsData in
      if decide (length availableSongs = 0) then Val [] else
      Val (rank 10 (ctx_scored currentSong historyMap userLikedSongs availableSongs))
  end.

Definition getPersonalizedSongs (supabase : Supabase) (userId : string)
    (currentSong : Song.t) (listenedSongs : option (gset string)) : list Song.t :=
  try_catch (getPersonalizedSongs_try supabase userId currentSong listenedSongs) (λ _, []).

(** *** History strategy: [fetchPersonalizedSongs] *)

(** [tagCounts] and [artistCounts]: a [Map<string, number>] whose entries
    are read back in insertion order. *)
Definition counts_get (counts : list (string * Z)) (key : string) : option Z :=
  snd <$> List.find (λ entry, bool_decide (entry.1 = key)) counts.

Fixpoint counts_set (counts : list (string * Z)) (key : string) (value : Z)
  : list (string * Z) :=
  match counts with
  | [] => [(key, value)]
  | entry :: rest =>
      if bool_decide (entry.1 = key) then (key, value) :: rest
      else entry :: counts_set rest key value
  end.

(** [counts.set(key, (counts.get(key) || 0) + 1)]. *)
Definition counts_incr (counts : list (string * Z)) (key : string) : list (string * Z) :=
  counts_set counts key (or_zero (counts_get counts key) + 1)%Z.

(** [historyData.filter(item => item.songs).map(item => item.songs)]. *)
Definition hist_topSongs (historyData : list TopHistoryRow.t) : list DatabaseSong.t :=
  omap TopHistoryRow.songs historyData.

Definition hist_tagCounts (topSongs : list DatabaseSong.t) : list (string * Z) :=
  foldl (λ tagCounts song,
           match DatabaseSong.tags song with
           | Some ts =>
               foldl (λ acc tag, counts_incr acc (trim (toLowerCase tag))) tagCounts ts
           | None => tagCounts
           end)
        [] topSongs.

Definition hist_artistCounts (topSongs : list DatabaseSong.t) : list (string * Z) :=
  foldl (λ artistCounts song,
           counts_incr artistCounts (trim (toLowerCase (DatabaseSong.artist song))))
        [] topSongs.

Definition hist_historySongIds (topSongs : list DatabaseSong.t) : gset Z :=
  foldl (λ historySongIds song, historySongIds ∪ {[DatabaseSong.file_id song]})
        ∅ topSongs.

(** The comparator [(a, b) => b[1] - a[1]]. *)
Definition by_count_desc (a b : string * Z) : number :=
  nsub (Fin (inject_Z b.2)) (Fin (inject_Z a.2)).

(** [Array.from(counts.entries()).sort(...).slice(0, n).map(([key]) => key)]. *)
Definition most_common (n : nat) (counts : list (string * Z)) : list string :=
  fmap fst (slice0 n (Array_sort by_count_desc counts)).

Definition hist_commonTags (topSongs : list DatabaseSong.t) : list string :=
  most_common 5 (hist_tagCounts topSongs).

Definition hist_commonArtists (topSongs : list DatabaseSong.t) : list string :=
  most_common 3 (hist_artistCounts topSongs).

Definition hist_matchingTags (commonTags : list string) (ts : list string) : list string :=
  let songTags := fmap (λ tag, trim (toLowerCase tag)) ts in
  filter (λ tag, Is_true (includes commonTags tag)) songTags.

Definition hist_artistMatch (commonArtists : list string) (song : DatabaseSong.t) : bool :=
  let songArtist := trim (toLowerCase (DatabaseSong.artist song)) in
  includes commonArtists songArtist.

Definition hist_score_net (commonTags commonArtists : list string)
    (userLikedSongs : gset Z) (song : DatabaseSong.t) : number :=
  let score := Fin 0 in
  let score :=
    match DatabaseSong.tags song with
    | Some ts => add_matches (hist_matchingTags commonTags ts) 20 score
    | None => score
    end in
  let score := bonus (hist_artistMatch commonArtists song) 25 score in
  let score := bonus (bool_decide (DatabaseSong.file_id song ∈ userLikedSongs)) 10 score in
  popularity song score.

Definition hist_score (commonTags commonArtists : list string)
    (userLikedSongs : gset Z) (k : nat) (song : DatabaseSong.t) : number :=
  jitter k 3 (hist_score_net commonTags commonArtists userLikedSongs song).

Definition hist_available (historySongIds : gset Z) (allSongs : list DatabaseSong.t)
  : list DatabaseSong.t :=
  filter (λ song, DatabaseSong.file_id song ∉ historySongIds) allSongs.

Definition hist_scored (commonTags commonArtists : list string)
    (userLikedSongs : gset Z) (availableSongs : list DatabaseSong.t) : list ScoredSong :=
  imap (λ k song,
          {| song := convertDatabaseSong song
                       (bool_decide (DatabaseSong.file_id song ∈ userLikedSongs));
             score := hist_score commonTags commonArtists userLikedSongs k song |})
       availableSongs.

(** The branch taken when there is no history: the trending songs with
    their liked flags.  [None] stands for a run that leaves
    [personalizedSongs] as it was. *)
Definition hist_trending (supabase : Supabase) (userId : string)
  : Exc (option (list Song.t)) :=
  let* trending := await (select_trending supabase) in
  match data trending return Exc (option (list Song.t)) with
  | Some trendingSongs =>
      let* liked := await (select_liked supabase userId) in
      let userLikedSongs := likedSet (data liked) in
      Val (Some (fmap (λ song,
                        convertDatabaseSong song
                          (bool_decide (DatabaseSong.file_id song ∈ userLikedSongs)))
                     trendingSongs))
  | None => Val None
  end.

Definition hist_personalize (supabase : Supabase) (userId : string)
    (historyData : list TopHistoryRow.t) : Exc (option (list Song.t)) :=
  let topSongs := hist_topSongs historyData in
  let historySongIds := hist_historySongIds topSongs in
  let commonTags := hist_commonTags topSongs in
  let commonArtists := hist_commonArtists topSongs in
  let* songs := await (select_songs supabase) in
  if error songs is Some _ then Val (Some []) else
  match data songs return Exc (option (list Song.t)) with
  | None => Val (Some [])
  | Some allSongs =>
      if decide (length allSongs = 0) then Val (Some []) else
      let* liked := await (select_liked supabase userId) in
      let userLikedSongs := likedSet (data liked) in
      let availableSongs := hist_available historySongIds allSongs in
      if decide (length availableSongs = 0) then Val (Some []) else
      Val (Some (rank 30 (hist_scored commonTags commonArtists userLikedSongs
                            availableSongs)))
  end.

(** The body of [try]: [Some l] when the run ends with
    [setPersonalizedSongs(l)], [None] when it ends without setting it. *)
Definition fetchPersonalizedSongs_try (supabase : Supabase) (userId : string)
  : Exc (option (list Song.t)) :=
  let* history := await (select_top_history supabase userId) in
  if error history is Some _ then Val (Some []) else
  match data history return Exc (option (list Song.t)) with
  | None => hist_trending supabase userId
  | Some historyData =>
      if decide (length historyData = 0) then hist_trending supabase userId
      else hist_personalize supabase userId historyData
  end.

(** [fetchPersonalizedSongs], as the state [personalizedSongs] after the
    call; [user] is the signed-in user's id, if any. *)
Definition fetchPersonalizedSongs (supabase : Supabase) (user : option string)
    (personalizedSongs : list Song.t) : list Song.t :=
  match user with
  | None => []
  | Some userId =>
      default personalizedSongs
        (try_catch (fetchPersonalizedSongs_try supabase userId) (λ _, Some []))
  end.

End Engine.

(** ** The store behind the reads

    Modelled from the spec: the storage collaborator (tables, PostgREST)
    is not part of the sources.  The tables are lists of rows; each read is
    what its query text asks for when the read succeeds: [eq] keeps the
    rows of the user, [order(column, descending)] is a stable descending
    order with nulls first, [limit(n)] keeps the first [n] rows, the
    embedded [songs] resource is the catalog row the history row refers
    to. *)

Module HistoryRecord.
Record t : Type := mk { user_id : string; song_id : Z; minutes_listened : option Q }.
End HistoryRecord.

Module LikedRecord.
Record t : Type := mk { user_id : string; song_id : Z }.
End LikedRecord.

Record Database : Type := mkDatabase {
  songs_table : list DatabaseSong.t;
  history_table : list HistoryRecord.t;
  liked_songs_table : list LikedRecord.t
}.

Definition desc_nulls_first (ka kb : option Q) : number :=
  match ka, kb with
  | None, None => Fin 0
  | None, Some _ => Fin (-1)
  | Some _, None => Fin 1
  | Some x, Some y => Fin (y - x)
  end.

Definition order_desc {A : Type} (key : A → option Q) (rows : list A) : list A :=
  Array_sort (λ a b, desc_nulls_first (key a) (key b)) rows.

Definition views_key (s : DatabaseSong.t) : option Q := inject_Z <$> DatabaseSong.views s.

Definition query_liked (db : Database) (userId : string) : list LikedRow.t :=
  fmap (λ r, LikedRow.mk (LikedRecord.song_id r))
      (filter (λ r, LikedRecord.user_id r = userId) (liked_songs_table db)).

Definition query_history (db : Database) (userId : string) : list HistoryRow.t :=
  fmap (λ r, HistoryRow.mk (HistoryRecord.song_id r) (HistoryRecord.minutes_listened r))
      (filter (λ r, HistoryRecord.user_id r = userId) (history_table db)).

Definition query_top_history (db : Database) (userId : string) : list TopHistoryRow.t :=
  fmap (λ r, TopHistoryRow.mk (HistoryRecord.song_id r) (HistoryRecord.minutes_listened r)
              (List.find (λ s, bool_decide (DatabaseSong.file_id s = HistoryRecord.song_id r))
                         (songs_table db)))
      (take 10 (order_desc HistoryRecord.minutes_listened
                  (filter (λ r, HistoryRecord.user_id r = userId) (history_table db)))).

Definition query_trending (db : Database) : list DatabaseSong.t :=
  take 20 (order_desc views_key (songs_table db)).

Definition fulfilled {A : Type} (rows : A) : Awaited A :=
  Fulfilled {| data := Some rows; error := None |}.

(** The client when every read succeeds. *)
Definition serve (db : Database) : Supabase :=
  {| select_songs := fulfilled (songs_table db);
     select_liked := λ userId, fulfilled (query_liked db userId);
     select_history := λ userId, fulfilled (query_history db userId);
     select_top_history := λ userId, fulfilled (query_top_history db userId);
     select_trending := fulfilled (query_trending db) |}.

(** ** Notions used by the statements *)

(** A candidate with another tag list, another artist: everything else fixed. *)
Definition with_tags (s : DatabaseSong.t) (ts : option (list string)) : DatabaseSong.t :=
  DatabaseSong.mk (DatabaseSong.file_id s) (DatabaseSong.img_id s) (DatabaseSong.name s)
    (DatabaseSong.artist s) (DatabaseSong.language s) ts
    (DatabaseSong.views s) (DatabaseSong.likes s).


(** A like or view count of the data model: null, or not negative. *)
Definition count_ok (c : option Z) : Prop :=
  match c with
  | Some z => (0 ≤ z)%Z
  | None => True
  end.

Definition counts_ok (s : DatabaseSong.t) : Prop :=
  count_ok (DatabaseSong.likes s) ∧ count_ok (DatabaseSong.views s).

(** The number of matching tags each strategy multiplies by its weight. *)
Definition smart_matchCount (preferredTags : gset string) (s : DatabaseSong.t) : nat :=
  length (smart_matchingTags preferredTags s).

Definition ctx_matchCount (currentSong : Song.t) (s : DatabaseSong.t) : nat :=
  length (ctx_matchingTags currentSong s).

Definition hist_matchCount (commonTags : list string) (s : DatabaseSong.t) : nat :=
  match DatabaseSong.tags s with
  | Some ts => length (hist_matchingTags commonTags ts)
  | None => 0
  end.

(** The history tracks of the history strategy: the songs embedded in the
    rows the top-10 read returned. *)
Definition top_tracks (supabase : Supabase) (userId : string) : list DatabaseSong.t :=
  match select_top_history supabase userId with
  | Fulfilled r => hist_topSongs (default [] (data r))
  | Rejected _ => []
  end.


(** The read failed or returned no row. *)
Definition no_rows {A : Type} (p : Awaited (list A)) : Prop :=
  match p with
  | Fulfilled r => is_Some (error r) ∨ data r = None ∨ data r = Some []
  | Rejected _ => True
  end.



(** The specification's reading of the track-to-minutes mapping: the sum of
    the minutes of all the signals of a track. *)
Definition spec_total_minutes (rows : list HistoryRow.t) (trackId : Z) : Q :=
  foldr Qplus 0%Q
    (fmap (λ h, or_zeroQ (HistoryRow.minutes_listened h))
          (filter (λ h, HistoryRow.song_id h = trackId) rows)).

(** The minutes of the last signal of a track, if it has one. *)
Definition last_minutes (rows : list HistoryRow.t) (trackId : Z) : option Q :=
  (λ h, or_zeroQ (HistoryRow.minutes_listened h))
    <$> last (filter (λ h, HistoryRow.song_id h = trackId) rows).

(** Descending order on a nullable column, nulls first. *)
Definition desc_order (ka kb : option Q) : Prop :=
  match ka, kb with
  | None, _ => True
  | Some _, None => False
  | Some x, Some y => (y <= x)%Q
  end.

(** [a <= a'] on finite scores; the same value on both sides otherwise. *)
Definition grows (a a' : number) : Prop :=
  match a, a' with
  | Fin x, Fin y => (x <= y)%Q
  | PosInf, PosInf | NegInf, NegInf | NaN, NaN => True
  | _, _ => False
  end.

(** The rows a catalog read delivered, none when it delivered no data. *)
Definition catalog_of (p : Awaited (list DatabaseSong.t)) : list DatabaseSong.t :=
  match p with
  | Fulfilled r => default [] (data r)
  | Rejected _ => []
  end.

Definition rejected {A : Type} (p : Awaited A) : Prop :=
  match p with
  | Fulfilled _ => False
  | Rejected _ => True
  end.

(** The promise was rejected or came back with an error. *)
Definition errored {A : Type} (p : Awaited A) : Prop :=
  match p with
  | Fulfilled r => is_Some (error r)
  | Rejected _ => True
  end.

(** The liked flags [convertDatabaseSong] is given for a liked-songs answer. *)
Definition flagged (likedData : option (list LikedRow.t)) (s : DatabaseSong.t) : Song.t :=
  convertDatabaseSong s (bool_decide (DatabaseSong.file_id s ∈ likedSet likedData)).

(** ** Sample data *)

Definition sample_ln (q : Q) : Q := q - 1.
Definition sample_random (k : nat) : Q := 1 # 2.

Definition track (i : Z) (a : string) (ts : option (list string)) (v l : option Z)
  : DatabaseSong.t :=
  DatabaseSong.mk i i "track" a "en" ts v l.

Definition trackA : DatabaseSong.t :=
  track 1 "X" (Some ["pop"; "rock"]%string) (Some 100%Z) (Some 10%Z).
Definition trackB : DatabaseSong.t :=
  track 2 "Y" (Some ["rock"]%string) (Some 50%Z) (Some 5%Z).
Definition trackC : DatabaseSong.t :=
  track 3 "Z" (Some ["jazz"]%string) (Some 5%Z) (Some 1%Z).

Definition failure {A : Type} (msg : string) : Awaited A :=
  Fulfilled {| data := None; error := Some msg |}.


Definition sample_db : Database :=
  {| songs_table := [trackC; trackA; trackB];
     history_table := [HistoryRecord.mk "u" 1 (Some 5%Q)];
     liked_songs_table := [LikedRecord.mk "v" 2] |}.

Definition sample_scored : list ScoredSong :=
  [ {| song := convertDatabaseSong trackA false; score := Fin 3 |};
    {| song := convertDatabaseSong trackB true; score := Fin 7 |};
    {| song := convertDatabaseSong trackC false; score := Fin 5 |} ].

(** Two catalog rows that differ in letter case and surrounding space only. *)
Definition trackUpper : DatabaseSong.t :=
  track 4 "Queen " (Some ["Rock"]%string) (Some 7%Z) (Some 2%Z).
Definition trackLower : DatabaseSong.t :=
  track 5 "queen" (Some ["rock"]%string) (Some 3%Z) (Some 1%Z).
Definition trackQueen : DatabaseSong.t :=
  track 6 "Queen" (Some ["Rock"]%string) (Some 7%Z) (Some 2%Z).

(** A candidate without tags and without counts. *)
Definition trackBare : DatabaseSong.t := track 7 "W" None None None.

(** Two history rows of the same track, and rows of distinct tracks. *)
Definition rows_repeated : list HistoryRow.t :=
  [HistoryRow.mk 1 (Some 5%Q); HistoryRow.mk 1 (Some 3%Q)].
Definition rows_distinct : list HistoryRow.t :=
  [HistoryRow.mk 1 (Some 5%Q); HistoryRow.mk 2 (Some 3%Q)].

(** A client for a listener without history whose trending read fails. *)
Definition trending_down : Supabase :=
  {| select_songs := fulfilled [trackA; trackB; trackC];
     select_liked := λ _, fulfilled [];
     select_history := λ _, fulfilled [];
     select_top_history := λ _, fulfilled [];
     select_trending := failure "songs unavailable" |}.

(** ** The hook's state and its other operations

    The state cells of [useSupabaseData] ([useState], [useRef]) are the
    fields of one record; each operation runs on the state the previous
    one left.  [likedSongs] is a [Set<number>] whose elements come from
    [parseInt]: an integer, or NaN ([None]).  The outcome of each awaited
    write or read an operation issues is an argument of the operation.

    Modelled from the spec: the declaration of [Playlist] ([types]) is not
    among the sources; its fields are the ones the code writes. *)

(** [parseInt(s)]: leading white space, an optional sign, an optional
    [0x] prefix, then the longest run of digits; NaN when there is none. *)
Definition digit_of (c : ascii) : option Z :=
  let n := nat_of_ascii c in
  if (48 <=? n)%nat && (n <=? 57)%nat then Some (Z.of_nat (n - 48)) else None.

Definition hex_digit_of (c : ascii) : option Z :=
  let n := nat_of_ascii c in
  if (48 <=? n)%nat && (n <=? 57)%nat then Some (Z.of_nat (n - 48))
  else if (97 <=? n)%nat && (n <=? 102)%nat then Some (Z.of_nat (n - 87))
  else if (65 <=? n)%nat && (n <=? 70)%nat then Some (Z.of_nat (n - 55))
  else None.

Fixpoint parse_digits (digit : ascii → option Z) (radix : Z) (s : string)
    (acc : option Z) : option Z :=
  match s with
  | EmptyString => acc
  | String c s' =>
      match digit c with
      | Some d => parse_digits digit radix s' (Some (radix * default 0%Z acc + d)%Z)
      | None => acc
      end
  end.

Definition parseInt (s : string) : option Z :=
  let inputString := trimStart s in
  let '(sign, digits) :=
    match inputString with
    | String "-"%char rest => ((-1)%Z, rest)
    | String "+"%char rest => (1%Z, rest)
    | _ => (1%Z, inputString)
    end in
  let magnitude :=
    match digits with
    | String "0"%char (String "x"%char rest)
    | String "0"%char (String "X"%char rest) =>
        parse_digits hex_digit_of 16 rest None
    | _ => parse_digits digit_of 10 digits None
    end in
  (λ v, sign * v)%Z <$> magnitude.

(** [a || b] on strings: the empty string is falsy. *)
Definition str_or (a b : string) : string :=
  if bool_decide (a = EmptyString) then b else a.

(** [x + d] for a nullable count [x]: null counts as 0. *)
Definition add_null (x : option Z) (d : Z) : option Z := Some (default 0%Z x + d)%Z.

Module Playlist.
Record t : Type := mk {
  id : string;
  name : string;
  songCount : Z;
  image : string;
  songs : list Song.t
}.
End Playlist.

Module HookState.
Record t : Type := mk {
  songs : list Song.t;
  playlists : list Playlist.t;
  likedSongs : gset (option Z);
  lastPlayedSong : option Song.t;
  recentlyPlayedSongs : list Song.t;
  personalizedSongs : list Song.t;
  loading : bool;
  currentSongStartTime : option Z;
  currentSongRef : option string
}.
End HookState.

Definition setSongs (st : HookState.t) (v : list Song.t) : HookState.t :=
  HookState.mk v (HookState.playlists st) (HookState.likedSongs st)
    (HookState.lastPlayedSong st) (HookState.recentlyPlayedSongs st)
    (HookState.personalizedSongs st) (HookState.loading st)
    (HookState.currentSongStartTime st) (HookState.currentSongRef st).

Definition setPlaylists (st : HookState.t) (v : list Playlist.t) : HookState.t :=
  HookState.mk (HookState.songs st) v (HookState.likedSongs st)
    (HookState.lastPlayedSong st) (HookState.recentlyPlayedSongs st)
    (HookState.personalizedSongs st) (HookState.loading st)
    (HookState.currentSongStartTime st) (HookState.currentSongRef st).

Definition setLikedSongs (st : HookState.t) (v : gset (option Z)) : HookState.t :=
  HookState.mk (HookState.songs st) (HookState.playlists st) v
    (HookState.lastPlayedSong st) (HookState.recentlyPlayedSongs st)
    (HookState.personalizedSongs st) (HookState.loading st)
    (HookState.currentSongStartTime st) (HookState.currentSongRef st).

Definition setLastPlayedSong (st : HookState.t) (v : option Song.t) : HookState.t :=
  HookState.mk (HookState.songs st) (HookState.playlists st) (HookState.likedSongs st)
    v (HookState.recentlyPlayedSongs st)
    (HookState.personalizedSongs st) (HookState.loading st)
    (HookState.currentSongStartTime st) (HookState.currentSongRef st).

Definition setRecentlyPlayedSongs (st : HookState.t) (v : list Song.t) : HookState.t :=
  HookState.mk (HookState.songs st) (HookState.playlists st) (HookState.likedSongs st)
    (HookState.lastPlayedSong st) v
    (HookState.personalizedSongs st) (HookState.loading st)
    (HookState.currentSongStartTime st) (HookState.currentSongRef st).

(** [currentSongRef.current = ref; setCurrentSongStartTime(start)]. *)
Definition setTracking (st : HookState.t) (ref : option string) (start : option Z)
  : HookState.t :=
  HookState.mk (HookState.songs st) (HookState.playlists st) (HookState.likedSongs st)
    (HookState.lastPlayedSong st) (HookState.recentlyPlayedSongs st)
    (HookState.personalizedSongs st) (HookState.loading st) start ref.

(** *** [toggleLike] *)

(** [{ ...song, isLiked: !isCurrentlyLiked,
       likes: song.likes + (isCurrentlyLiked ? -1 : 1) }]. *)
Definition relike (isCurrentlyLiked : bool) (s : Song.t) : Song.t :=
  Song.mk (Song.file_id s) (Song.img_id s) (Song.name s) (Song.artist s)
    (Song.language s) (Song.tags s) (Song.views s)
    (add_null (Song.likes s) (if isCurrentlyLiked then -1 else 1))
    (Song.id s) (Song.image s) (negb isCurrentlyLiked).

(** [songs.map(song => song.id === songId ? {...} : song)]. *)
Definition relike_songs (songId : string) (isCurrentlyLiked : bool) (l : list Song.t)
  : list Song.t :=
  fmap (λ s, if bool_decide (Song.id s = songId) then relike isCurrentlyLiked s else s) l.

Definition playlist_with_songs (p : Playlist.t) (l : list Song.t) : Playlist.t :=
  Playlist.mk (Playlist.id p) (Playlist.name p) (Playlist.songCount p)
    (Playlist.image p) l.

(** [write] is the outcome of the delete or insert on [liked_songs], [rpc]
    that of [decrement_song_likes] or [increment_song_likes]. *)
Definition toggleLike_try (write rpc : Awaited unit) (songId : string)
    (st : HookState.t) : Exc HookState.t :=
  let songFileId := parseInt songId in
  let isCurrentlyLiked := bool_decide (songFileId ∈ HookState.likedSongs st) in
  let* w := await write in
  if error w is Some e then Throw e else
  let* _ := await rpc in
  let st :=
    setLikedSongs st
      (if isCurrentlyLiked then HookState.likedSongs st ∖ {[songFileId]}
       else HookState.likedSongs st ∪ {[songFileId]}) in
  let st := setSongs st (relike_songs songId isCurrentlyLiked (HookState.songs st)) in
  let st :=
    setPlaylists st
      (fmap (λ p, playlist_with_songs p
                    (relike_songs songId isCurrentlyLiked (Playlist.songs p)))
            (HookState.playlists st)) in
  Val st.

Definition toggleLike (user : option string) (write rpc : Awaited unit)
    (songId : string) (st : HookState.t) : HookState.t :=
  match user with
  | None => st
  | Some _ => try_catch (toggleLike_try write rpc songId st) (λ _, st)
  end.

(** *** Playlists *)

Definition default_image : string :=
  "https://images.pexels.com/photos/1763075/pexels-photo-1763075.jpeg?auto=compress&cs=tinysrgb&w=300".

(** The row [insert(...).select().single()] returns for a new playlist. *)
Module PlaylistRecord.
Record t : Type := mk { id : Z; name : string }.
End PlaylistRecord.

(** [updatedSongs[0]?.image || fallback]. *)
Definition first_image (l : list Song.t) (fallback : string) : string :=
  match l with
  | [] => fallback
  | s :: _ => str_or (Song.image s) fallback
  end.

Definition createPlaylist (user : option string) (write : Awaited PlaylistRecord.t)
    (st : HookState.t) : HookState.t :=
  match user with
  | None => st
  | Some _ =>
      try_catch
        (let* w := await write in
         if error w is Some e then Throw e else
         match data w return Exc HookState.t with
         | None => Throw "TypeError"
         | Some row =>
             let newPlaylist :=
               Playlist.mk (toString (PlaylistRecord.id row)) (PlaylistRecord.name row)
                 0 default_image [] in
             Val (setPlaylists st (HookState.playlists st ++ [newPlaylist]))
         end)
        (λ _, st)
  end.

Definition deletePlaylist (user : option string) (write : Awaited unit)
    (playlistId : string) (st : HookState.t) : HookState.t :=
  match user with
  | None => st
  | Some _ =>
      try_catch
        (let* w := await write in
         if error w is Some e then Throw e else
         Val (setPlaylists st
                (filter (λ p, Playlist.id p ≠ playlistId) (HookState.playlists st))))
        (λ _, st)
  end.

Definition renamePlaylist (user : option string) (write : Awaited unit)
    (playlistId newName : string) (st : HookState.t) : HookState.t :=
  match user with
  | None => st
  | Some _ =>
      try_catch
        (let* w := await write in
         if error w is Some e then Throw e else
         Val (setPlaylists st
                (fmap (λ p, if bool_decide (Playlist.id p = playlistId)
                            then Playlist.mk (Playlist.id p) newName (Playlist.songCount p)
                                   (Playlist.image p) (Playlist.songs p)
                            else p)
                      (HookState.playlists st))))
        (λ _, st)
  end.

(** [playlist.songs.some(s => s.id === song.id)]. *)
Definition songExists (p : Playlist.t) (song : Song.t) : bool :=
  existsb (λ s, bool_decide (Song.id s = Song.id song)) (Playlist.songs p).

(** The callback of [prev.map] in [addSongToPlaylist]. *)
Definition add_to (playlistId : string) (song : Song.t) (p : Playlist.t) : Playlist.t :=
  if bool_decide (Playlist.id p = playlistId) then
    if songExists p song then p
    else
      let updatedSongs := Playlist.songs p ++ [song] in
      Playlist.mk (Playlist.id p) (Playlist.name p) (Z.of_nat (length updatedSongs))
        (first_image updatedSongs (Playlist.image p)) updatedSongs
  else p.

Definition addSongToPlaylist (user : option string) (write : Awaited unit)
    (playlistId : string) (song : Song.t) (st : HookState.t) : HookState.t :=
  match user with
  | None => st
  | Some _ =>
      try_catch
        (let* w := await write in
         if error w is Some e then Throw e else
         Val (setPlaylists st (fmap (add_to playlistId song) (HookState.playlists st))))
        (λ _, st)
  end.

(** The callback of [prev.map] in [removeSongFromPlaylist]. *)
Definition remove_from (playlistId songId : string) (p : Playlist.t) : Playlist.t :=
  if bool_decide (Playlist.id p = playlistId) then
    let updatedSongs := filter (λ s, Song.id s ≠ songId) (Playlist.songs p) in
    Playlist.mk (Playlist.id p) (Playlist.name p) (Z.of_nat (length updatedSongs))
      (first_image updatedSongs default_image) updatedSongs
  else p.

Definition removeSongFromPlaylist (user : option string) (write : Awaited unit)
    (playlistId songId : string) (st : HookState.t) : HookState.t :=
  match user with
  | None => st
  | Some _ =>
      try_catch
        (let* w := await write in
         if error w is Some e then Throw e else
         Val (setPlaylists st
                (fmap (remove_from playlistId songId) (HookState.playlists st))))
        (λ _, st)
  end.

(** *** The other reads: [fetchSongs], [fetchRecentlyPlayed], [fetchPlaylists] *)

Module UserRow.
Record t : Type := mk { last_song_file_id : option Z }.
End UserRow.

Module PlaylistSongRow.
Record t : Type := mk { songs : option DatabaseSong.t }.
End PlaylistSongRow.

Module PlaylistRow.
Record t : Type := mk {
  id : Z;
  name : string;
  playlist_songs : option (list PlaylistSongRow.t)
}.
End PlaylistRow.

Record Reads : Type := mkReads {
  (* from('songs').select('*').order('views', descending) *)
  select_songs_by_views : Awaited (list DatabaseSong.t);
  (* from('liked_songs').select('song_id').eq('user_id', user.id) *)
  select_liked_ids : string → Awaited (list LikedRow.t);
  (* from('users').select('last_song_file_id').eq('id', user.id).single() *)
  select_last_song : string → Awaited UserRow.t;
  (* from('history').select('song_id, minutes_listened, songs')
       .eq('user_id', user.id).order('minutes_listened', descending).limit(9) *)
  select_recent : string → Awaited (list TopHistoryRow.t);
  (* from('playlists').select('id, name, playlist_songs (songs)').eq('user_id', user.id) *)
  select_playlists : string → Awaited (list PlaylistRow.t)
}.

(** [a.views + a.likes]: a null count adds 0. *)
Definition views_plus_likes (s : Song.t) : Z :=
  (default 0 (Song.views s) + default 0 (Song.likes s))%Z.

(** The comparator of [fetchSongs]: [bScore - aScore]. *)
Definition by_views_plus_likes (a b : Song.t) : number :=
  nsub (Fin (inject_Z (views_plus_likes b))) (Fin (inject_Z (views_plus_likes a))).

(** [convertedSongs.find(song => song.file_id === id)]. *)
Definition find_song (fileId : Z) (l : list Song.t) : option Song.t :=
  List.find (λ song, bool_decide (Song.file_id song = fileId)) l.

Definition fetchSongs (reads : Reads) (user : option string) (st : HookState.t)
  : HookState.t :=
  match user with
  | None => setSongs st []
  | Some userId =>
      match select_songs_by_views reads with
      | Rejected _ => setSongs st []
      | Fulfilled rs =>
          if error rs is Some _ then setSongs st [] else
          match select_liked_ids reads userId with
          | Rejected _ => setSongs st []
          | Fulfilled rl =>
              let userLikedSongs := likedSet (data rl) in
              let st :=
                if data rl is Some _
                then setLikedSongs st (set_map (D:=gset (option Z)) Some userLikedSongs)
                else st in
              let convertedSongs :=
                match data rs with
                | Some songsData =>
                    fmap (λ song, convertDatabaseSong song
                                    (bool_decide (DatabaseSong.file_id song ∈ userLikedSongs)))
                         songsData
                | None => []
                end in
              let sortedSongs := Array_sort by_views_plus_likes convertedSongs in
              let st := setSongs st sortedSongs in
              match select_last_song reads userId with
              | Rejected _ => setSongs st []
              | Fulfilled ru =>
                  match data ru with
                  | Some userData =>
                      match UserRow.last_song_file_id userData with
                      | Some fileId =>
                          if (fileId =? 0)%Z then st else
                          match find_song fileId convertedSongs with
                          | Some lastSong => setLastPlayedSong st (Some lastSong)
                          | None => st
                          end
                      | None => st
                      end
                  | None => st
                  end
              end
          end
      end
  end.

(** What the hook returns as [likedSongs]: [songs.filter(song => song.isLiked)]. *)
Definition exported_likedSongs (st : HookState.t) : list Song.t :=
  filter (λ song, Is_true (Song.isLiked song)) (HookState.songs st).

(** [historyData.filter(item => item.songs)
      .map(item => convertDatabaseSong(item.songs, userLikedSongs.has(item.song_id)))]. *)
Definition recent_songs (userLikedSongs : gset Z) (historyData : list TopHistoryRow.t)
  : list Song.t :=
  omap (λ item,
          (λ s, convertDatabaseSong s
                  (bool_decide (TopHistoryRow.song_id item ∈ userLikedSongs)))
            <$> TopHistoryRow.songs item)
       historyData.

Definition fetchRecentlyPlayed (reads : Reads) (user : option string) (st : HookState.t)
  : HookState.t :=
  match user with
  | None => setRecentlyPlayedSongs st []
  | Some userId =>
      match select_recent reads userId with
      | Rejected _ => setRecentlyPlayedSongs st []
      | Fulfilled rh =>
          if error rh is Some _ then st else
          match data rh with
          | None => setRecentlyPlayedSongs st []
          | Some historyData =>
              if decide (length historyData = 0) then setRecentlyPlayedSongs st [] else
              match select_liked_ids reads userId with
              | Rejected _ => setRecentlyPlayedSongs st []
              | Fulfilled rl =>
                  setRecentlyPlayedSongs st
                    (recent_songs (likedSet (data rl)) historyData)
              end
          end
      end
  end.

(** [arr.map(f)] for a callback that may throw. *)
Fixpoint Exc_map {A B : Type} (f : A → Exc B) (l : list A) : Exc (list B) :=
  match l with
  | [] => Val []
  | x :: l' =>
      let* y := f x in
      let* ys := Exc_map f l' in
      Val (y :: ys)
  end.

(** [convertDatabaseSong(ps.songs, likedSongs.has(ps.songs.file_id))]: a
    null [ps.songs] throws. *)
Definition convert_playlist_song (likedSongs : gset (option Z)) (ps : PlaylistSongRow.t)
  : Exc Song.t :=
  match PlaylistSongRow.songs ps with
  | Some s =>
      Val (convertDatabaseSong s
             (bool_decide (Some (DatabaseSong.file_id s) ∈ likedSongs)))
  | None => Throw "TypeError"
  end.

Definition convert_playlist (likedSongs : gset (option Z)) (playlist : PlaylistRow.t)
  : Exc Playlist.t :=
  let* playlistSongs :=
    match PlaylistRow.playlist_songs playlist with
    | Some rows => Exc_map (convert_playlist_song likedSongs) rows
    | None => Val []
    end in
  Val (Playlist.mk (toString (PlaylistRow.id playlist)) (PlaylistRow.name playlist)
         (Z.of_nat (length playlistSongs)) (first_image playlistSongs default_image)
         playlistSongs).

Definition fetchPlaylists (reads : Reads) (user : option string) (st : HookState.t)
  : HookState.t :=
  match user with
  | None => setPlaylists st []
  | Some userId =>
      try_catch
        (let* r := await (select_playlists reads userId) in
         if error r is Some e then Throw e else
         let* convertedPlaylists :=
           match data r with
           | Some playlistsData =>
               Exc_map (convert_playlist (HookState.likedSongs st)) playlistsData
           | None => Val []
           end in
         Val (setPlaylists st convertedPlaylists))
        (λ _, st)
  end.

(** *** Listening time: [recordListeningHistory], [stopCurrentSongTracking]

    Times are [Date.getTime()] values, in milliseconds.  Each operation is
    paired with the [upsert_history_minutes] call it makes, if any: the
    song id it passes and the minutes.  The outcome of that call, of
    [updateLastSong] and of [increment_song_views] is caught or ignored and
    changes nothing. *)

Definition truthy_string (s : option string) : bool :=
  match s with
  | Some str => negb (bool_decide (str = EmptyString))
  | None => false
  end.

(** [Math.round(x)]: the integer nearest to [x], halves rounded up. *)
Definition Math_round (x : Q) : Z := Qfloor (x + (1 # 2)).

(** [(endTime.getTime() - start.getTime()) / (1000 * 60)]. *)
Definition minutes_between (start endTime : Z) : Q :=
  inject_Z (endTime - start) / inject_Z (1000 * 60).

(** [Math.round(minutesListened * 100) / 100]. *)
Definition two_decimals (minutesListened : Q) : Q :=
  inject_Z (Math_round (minutesListened * 100)) / 100.

Definition listening_report (st : HookState.t) (endTime : Z) : option (option Z * Q) :=
  if truthy_string (HookState.currentSongRef st) then
    match HookState.currentSongRef st, HookState.currentSongStartTime st with
    | Some ref, Some start =>
        let minutesListened := minutes_between start endTime in
        if negb (Qle_bool minutesListened (1 # 10))
        then Some (parseInt ref, two_decimals minutesListened)
        else None
    | _, _ => None
    end
  else None.

(** [endTime] is the clock when the previous song is accounted for,
    [startTime] the clock when the new song is set as current. *)
Definition recordListeningHistory (user : option string) (endTime startTime : Z)
    (songId : string) (st : HookState.t) : HookState.t * option (option Z * Q) :=
  match user with
  | None => (st, None)
  | Some _ =>
      (setTracking st (Some songId) (Some startTime), listening_report st endTime)
  end.

Definition stopCurrentSongTracking (user : option string) (endTime : Z)
    (st : HookState.t) : HookState.t * option (option Z * Q) :=
  (setTracking st None None,
   if user is Some _ then listening_report st endTime else None).

(** ** Further notions used by the statements *)

(** The data of a read's answer, none for a rejected promise. *)
Definition answer_data {A : Type} (p : Awaited A) : option A :=
  match p with
  | Fulfilled r => data r
  | Rejected _ => None
  end.

(** The read came back with rows and without error. *)
Definition answered {A : Type} (p : Awaited A) (rows : A) : Prop :=
  ∃ r, p = Fulfilled r ∧ error r = None ∧ data r = Some rows.

(** The write came back without error. *)
Definition succeeded {A : Type} (p : Awaited A) : Prop :=
  ∃ r, p = Fulfilled r ∧ error r = None.

(** The write was rejected or came back with an error. *)
Definition write_failed {A : Type} (p : Awaited A) : Prop :=
  match p with
  | Fulfilled r => is_Some (error r)
  | Rejected _ => True
  end.

(** A candidate with other counts, another language: everything else fixed. *)
Definition with_counts (s : DatabaseSong.t) (v l : option Z) : DatabaseSong.t :=
  DatabaseSong.mk (DatabaseSong.file_id s) (DatabaseSong.img_id s) (DatabaseSong.name s)
    (DatabaseSong.artist s) (DatabaseSong.language s) (DatabaseSong.tags s) v l.


(** The number of occurrences of a string in a list. *)
Definition occurrences (x : string) (l : list string) : Z :=
  Z.of_nat (length (filter (λ y, y = x) l)).

(** The normalised tags of the history tracks, with repetitions, and their
    normalised artists. *)
Definition history_tags (topSongs : list DatabaseSong.t) : list string :=
  topSongs ≫= λ s, (λ tag, trim (toLowerCase tag)) <$> default [] (DatabaseSong.tags s).

Definition history_artists (topSongs : list DatabaseSong.t) : list string :=
  (λ s, trim (toLowerCase (DatabaseSong.artist s))) <$> topSongs.

(** The entry a count map holds for a string that occurs [n] times. *)
Definition count_entry (n : Z) : option Z := if (n =? 0)%Z then None else Some n.

(** The liked flag of every song agrees with [likedSongs], and the string
    id of every song is the one [convertDatabaseSong] derives. *)
Definition song_consistent (likedSongs : gset (option Z)) (s : Song.t) : Prop :=
  Song.id s = toString (Song.file_id s) ∧
  (Song.isLiked s = true ↔ Some (Song.file_id s) ∈ likedSongs).

Definition flags_consistent (st : HookState.t) : Prop :=
  Forall (song_consistent (HookState.likedSongs st)) (HookState.songs st) ∧
  Forall (λ p, Forall (song_consistent (HookState.likedSongs st)) (Playlist.songs p))
         (HookState.playlists st).

(** [songCount] is the number of songs of the playlist. *)
Definition count_ok_playlist (p : Playlist.t) : Prop :=
  Playlist.songCount p = Z.of_nat (length (Playlist.songs p)).

(** No two songs of the playlist share an id. *)
Definition distinct_songs (p : Playlist.t) : Prop :=
  NoDup (Song.id <$> Playlist.songs p).

(** The read of [fetchRecentlyPlayed] as the store answers it, and the
    client of the other reads when every read succeeds. *)
Definition query_recent (db : Database) (userId : string) : list TopHistoryRow.t :=
  fmap (λ r, TopHistoryRow.mk (HistoryRecord.song_id r) (HistoryRecord.minutes_listened r)
               (List.find (λ s, bool_decide (DatabaseSong.file_id s = HistoryRecord.song_id r))
                          (songs_table db)))
       (take 9 (order_desc HistoryRecord.minutes_listened
                  (filter (λ r, HistoryRecord.user_id r = userId) (history_table db)))).

(** An empty state, and a well-formed answer of a write. *)
Definition initial_state : HookState.t :=
  HookState.mk [] [] ∅ None [] [] true None None.

Definition done_write : Awaited unit := Fulfilled {| data := None; error := None |}.

Definition sample_reads : Reads :=
  {| select_songs_by_views := fulfilled [trackA; trackB; trackC];
     select_liked_ids := λ _, fulfilled [LikedRow.mk 2];
     select_last_song := λ _, fulfilled (UserRow.mk (Some 3%Z));
     select_recent := λ _, fulfilled
       [TopHistoryRow.mk 2 (Some 9%Q) (Some trackB); TopHistoryRow.mk 8 (Some 4%Q) None];
     select_playlists := λ _, fulfilled
       [PlaylistRow.mk 1 "mix"
          (Some [PlaylistSongRow.mk (Some trackA); PlaylistSongRow.mk (Some trackB)])] |}.

(** The song is the conversion of a row of the catalog, with the liked
    flag the liked-songs answer gives it. *)
Definition served_from (catalog : list DatabaseSong.t)
    (likedData : option (list LikedRow.t)) (r : Song.t) : Prop :=
  ∃ s, s ∈ catalog ∧ r = flagged likedData s.

(** The count map holds, for every string, the number of its occurrences
    in the list of the strings counted so far. *)
Definition counts_of (counts : list (string * Z)) (seen : list string) : Prop :=
  NoDup counts.*1 ∧ ∀ x, counts_get counts x = count_entry (occurrences x seen).

(** A state with two songs, one of them liked, and one playlist; a song
    list entry for each sample track. *)
Definition songA : Song.t := convertDatabaseSong trackA false.
Definition songB : Song.t := convertDatabaseSong trackB true.
Definition songC : Song.t := convertDatabaseSong trackC false.

Definition sample_playlist : Playlist.t :=
  Playlist.mk "1" "mix" 1 (Song.image songA) [songA].

Definition sample_state : HookState.t :=
  HookState.mk [songA; songB] [sample_playlist] {[Some 2%Z]} None [] [] false
    (Some 0%Z) (Some "2"%string).

(** The reads as [sample_db] answers them for the user [u]. *)
Definition store_reads : Reads :=
  {| select_songs_by_views := fulfilled (order_desc views_key (songs_table sample_db));
     select_liked_ids := λ userId, fulfilled (query_liked sample_db userId);
     select_last_song := λ _, fulfilled (UserRow.mk (Some 1%Z));
     select_recent := λ userId, fulfilled (query_recent sample_db userId);
     select_playlists := λ _, fulfilled [] |}.

(** Reads whose catalog read comes back with an error. *)
Definition broken_reads : Reads :=
  {| select_songs_by_views := failure "songs unavailable";
     select_liked_ids := λ _, fulfilled [];
     select_last_song := λ _, fulfilled (UserRow.mk None);
     select_recent := λ _, failure "history unavailable";
     select_playlists := λ _, failure "playlists unavailable" |}.

(** A history track with six tags. *)
Definition trackTags : DatabaseSong.t :=
  track 9 "T" (Some ["a"; "b"; "c"; "d"; "e"; "f"]%string) (Some 1%Z) (Some 1%Z).

(** ** Facts about numbers and sorting *)


Section ArraySortFacts.
Context {A : Type} (comparefn : A → A → number).

Lemma sort_insert_Permutation x l : sort_insert comparefn x l ≡ₚ x :: l.
Proof.
  induction l as [|y l IH]; simpl; [done|].
  destruct (is_positive _); [|done].
  rewrite IH. apply Permutation_swap.
Qed.

Lemma Array_sort_Permutation l : Array_sort comparefn l ≡ₚ l.
Proof.
  induction l as [|x l IH]; simpl; [done|].
  rewrite sort_insert_Permutation. by f_equiv.
Qed.

Lemma elem_of_Array_sort x l : x ∈ Array_sort comparefn l ↔ x ∈ l.
Proof. by rewrite Array_sort_Permutation. Qed.

Lemma length_Array_sort l : length (Array_sort comparefn l) = length l.
Proof. by rewrite Array_sort_Permutation. Qed.

Context (R : relation A) (P : A → Prop).
Hypothesis R_keep : ∀ a b, P a → P b → is_positive (comparefn a b) = false → R a b.
Hypothesis R_swap : ∀ a b, P a → P b → is_positive (comparefn a b) = true → R b a.
Hypothesis R_trans : ∀ a b c, P a → P b → P c → R a b → R b c → R a c.

Lemma sort_insert_sorted x l :
  P x → Forall P l → StronglySorted R l → StronglySorted R (sort_insert comparefn x l).
Proof.
  intros Hx Hl Hs. induction Hs as [|y l Hs IH Hy]; simpl.
  - repeat constructor.
  - apply Forall_cons in Hl as [HPy HPl].
    destruct (is_positive (comparefn x y)) eqn:E.
    + constructor; [by apply IH|].
      rewrite sort_insert_Permutation. constructor; [|done].
      by apply R_swap.
    + assert (R x y) as Hxy by by apply R_keep.
      constructor; [by constructor|].
      constructor; [done|].
      rewrite Forall_forall in Hy, HPl |- *.
      intros z Hz. apply R_trans with y; auto.
Qed.

Lemma Array_sort_sorted l : Forall P l → StronglySorted R (Array_sort comparefn l).
Proof.
  induction 1 as [|x l Hx Hl IH]; simpl; [constructor|].
  apply sort_insert_sorted; [done| |done].
  by rewrite Array_sort_Permutation.
Qed.

End ArraySortFacts.

Lemma StronglySorted_take {A} (R : relation A) n l :
  StronglySorted R l → StronglySorted R (take n l).
Proof.
  intros H. rewrite <-(take_drop n l) in H.
  by apply StronglySorted_app_1_l in H.
Qed.

(** ** Facts about identifiers and ranked lists *)

Lemma to_int_proper (z : Z) :
  Z.to_int z ≠ Decimal.Pos Decimal.Nil ∧ Z.to_int z ≠ Decimal.Neg Decimal.Nil.
Proof.
  destruct z as [|p|p]; simpl; split; try discriminate;
    intros [= H]; by apply DecimalPos.Unsigned.to_uint_nonnil in H.
Qed.

Lemma toString_inj (a b : Z) : toString a = toString b → a = b.
Proof.
  unfold toString. intros H.
  destruct (to_int_proper a) as [Ha1 Ha2], (to_int_proper b) as [Hb1 Hb2].
  apply DecimalZ.to_int_inj.
  pose proof (DecimalString.NilZero.isi _ Ha1 Ha2) as Ia.
  pose proof (DecimalString.NilZero.isi _ Hb1 Hb2) as Ib.
  rewrite H in Ia. congruence.
Qed.

Lemma fmap_song_imap (g : DatabaseSong.t → Song.t) (f : nat → DatabaseSong.t → number)
    (l : list DatabaseSong.t) :
  song <$> imap (λ k s, {| song := g s; score := f k s |}) l = g <$> l.
Proof.
  revert f. induction l as [|x l IH]; intros f; [done|].
  rewrite imap_cons. simpl. f_equal. apply (IH (λ k, f (S k))).
Qed.

Lemma rankEntries_subseteq n scored : rankEntries n scored ⊆ scored.
Proof.
  intros e He. unfold rankEntries, slice0 in He.
  apply subseteq_take in He. by apply elem_of_Array_sort in He.
Qed.

Lemma elem_of_rank r n scored : r ∈ rank n scored → r ∈ song <$> scored.
Proof.
  unfold rank. intros (e & -> & He)%list_elem_of_fmap.
  apply list_elem_of_fmap_2. by apply rankEntries_subseteq in He.
Qed.

Lemma length_rank n scored : length (rank n scored) = min n (length scored).
Proof.
  unfold rank, rankEntries, slice0.
  by rewrite length_fmap, length_take, length_Array_sort.
Qed.

Lemma rank_all n scored : length scored ≤ n → rank n scored ≡ₚ song <$> scored.
Proof.
  intros H. unfold rank, rankEntries, slice0.
  rewrite take_ge by by rewrite length_Array_sort.
  by rewrite Array_sort_Permutation.
Qed.

Lemma rank_sublist_sorted n scored :
  rank n scored `sublist_of` song <$> Array_sort by_score_desc scored.
Proof.
  unfold rank, rankEntries, slice0. apply fmap_sublist, sublist_take.
Qed.

Section Properties.
Variable ln_approx : Q → Q.
Variable Math_random : nat → Q.

Local Abbreviation getSmartPersonalizedSongs := (getSmartPersonalizedSongs ln_approx Math_random).
Local Abbreviation getPersonalizedSongs := (getPersonalizedSongs ln_approx Math_random).
Local Abbreviation fetchPersonalizedSongs := (fetchPersonalizedSongs ln_approx Math_random).

Lemma smart_scored_songs listened liked avail :
  song <$> smart_scored ln_approx Math_random listened liked avail
  = (λ s, convertDatabaseSong s (bool_decide (DatabaseSong.file_id s ∈ liked))) <$> avail.
Proof. apply fmap_song_imap. Qed.

Lemma ctx_scored_songs cur hm liked avail :
  song <$> ctx_scored ln_approx Math_random cur hm liked avail
  = (λ s, convertDatabaseSong s (bool_decide (DatabaseSong.file_id s ∈ liked))) <$> avail.
Proof. apply fmap_song_imap. Qed.

Lemma hist_scored_songs cT cA liked avail :
  song <$> hist_scored ln_approx Math_random cT cA liked avail
  = (λ s, convertDatabaseSong s (bool_decide (DatabaseSong.file_id s ∈ liked))) <$> avail.
Proof. apply fmap_song_imap. Qed.

Lemma smart_excluded sb uid listened exclude :
  Forall (λ r, Song.id r ∉ exclude) (getSmartPersonalizedSongs sb uid listened exclude).
Proof.
  unfold getSmartPersonalizedSongs, getSmartPersonalizedSongs_try.
  destruct (decide (length listened = 0)); [constructor|].
  destruct (select_songs sb) as [rs|]; simpl; [|constructor].
  destruct (error rs); [constructor|].
  destruct (data rs) as [songsData|]; [|constructor].
  destruct (decide (length songsData = 0)); [constructor|].
  destruct (select_liked sb uid) as [rl|]; simpl; [|constructor].
  destruct (decide _); [constructor|]. simpl.
  apply Forall_forall. intros r Hr%elem_of_rank.
  rewrite smart_scored_songs in Hr.
  apply list_elem_of_fmap in Hr as (s & -> & Hs).
  unfold smart_available in Hs. apply list_elem_of_filter in Hs as [Hs _].
  exact Hs.
Qed.

Lemma ctx_keep_spec cur listened s :
  ctx_keep cur listened s = true →
  DatabaseSong.file_id s ≠ Song.file_id cur ∧
  ∀ ls, listened = Some ls → toString (DatabaseSong.file_id s) ∉ ls.
Proof.
  unfold ctx_keep. case_bool_decide as H1; [done|].
  destruct listened as [ls|].
  - case_bool_decide as H2; [done|]. intros _. split; [done|]. by intros ? [= <-].
  - intros _. split; [done|]. by intros ? [=].
Qed.

Lemma ctx_excluded sb uid cur listened :
  Forall (λ r, Song.file_id r ≠ Song.file_id cur ∧
               Song.id r ≠ toString (Song.file_id cur) ∧
               ∀ ls, listened = Some ls → Song.id r ∉ ls)
         (getPersonalizedSongs sb uid cur listened).
Proof.
  unfold getPersonalizedSongs, getPersonalizedSongs_try.
  destruct (select_songs sb) as [rs|]; simpl; [|constructor].
  destruct (error rs); [constructor|].
  destruct (data rs) as [songsData|]; [|constructor].
  destruct (decide (length songsData = 0)); [constructor|].
  destruct (select_history sb uid) as [rh|]; simpl; [|constructor].
  destruct (select_liked sb uid) as [rl|]; simpl; [|constructor].
  destruct (decide _); [constructor|]. simpl.
  apply Forall_forall. intros r Hr%elem_of_rank.
  rewrite ctx_scored_songs in Hr.
  apply list_elem_of_fmap in Hr as (s & -> & Hs).
  unfold ctx_available in Hs. apply list_elem_of_filter in Hs as [Hs _].
  apply Is_true_true, ctx_keep_spec in Hs as [H1 H2]. simpl.
  split; [done|]. split; [|done].
  intros E. by apply toString_inj in E.
Qed.

Lemma elem_of_hist_historySongIds t topSongs :
  t ∈ topSongs → DatabaseSong.file_id t ∈ hist_historySongIds topSongs.
Proof.
  unfold hist_historySongIds.
  assert (∀ acc : gset Z, (DatabaseSong.file_id t ∈ acc ∨ t ∈ topSongs) →
    DatabaseSong.file_id t ∈
      foldl (λ ids song, ids ∪ {[DatabaseSong.file_id song]}) acc topSongs) as H.
  { induction topSongs as [|x l IH]; intros acc [Hacc|Hin]; simpl.
    - done.
    - by apply elem_of_nil in Hin.
    - apply IH. left. set_solver.
    - apply IH. apply elem_of_cons in Hin as [->|Hin]; [left; set_solver|by right]. }
  intros Ht. apply H. by right.
Qed.

Lemma hist_personalize_from sb uid historyData l :
  hist_personalize ln_approx Math_random sb uid historyData = Val (Some l) →
  Forall (λ r, ∃ s, s ∈ catalog_of (select_songs sb) ∧
                    (DatabaseSong.file_id s
                       ∉ hist_historySongIds (hist_topSongs historyData)) ∧
                    Song.file_id r = DatabaseSong.file_id s) l.
Proof.
  unfold hist_personalize, catalog_of.
  destruct (select_songs sb) as [rs|]; simpl; [|done].
  destruct (error rs); [intros [= <-]; constructor|].
  destruct (data rs) as [allSongs|]; [|intros [= <-]; constructor].
  destruct (decide (length allSongs = 0)); [intros [= <-]; constructor|].
  destruct (select_liked sb uid) as [rl|]; simpl; [|done].
  destruct (decide _); [intros [= <-]; constructor|]. intros [= <-].
  apply Forall_forall. intros r Hr%elem_of_rank.
  rewrite hist_scored_songs in Hr.
  apply list_elem_of_fmap in Hr as (s & -> & Hs).
  unfold hist_available in Hs. apply list_elem_of_filter in Hs as [Hs Hin].
  by exists s.
Qed.

Lemma hist_personalize_excluded sb uid historyData l :
  hist_personalize ln_approx Math_random sb uid historyData = Val (Some l) →
  Forall (λ r, Forall (λ t, Song.file_id r ≠ DatabaseSong.file_id t)
                      (hist_topSongs historyData)) l.
Proof.
  intros Hp%hist_personalize_from.
  eapply Forall_impl; [exact Hp|]. clear Hp.
  intros r (s & _ & Hnot & ->). apply Forall_forall.
  intros t Ht%elem_of_hist_historySongIds E. by rewrite E in Hnot.
Qed.

Lemma hist_personalize_sets sb uid historyData :
  hist_personalize ln_approx Math_random sb uid historyData ≠ Val None.
Proof.
  unfold hist_personalize.
  destruct (select_songs sb) as [rs|]; simpl; [|done].
  destruct (error rs); [done|].
  destruct (data rs) as [allSongs|]; [|done].
  destruct (decide (length allSongs = 0)); [done|].
  destruct (select_liked sb uid) as [rl|]; simpl; [|done].
  by destruct (decide _).
Qed.

Lemma hist_excluded sb uid prev :
  Forall (λ r, Forall (λ t, Song.file_id r ≠ DatabaseSong.file_id t) (top_tracks sb uid))
         (fetchPersonalizedSongs sb (Some uid) prev).
Proof.
  unfold fetchPersonalizedSongs, fetchPersonalizedSongs_try, top_tracks.
  destruct (select_top_history sb uid) as [rh|]; simpl; [|constructor].
  destruct (error rh); [constructor|].
  destruct (data rh) as [historyData|]; simpl.
  - destruct (decide (length historyData = 0)) as [E|E].
    + apply nil_length_inv in E as ->. simpl.
      apply Forall_forall. intros r _. constructor.
    + destruct (hist_personalize _ _ sb uid historyData) as [[l|]|] eqn:Hp; simpl.
      * by apply hist_personalize_excluded in Hp.
      * by apply hist_personalize_sets in Hp.
      * constructor.
  - apply Forall_forall. intros r _. constructor.
Qed.

Lemma hist_excluded_rows db uid prev :
  Forall (λ r, Forall (λ row, Song.file_id r ≠ TopHistoryRow.song_id row)
                      (query_top_history db uid))
         (fetchPersonalizedSongs (serve db) (Some uid) prev).
Proof.
  unfold fetchPersonalizedSongs, fetchPersonalizedSongs_try. simpl.
  destruct (decide (length (query_top_history db uid) = 0)) as [E|E].
  { apply nil_length_inv in E. rewrite E.
    apply Forall_forall. intros r _. constructor. }
  destruct (hist_personalize _ _ (serve db) uid (query_top_history db uid))
    as [[l|]|] eqn:Hp; simpl; [|by apply hist_personalize_sets in Hp|constructor].
  apply hist_personalize_from in Hp. simpl in Hp.
  eapply Forall_impl; [exact Hp|]. clear Hp.
  intros r (s & Hs & Hnot & ->). apply Forall_forall. intros row Hrow E'.
  destruct (TopHistoryRow.songs row) as [t|] eqn:Ht.
  - apply Hnot. rewrite E'.
    assert (DatabaseSong.file_id t = TopHistoryRow.song_id row) as <-.
    { unfold query_top_history in Hrow.
      apply list_elem_of_fmap in Hrow as (rec & -> & _). simpl in *.
      apply find_some in Ht as [_ Ht]. by apply bool_decide_eq_true in Ht. }
    apply elem_of_hist_historySongIds, list_elem_of_omap. by exists row.
  - unfold query_top_history in Hrow.
    apply list_elem_of_fmap in Hrow as (rec & -> & _). simpl in *.
    eapply find_none in Ht; [|by apply list_elem_of_In].
    by apply bool_decide_eq_false in Ht.
Qed.

(** C1.  No excluded track is recommended.  Session strategy: no returned
    song has its id in the caller's exclusion set.  Contextual strategy: no
    returned song is the current track (by [file_id], and by the string id
    derived from it) nor has its id in the caller's listened set.  History
    strategy: no song of the resulting list has the [file_id] of a track of
    the top-10 history; when the rows come from the store, none has the
    [song_id] of a row of the top-10 history either. *)
Theorem excluded_ids_absent :
  (∀ sb uid listened exclude,
     Forall (λ r, Song.id r ∉ exclude)
            (getSmartPersonalizedSongs sb uid listened exclude)) ∧
  (∀ sb uid cur listened,
     Forall (λ r, Song.file_id r ≠ Song.file_id cur ∧
                  Song.id r ≠ toString (Song.file_id cur) ∧
                  ∀ ls, listened = Some ls → Song.id r ∉ ls)
            (getPersonalizedSongs sb uid cur listened)) ∧
  (∀ sb uid prev,
     Forall (λ r, Forall (λ t, Song.file_id r ≠ DatabaseSong.file_id t)
                         (top_tracks sb uid))
            (fetchPersonalizedSongs sb (Some uid) prev)) ∧
  (∀ db uid prev,
     Forall (λ r, Forall (λ row, Song.file_id r ≠ TopHistoryRow.song_id row)
                         (query_top_history db uid))
            (fetchPersonalizedSongs (serve db) (Some uid) prev)).
Proof.
  split; [|split; [|split]].
  - apply smart_excluded.
  - apply ctx_excluded.
  - apply hist_excluded.
  - apply hist_excluded_rows.
Qed.

Lemma number_ge_trans a b c : number_ge a b → number_ge b c → number_ge a c.
Proof.
  destruct a, b, c; simpl; try done. intros H1 H2. lra.
Qed.

Lemma by_score_keep a b :
  score a ≠ NaN → score b ≠ NaN →
  is_positive (by_score_desc a b) = false → number_ge (score a) (score b).
Proof.
  unfold by_score_desc, nsub.
  destruct (score a) as [x| | |], (score b) as [y| | |]; simpl; try done.
  intros _ _ H. apply negb_false_iff, Qle_bool_iff in H. lra.
Qed.

Lemma by_score_swap a b :
  score a ≠ NaN → score b ≠ NaN →
  is_positive (by_score_desc a b) = true → number_ge (score b) (score a).
Proof.
  unfold by_score_desc, nsub.
  destruct (score a) as [x| | |], (score b) as [y| | |]; simpl; try done.
  intros _ _ H. apply negb_true_iff in H.
  destruct (Qlt_le_dec x y) as [Hlt|Hle]; [lra|].
  assert (Qle_bool (y + - x) 0 = true) as E by (apply Qle_bool_iff; lra).
  congruence.
Qed.

Lemma rankEntries_sorted n scored :
  Forall (λ e, score e ≠ NaN) scored →
  StronglySorted (λ a b, number_ge (score a) (score b)) (rankEntries n scored).
Proof.
  intros H. unfold rankEntries, slice0. apply StronglySorted_take.
  apply Array_sort_sorted with (P := λ e, score e ≠ NaN); [| | |done].
  - apply by_score_keep.
  - apply by_score_swap.
  - intros a b c _ _ _. apply number_ge_trans.
Qed.

Lemma rank_NoDup n scored :
  NoDup ((λ e, Song.file_id (song e)) <$> scored) →
  NoDup (Song.file_id <$> rank n scored).
Proof.
  intros H. eapply sublist_NoDup; [|apply fmap_sublist, rank_sublist_sorted].
  rewrite <-list_fmap_compose.
  by rewrite Array_sort_Permutation.
Qed.

Lemma smart_length sb uid listened exclude :
  length (getSmartPersonalizedSongs sb uid listened exclude) ≤ 15.
Proof.
  unfold getSmartPersonalizedSongs, getSmartPersonalizedSongs_try.
  destruct (decide (length listened = 0)); simpl; [lia|].
  destruct (select_songs sb) as [rs|]; simpl; [|lia].
  destruct (error rs); simpl; [lia|].
  destruct (data rs) as [songsData|]; simpl; [|lia].
  destruct (decide (length songsData = 0)); simpl; [lia|].
  destruct (select_liked sb uid) as [rl|]; simpl; [|lia].
  destruct (decide _); simpl; [lia|].
  rewrite length_rank. lia.
Qed.

Lemma ctx_length sb uid cur listened :
  length (getPersonalizedSongs sb uid cur listened) ≤ 10.
Proof.
  unfold getPersonalizedSongs, getPersonalizedSongs_try.
  destruct (select_songs sb) as [rs|]; simpl; [|lia].
  destruct (error rs); simpl; [lia|].
  destruct (data rs) as [songsData|]; simpl; [|lia].
  destruct (decide (length songsData = 0)); simpl; [lia|].
  destruct (select_history sb uid) as [rh|]; simpl; [|lia].
  destruct (select_liked sb uid) as [rl|]; simpl; [|lia].
  destruct (decide _); simpl; [lia|].
  rewrite length_rank. lia.
Qed.

Lemma hist_length sb uid historyData l :
  hist_personalize ln_approx Math_random sb uid historyData = Val (Some l) →
  length l ≤ 30.
Proof.
  unfold hist_personalize.
  destruct (select_songs sb) as [rs|]; simpl; [|done].
  destruct (error rs); [intros [= <-]; simpl; lia|].
  destruct (data rs) as [allSongs|]; [|intros [= <-]; simpl; lia].
  destruct (decide (length allSongs = 0)); [intros [= <-]; simpl; lia|].
  destruct (select_liked sb uid) as [rl|]; simpl; [|done].
  destruct (decide _); intros [= <-]; simpl; [lia|].
  rewrite length_rank. lia.
Qed.

(** *** Totality of the scoring *)

Lemma is_finite_nadd a b : is_finite a → is_finite b → is_finite (a +' b).
Proof. by destruct a, b. Qed.

Lemma is_finite_bonus c w a : is_finite a → is_finite (bonus c w a).
Proof. destruct c; simpl; [|done]. by destruct a. Qed.

Lemma is_finite_add_matches l w a : is_finite a → is_finite (add_matches l w a).
Proof. by destruct a. Qed.

Lemma is_finite_log_count c :
  count_ok c → is_finite (Math_log ln_approx (Fin (inject_Z (1 + or_zero c))) *' Fin 2) ∧
               is_finite (Math_log ln_approx (Fin (inject_Z (1 + or_zero c))) *' Fin 1).
Proof.
  intros H.
  assert (0 < inject_Z (1 + or_zero c))%Q as Hpos.
  { replace 0%Q with (inject_Z 0) by done. rewrite <-Zlt_Qlt.
    destruct c as [z|]; simpl in *; [|lia]. destruct (z =? 0)%Z; lia. }
  unfold Math_log. apply Qgt_alt in Hpos. by rewrite Hpos.
Qed.

Lemma is_finite_popularity s a :
  counts_ok s → is_finite a → is_finite (popularity ln_approx s a).
Proof.
  intros [Hl Hv] Ha. unfold popularity.
  apply is_finite_nadd; [apply is_finite_nadd; [done|]|].
  - by apply is_finite_log_count.
  - by apply is_finite_log_count.
Qed.

Lemma is_finite_jitter k range a : is_finite a → is_finite (jitter Math_random k range a).
Proof. by destruct a. Qed.

Lemma smart_score_finite listened pT pA liked k s :
  counts_ok s → is_finite (smart_score ln_approx Math_random listened pT pA liked k s).
Proof.
  intros H. unfold smart_score, smart_score_net.
  apply is_finite_jitter, is_finite_bonus, is_finite_popularity; [done|].
  by apply is_finite_bonus, is_finite_bonus, is_finite_add_matches.
Qed.

Lemma ctx_score_finite cur hm liked k s :
  counts_ok s → is_finite (ctx_score ln_approx Math_random cur hm liked k s).
Proof.
  intros H. unfold ctx_score, ctx_score_net.
  apply is_finite_jitter, is_finite_bonus, is_finite_popularity; [done|].
  apply is_finite_nadd; [|done].
  by apply is_finite_bonus, is_finite_bonus, is_finite_add_matches.
Qed.

Lemma hist_score_finite cT cA liked k s :
  counts_ok s → is_finite (hist_score ln_approx Math_random cT cA liked k s).
Proof.
  intros H. unfold hist_score, hist_score_net.
  apply is_finite_jitter, is_finite_popularity; [done|].
  apply is_finite_bonus, is_finite_bonus.
  by destruct (DatabaseSong.tags s).
Qed.

Lemma scored_file_ids (g : DatabaseSong.t → bool) (f : nat → DatabaseSong.t → number)
    (l : list DatabaseSong.t) :
  (λ e, Song.file_id (song e))
    <$> imap (λ k s, {| song := convertDatabaseSong s (g s); score := f k s |}) l
  = DatabaseSong.file_id <$> l.
Proof.
  revert f. induction l as [|x l IH]; intros f; [done|].
  rewrite imap_cons. simpl. f_equal. apply (IH (λ k, f (S k))).
Qed.

Lemma filtered_ids_NoDup (P : DatabaseSong.t → Prop) `{!∀ x, Decision (P x)} l :
  NoDup (DatabaseSong.file_id <$> l) → NoDup (DatabaseSong.file_id <$> filter P l).
Proof.
  intros Hnd. eapply sublist_NoDup; [exact Hnd|]. apply fmap_sublist, sublist_filter.
Qed.

Lemma smart_NoDup sb uid listened exclude :
  NoDup (DatabaseSong.file_id <$> catalog_of (select_songs sb)) →
  NoDup (Song.file_id <$> getSmartPersonalizedSongs sb uid listened exclude).
Proof.
  unfold getSmartPersonalizedSongs, getSmartPersonalizedSongs_try, catalog_of.
  destruct (decide (length listened = 0)); simpl; [constructor|].
  destruct (select_songs sb) as [rs|]; simpl; [|constructor].
  destruct (error rs); simpl; [constructor|].
  destruct (data rs) as [songsData|]; simpl; [|constructor].
  destruct (decide (length songsData = 0)); simpl; [constructor|].
  destruct (select_liked sb uid) as [rl|]; simpl; [|constructor].
  destruct (decide _); simpl; [constructor|].
  intros H. apply rank_NoDup. unfold smart_scored. rewrite scored_file_ids.
  by apply filtered_ids_NoDup.
Qed.

Lemma ctx_NoDup sb uid cur listened :
  NoDup (DatabaseSong.file_id <$> catalog_of (select_songs sb)) →
  NoDup (Song.file_id <$> getPersonalizedSongs sb uid cur listened).
Proof.
  unfold getPersonalizedSongs, getPersonalizedSongs_try, catalog_of.
  destruct (select_songs sb) as [rs|]; simpl; [|constructor].
  destruct (error rs); simpl; [constructor|].
  destruct (data rs) as [songsData|]; simpl; [|constructor].
  destruct (decide (length songsData = 0)); simpl; [constructor|].
  destruct (select_history sb uid) as [rh|]; simpl; [|constructor].
  destruct (select_liked sb uid) as [rl|]; simpl; [|constructor].
  destruct (decide _); simpl; [constructor|].
  intros H. apply rank_NoDup. unfold ctx_scored. rewrite scored_file_ids.
  by apply filtered_ids_NoDup.
Qed.

Lemma hist_NoDup sb uid historyData l :
  hist_personalize ln_approx Math_random sb uid historyData = Val (Some l) →
  NoDup (DatabaseSong.file_id <$> catalog_of (select_songs sb)) →
  NoDup (Song.file_id <$> l).
Proof.
  unfold hist_personalize, catalog_of.
  destruct (select_songs sb) as [rs|]; simpl; [|done].
  destruct (error rs); [intros [= <-]; constructor|].
  destruct (data rs) as [allSongs|]; [|intros [= <-]; constructor].
  destruct (decide (length allSongs = 0)); [intros [= <-]; constructor|].
  destruct (select_liked sb uid) as [rl|]; simpl; [|done].
  destruct (decide _); intros [= <-]; [constructor|].
  intros H. apply rank_NoDup. unfold hist_scored. rewrite scored_file_ids.
  by apply filtered_ids_NoDup.
Qed.

Lemma is_finite_not_NaN a : is_finite a → a ≠ NaN.
Proof. by destruct a. Qed.

Lemma imap_scores_not_NaN (g : DatabaseSong.t → Song.t) (f : nat → DatabaseSong.t → number)
    (l : list DatabaseSong.t) :
  (∀ k s, counts_ok s → is_finite (f k s)) →
  Forall counts_ok l →
  Forall (λ e, score e ≠ NaN) (imap (λ k s, {| song := g s; score := f k s |}) l).
Proof.
  intros Hf Hl. apply Forall_forall.
  intros e (k & s & -> & Hs)%elem_of_lookup_imap. simpl.
  apply is_finite_not_NaN, Hf.
  rewrite Forall_forall in Hl. apply Hl. by eapply list_elem_of_lookup_2.
Qed.

(** C2.  The ranker [sort(...).slice(0, n).map(entry => entry.song)].  For
    scored candidates with pairwise distinct track identifiers and scores
    that are numbers (not NaN): the output has no duplicate identifier and
    at most [n] songs, its entries are in descending order of score and are
    entries of the input, and when the input has no more than [n] entries
    the output is the whole input, reordered.  The strategies call it with
    [n] = 15 (session), 10 (contextual) and 30 (history): their results
    have at most that many songs and, for a catalog with distinct
    identifiers, no duplicate; the scores they rank are numbers whenever
    the candidates' counts are null or not negative. *)
Theorem ranker_output :
  (∀ n scored,
     NoDup ((λ e, Song.file_id (song e)) <$> scored) →
     Forall (λ e, score e ≠ NaN) scored →
     NoDup (Song.file_id <$> rank n scored) ∧
     length (rank n scored) ≤ n ∧
     rank n scored = song <$> rankEntries n scored ∧
     StronglySorted (λ a b, number_ge (score a) (score b)) (rankEntries n scored) ∧
     rankEntries n scored ⊆ scored ∧
     (length scored ≤ n →
      rank n scored ≡ₚ song <$> scored ∧ length (rank n scored) = length scored)) ∧
  (∀ sb uid listened exclude,
     length (getSmartPersonalizedSongs sb uid listened exclude) ≤ 15 ∧
     (NoDup (DatabaseSong.file_id <$> catalog_of (select_songs sb)) →
      NoDup (Song.file_id <$> getSmartPersonalizedSongs sb uid listened exclude))) ∧
  (∀ sb uid cur listened,
     length (getPersonalizedSongs sb uid cur listened) ≤ 10 ∧
     (NoDup (DatabaseSong.file_id <$> catalog_of (select_songs sb)) →
      NoDup (Song.file_id <$> getPersonalizedSongs sb uid cur listened))) ∧
  (∀ sb uid historyData l,
     hist_personalize ln_approx Math_random sb uid historyData = Val (Some l) →
     length l ≤ 30 ∧
     (NoDup (DatabaseSong.file_id <$> catalog_of (select_songs sb)) →
      NoDup (Song.file_id <$> l))) ∧
  (∀ availableSongs,
     Forall counts_ok availableSongs →
     (∀ listened liked,
        Forall (λ e, score e ≠ NaN)
          (smart_scored ln_approx Math_random listened liked availableSongs)) ∧
     (∀ cur hm liked,
        Forall (λ e, score e ≠ NaN)
          (ctx_scored ln_approx Math_random cur hm liked availableSongs)) ∧
     (∀ cT cA liked,
        Forall (λ e, score e ≠ NaN)
          (hist_scored ln_approx Math_random cT cA liked availableSongs))).
Proof.
  split; [|split; [|split; [|split]]].
  - intros n scored Hnd Hnan. repeat split.
    + by apply rank_NoDup.
    + rewrite length_rank. lia.
    + by apply rankEntries_sorted.
    + apply rankEntries_subseteq.
    + by apply rank_all.
    + rewrite length_rank. lia.
  - intros. split; [apply smart_length|apply smart_NoDup].
  - intros. split; [apply ctx_length|apply ctx_NoDup].
  - intros sb uid hd l Hl. split; [by eapply hist_length|by eapply hist_NoDup].
  - intros avail Hok. split; [|split]; intros.
    + apply imap_scores_not_NaN; [|done]. intros. by apply smart_score_finite.
    + apply imap_scores_not_NaN; [|done]. intros. by apply ctx_score_finite.
    + apply imap_scores_not_NaN; [|done]. intros. by apply hist_score_finite.
Qed.

(** *** Degraded results *)








Lemma hist_no_history sb uid prev rh :
  select_top_history sb uid = Fulfilled rh → error rh = None →
  data rh = None ∨ data rh = Some [] →
  (rejected (select_trending sb) → fetchPersonalizedSongs sb (Some uid) prev = []) ∧
  (∀ rt trendingSongs,
     select_trending sb = Fulfilled rt → data rt = Some trendingSongs →
     (rejected (select_liked sb uid) → fetchPersonalizedSongs sb (Some uid) prev = []) ∧
     (∀ rl, select_liked sb uid = Fulfilled rl →
            fetchPersonalizedSongs sb (Some uid) prev
            = flagged (data rl) <$> trendingSongs)).
Proof.
  intros Hh He Hd.
  unfold fetchPersonalizedSongs, fetchPersonalizedSongs_try.
  rewrite Hh. simpl. rewrite He.
  assert (match data rh with
          | Some historyData =>
              if decide (length historyData = 0) then hist_trending sb uid
              else hist_personalize ln_approx Math_random sb uid historyData
          | None => hist_trending sb uid
          end = hist_trending sb uid) as ->.
  { by destruct Hd as [->| ->]. }
  unfold hist_trending. split.
  - by destruct (select_trending sb).
  - intros rt T -> Ht. simpl. rewrite Ht. split.
    + by destruct (select_liked sb uid).
    + by intros rl ->.
Qed.



(** *** The trending fallback *)

Lemma elem_of_likedSet rows x :
  x ∈ likedSet (Some rows) ↔ ∃ r, r ∈ rows ∧ LikedRow.song_id r = x.
Proof.
  unfold likedSet.
  assert (∀ acc : gset Z,
    x ∈ foldl (λ acc item, acc ∪ {[LikedRow.song_id item]}) acc rows
    ↔ x ∈ acc ∨ ∃ r, r ∈ rows ∧ LikedRow.song_id r = x) as H.
  { induction rows as [|r rows IH]; intros acc; simpl.
    - split; [by left|]. intros [?|(r & Hr & _)]; [done|]. by apply elem_of_nil in Hr.
    - rewrite IH. split.
      + intros [[?| ->%elem_of_singleton]%elem_of_union|(r' & Hr' & <-)].
        * by left.
        * right. exists r. split; [left|done].
        * right. exists r'. split; [by right|done].
      + intros [?|(r' & Hr' & <-)].
        * left. apply elem_of_union. by left.
        * apply elem_of_cons in Hr' as [->|Hr'].
          -- left. apply elem_of_union. right. by apply elem_of_singleton.
          -- right. by exists r'. }
  rewrite H. split; [|by right]. intros [Hx|?]; [|done]. by apply elem_of_empty in Hx.
Qed.

Lemma elem_of_query_liked db uid x :
  x ∈ likedSet (Some (query_liked db uid))
  ↔ LikedRecord.mk uid x ∈ liked_songs_table db.
Proof.
  rewrite elem_of_likedSet. unfold query_liked. split.
  - intros (r & (rec & -> & [Hu Hrec]%list_elem_of_filter)%list_elem_of_fmap & <-).
    simpl. destruct rec as [u i]. simpl in *. by subst.
  - intros H. exists (LikedRow.mk x). split; [|done].
    apply list_elem_of_fmap. exists (LikedRecord.mk uid x). split; [done|].
    by apply list_elem_of_filter.
Qed.

Lemma desc_order_trans ka kb kc : desc_order ka kb → desc_order kb kc → desc_order ka kc.
Proof. destruct ka, kb, kc; simpl; try done. intros. lra. Qed.

Lemma order_desc_sorted {A} (key : A → option Q) rows :
  StronglySorted (λ a b, desc_order (key a) (key b)) (order_desc key rows).
Proof.
  unfold order_desc.
  apply Array_sort_sorted with (P := λ _, True); [| | |by apply Forall_true].
  - intros a b _ _. destruct (key a), (key b); simpl; try done.
    intros H%negb_false_iff%Qle_bool_iff. lra.
  - intros a b _ _. destruct (key a), (key b); simpl; try done.
    intros H%negb_true_iff.
    destruct (Qlt_le_dec q q0) as [Hlt|Hle]; [lra|].
    assert (Qle_bool (q0 - q) 0 = true) as E by (apply Qle_bool_iff; lra).
    congruence.
  - intros a b c _ _ _. apply desc_order_trans.
Qed.

Lemma no_history_rows db uid :
  Forall (λ r, HistoryRecord.user_id r ≠ uid) (history_table db) →
  query_top_history db uid = [].
Proof.
  intros H. unfold query_top_history.
  assert (filter (λ r, HistoryRecord.user_id r = uid) (history_table db) = []) as ->.
  { induction H as [|r l Hr Hl IH]; [done|]. rewrite filter_cons_False; done. }
  done.
Qed.

(** C4.  For a signed-in listener whose top-history read returns no row
    (and no error), when the trending read returns rows and the liked-songs
    read is answered: the resulting list is the rows of the trending read,
    in their order, each converted with its liked flag, and a row is
    flagged exactly when its id is in the liked set.  With the store
    answering the reads, for a listener without history rows: the list is
    the catalog in descending order of view count (nulls first), cut to
    its first 20 rows and converted, and a track is flagged exactly when
    the listener's liked songs hold its id. *)
Theorem trending_fallback (uid : string) (prev : list Song.t) :
  (∀ sb rh rt trendingSongs rl,
     select_top_history sb uid = Fulfilled rh → error rh = None →
     data rh = None ∨ data rh = Some [] →
     select_trending sb = Fulfilled rt → data rt = Some trendingSongs →
     select_liked sb uid = Fulfilled rl →
     fetchPersonalizedSongs sb (Some uid) prev = flagged (data rl) <$> trendingSongs ∧
     ∀ s, Song.isLiked (flagged (data rl) s) = true
          ↔ DatabaseSong.file_id s ∈ likedSet (data rl)) ∧
  (∀ db,
     Forall (λ r, HistoryRecord.user_id r ≠ uid) (history_table db) →
     let ordered := order_desc views_key (songs_table db) in
     let liked := Some (query_liked db uid) in
     fetchPersonalizedSongs (serve db) (Some uid) prev = flagged liked <$> take 20 ordered ∧
     ordered ≡ₚ songs_table db ∧
     StronglySorted (λ a b, desc_order (views_key a) (views_key b)) ordered ∧
     (∀ s, Song.isLiked (flagged liked s) = true
           ↔ LikedRecord.mk uid (DatabaseSong.file_id s) ∈ liked_songs_table db) ∧
     Forall2 (λ r s, Song.file_id r = DatabaseSong.file_id s ∧
                     Song.views r = DatabaseSong.views s)
             (fetchPersonalizedSongs (serve db) (Some uid) prev) (take 20 ordered)).
Proof.
  split.
  - intros sb rh rt T rl Hh He Hd Ht HT Hl. split.
    + by eapply hist_no_history.
    + intros s. unfold flagged. simpl. apply bool_decide_eq_true.
  - intros db Hh ordered liked.
    assert (fetchPersonalizedSongs (serve db) (Some uid) prev
            = flagged liked <$> take 20 ordered) as E.
    { unfold fetchPersonalizedSongs, fetchPersonalizedSongs_try. simpl.
      by rewrite (no_history_rows _ _ Hh). }
    split; [done|]. split; [apply Array_sort_Permutation|].
    split; [apply order_desc_sorted|]. split.
    + intros s. unfold flagged. simpl. rewrite bool_decide_eq_true.
      apply elem_of_query_liked.
    + rewrite E. apply Forall2_fmap_l, Forall_Forall2_diag, Forall_true. done.
Qed.

(** *** The history weight *)




(** *** Monotonicity in the number of matching tags *)

Lemma grows_refl a : grows a a.
Proof. destruct a; simpl; auto. lra. Qed.

Lemma grows_nadd a a' t : grows a a' → grows (a +' t) (a' +' t).
Proof. destruct a, a', t; simpl; try done. intros. lra. Qed.

Lemma grows_bonus c w a a' : grows a a' → grows (bonus c w a) (bonus c w a').
Proof. destruct c; simpl; [apply grows_nadd|done]. Qed.

Lemma grows_popularity s a a' :
  grows a a' → grows (popularity ln_approx s a) (popularity ln_approx s a').
Proof. intros H. unfold popularity. by do 2 apply grows_nadd. Qed.

Lemma grows_jitter k range a a' :
  grows a a' → grows (jitter Math_random k range a) (jitter Math_random k range a').
Proof. apply grows_nadd. Qed.

Lemma grows_add_matches (l l' : list string) w :
  (0 <= w)%Q → length l ≤ length l' →
  grows (add_matches l w (Fin 0)) (add_matches l' w (Fin 0)).
Proof.
  intros Hw Hl. unfold add_matches. simpl.
  assert (inject_Z (Z.of_nat (length l)) <= inject_Z (Z.of_nat (length l')))%Q as H.
  { rewrite <-Zle_Qle. lia. }
  nra.
Qed.

Lemma grows_not_lt a a' : grows a a' → ¬ number_lt a' a.
Proof. destruct a, a'; simpl; try done; try tauto. intros H1 H2. lra. Qed.

Lemma smart_net_grows listened pT pA liked s ts' :
  smart_matchCount pT s ≤ smart_matchCount pT (with_tags s ts') →
  grows (smart_score_net ln_approx listened pT pA liked s)
        (smart_score_net ln_approx listened pT pA liked (with_tags s ts')).
Proof.
  intros H. unfold smart_score_net.
  apply grows_bonus, (grows_popularity s), grows_bonus, grows_bonus.
  by apply grows_add_matches.
Qed.

Lemma ctx_net_grows cur hm liked s ts' :
  ctx_matchCount cur s ≤ ctx_matchCount cur (with_tags s ts') →
  grows (ctx_score_net ln_approx cur hm liked s)
        (ctx_score_net ln_approx cur hm liked (with_tags s ts')).
Proof.
  intros H. unfold ctx_score_net.
  apply grows_bonus, (grows_popularity s), grows_nadd, grows_bonus, grows_bonus.
  by apply grows_add_matches.
Qed.

Lemma hist_net_grows cT cA liked s ts' :
  hist_matchCount cT s ≤ hist_matchCount cT (with_tags s ts') →
  grows (hist_score_net ln_approx cT cA liked s)
        (hist_score_net ln_approx cT cA liked (with_tags s ts')).
Proof.
  intros H. unfold hist_score_net.
  apply (grows_popularity s), grows_bonus, grows_bonus.
  unfold hist_matchCount in H. simpl in *.
  destruct (DatabaseSong.tags s) as [ts|], ts' as [ts'|].
  - by apply grows_add_matches.
  - assert (length (hist_matchingTags cT ts) = 0) as E by lia.
    unfold add_matches. rewrite E. simpl. unfold Qle. simpl. lia.
  - unfold add_matches. simpl.
    assert (0 <= inject_Z (Z.of_nat (length (hist_matchingTags cT ts'))))%Q.
    { replace 0%Q with (inject_Z 0) by done. rewrite <-Zle_Qle. lia. }
    nra.
  - apply grows_refl.
Qed.

(** C6.  In each strategy, replacing the tags of a candidate by tags with
    at least as many matches, everything else (the other fields, the
    preferences, the liked set, the history map, the random draw) being
    the same, does not lower the score before jitter, nor the score with
    the same jitter. *)
Theorem score_monotone_in_matches (s : DatabaseSong.t) (ts' : option (list string)) :
  (∀ listened pT pA liked k,
     smart_matchCount pT s ≤ smart_matchCount pT (with_tags s ts') →
     ¬ number_lt (smart_score_net ln_approx listened pT pA liked (with_tags s ts'))
                 (smart_score_net ln_approx listened pT pA liked s) ∧
     ¬ number_lt (smart_score ln_approx Math_random listened pT pA liked k (with_tags s ts'))
                 (smart_score ln_approx Math_random listened pT pA liked k s)) ∧
  (∀ cur hm liked k,
     ctx_matchCount cur s ≤ ctx_matchCount cur (with_tags s ts') →
     ¬ number_lt (ctx_score_net ln_approx cur hm liked (with_tags s ts'))
                 (ctx_score_net ln_approx cur hm liked s) ∧
     ¬ number_lt (ctx_score ln_approx Math_random cur hm liked k (with_tags s ts'))
                 (ctx_score ln_approx Math_random cur hm liked k s)) ∧
  (∀ cT cA liked k,
     hist_matchCount cT s ≤ hist_matchCount cT (with_tags s ts') →
     ¬ number_lt (hist_score_net ln_approx cT cA liked (with_tags s ts'))
                 (hist_score_net ln_approx cT cA liked s) ∧
     ¬ number_lt (hist_score ln_approx Math_random cT cA liked k (with_tags s ts'))
                 (hist_score ln_approx Math_random cT cA liked k s)).
Proof.
  split; [|split].
  - intros listened pT pA liked k H%(smart_net_grows listened pT pA liked).
    split; apply grows_not_lt; [done|]. by apply grows_jitter.
  - intros cur hm liked k H%(ctx_net_grows cur hm liked).
    split; apply grows_not_lt; [done|]. by apply grows_jitter.
  - intros cT cA liked k H%(hist_net_grows cT cA liked).
    split; apply grows_not_lt; [done|]. by apply grows_jitter.
Qed.

(** *** The history map *)

Lemma historyMap_of_snoc rows h :
  historyMap_of (Some (rows ++ [h]))
  = <[HistoryRow.song_id h := or_zeroQ (HistoryRow.minutes_listened h)]>
      (historyMap_of (Some rows)).
Proof. unfold historyMap_of. by rewrite foldl_app. Qed.

Lemma historyMap_of_lookup rows trackId :
  historyMap_of (Some rows) !! trackId = last_minutes rows trackId.
Proof.
  unfold last_minutes.
  induction rows as [|h rows IH] using rev_ind; [done|].
  rewrite historyMap_of_snoc, filter_app, lookup_insert.
  case_decide as E.
  - rewrite filter_cons_True, filter_nil by done. by rewrite last_snoc.
  - rewrite filter_cons_False, filter_nil, app_nil_r by done. apply IH.
Qed.

Lemma filter_id_NoDup rows trackId :
  NoDup (HistoryRow.song_id <$> rows) →
  length (filter (λ h, HistoryRow.song_id h = trackId) rows) ≤ 1.
Proof.
  induction rows as [|h rows IH]; simpl; [lia|].
  intros [Hh Hnd]%NoDup_cons.
  destruct (decide (HistoryRow.song_id h = trackId)) as [E|E].
  - rewrite filter_cons_True by done. simpl.
    destruct (filter (λ h, HistoryRow.song_id h = trackId) rows) as [|h' l] eqn:Ef;
      [simpl; lia|].
    assert (h' ∈ filter (λ h, HistoryRow.song_id h = trackId) rows)
      as [E' Hh']%list_elem_of_filter by (rewrite Ef; left).
    exfalso. apply Hh, list_elem_of_fmap. exists h'. split; [congruence|done].
  - rewrite filter_cons_False by done. by apply IH.
Qed.

(** C9, amended.  The value the history map holds for a track is the
    minutes ([null] read as 0) of the last history row of that track; rows
    do not add up.  When every track has at most one row, this is the sum
    of the minutes of its signals. *)
Theorem history_map_keeps_last (rows : list HistoryRow.t) (trackId : Z) :
  historyMap_of (Some rows) !! trackId = last_minutes rows trackId ∧
  (NoDup (HistoryRow.song_id <$> rows) →
   ∀ m, historyMap_of (Some rows) !! trackId = Some m →
        (m == spec_total_minutes rows trackId)%Q).
Proof.
  split; [apply historyMap_of_lookup|].
  intros Hnd%(filter_id_NoDup _ trackId) m.
  rewrite historyMap_of_lookup. unfold last_minutes, spec_total_minutes.
  destruct (filter _ rows) as [|h [|h' l]]; simpl in *; [done| |lia].
  intros [= <-]. lra.
Qed.

(** *** Null fields *)

Lemma popularity_null s x :
  (ln_approx 1 == 0)%Q →
  DatabaseSong.likes s = None → DatabaseSong.views s = None →
  number_eq (popularity ln_approx s (Fin x)) (Fin x).
Proof.
  intros Hln Hl Hv. unfold popularity. rewrite Hl, Hv. simpl.
  change (inject_Z 1) with 1%Q. rewrite Hln. lra.
Qed.

(** C10.  A candidate without a tag list has no matching tag in any
    strategy and its tag step leaves the score at 0.  With [Math.log(1) = 0],
    a candidate whose like and view counts are null gets nothing from the
    popularity step.  Every candidate whose counts are null or not negative
    gets a finite score in every strategy, for every draw of the random
    term. *)
Theorem scoring_total (s : DatabaseSong.t) :
  (DatabaseSong.tags s = None →
   (∀ pT, smart_matchingTags pT s = [] ∧
          number_eq (add_matches (smart_matchingTags pT s) 25 (Fin 0)) (Fin 0)) ∧
   (∀ cur, ctx_matchingTags cur s = [] ∧
           number_eq (add_matches (ctx_matchingTags cur s) 15 (Fin 0)) (Fin 0)) ∧
   (∀ cT cA liked,
      hist_matchCount cT s = 0 ∧
      hist_score_net ln_approx cT cA liked s
      = popularity ln_approx s
          (bonus (bool_decide (DatabaseSong.file_id s ∈ liked)) 10
             (bonus (hist_artistMatch cA s) 25 (Fin 0))))) ∧
  ((ln_approx 1 == 0)%Q →
   DatabaseSong.likes s = None → DatabaseSong.views s = None →
   ∀ x, number_eq (popularity ln_approx s (Fin x)) (Fin x)) ∧
  (counts_ok s →
   (∀ listened pT pA liked k,
      is_finite (smart_score ln_approx Math_random listened pT pA liked k s)) ∧
   (∀ cur hm liked k,
      is_finite (ctx_score ln_approx Math_random cur hm liked k s)) ∧
   (∀ cT cA liked k,
      is_finite (hist_score ln_approx Math_random cT cA liked k s))).
Proof.
  split; [|split].
  - intros Ht. repeat split.
    + unfold smart_matchingTags. by rewrite Ht.
    + unfold smart_matchingTags. rewrite Ht. by vm_compute.
    + unfold ctx_matchingTags. by rewrite Ht.
    + unfold ctx_matchingTags. rewrite Ht. by vm_compute.
    + unfold hist_matchCount. by rewrite Ht.
    + unfold hist_score_net. by rewrite Ht.
  - intros Hln Hl Hv x. by apply popularity_null.
  - intros H. repeat split; intros.
    + by apply smart_score_finite.
    + by apply ctx_score_finite.
    + by apply hist_score_finite.
Qed.

(** *** Tag and artist matching *)

Lemma elem_of_lowered_tags (acc : gset string) ts x :
  x ∈ foldl (λ acc tag, acc ∪ {[toLowerCase tag]}) acc ts
  ↔ x ∈ acc ∨ ∃ t, t ∈ ts ∧ x = toLowerCase t.
Proof.
  revert acc. induction ts as [|t ts IH]; intros acc; simpl.
  - split; [by left|]. intros [?|(t & Ht & _)]; [done|]. by apply elem_of_nil in Ht.
  - rewrite IH, elem_of_union, elem_of_singleton. split.
    + intros [[?| ->]|(t' & Ht' & ->)]; [by left| |].
      * right. exists t. split; [left|done].
      * right. exists t'. split; [by right|done].
    + intros [?|(t' & Ht' & ->)]; [by left; left|].
      apply elem_of_cons in Ht' as [->|Ht']; [by left; right|].
      right. by exists t'.
Qed.

Lemma elem_of_smart_preferredTags listened x :
  x ∈ smart_preferredTags listened
  ↔ ∃ played ts t, played ∈ listened ∧ Song.tags played = Some ts ∧
                   t ∈ ts ∧ x = toLowerCase t.
Proof.
  unfold smart_preferredTags.
  assert (∀ acc : gset string,
    x ∈ foldl (λ preferredTags song,
                 foldl (λ acc tag, acc ∪ {[toLowerCase tag]}) preferredTags
                       (default [] (Song.tags song))) acc listened
    ↔ x ∈ acc ∨ ∃ played ts t, played ∈ listened ∧ Song.tags played = Some ts ∧
                               t ∈ ts ∧ x = toLowerCase t) as H.
  { induction listened as [|p l IH]; intros acc; simpl.
    - split; [by left|]. intros [?|(p & ? & ? & Hp & _)]; [done|].
      by apply elem_of_nil in Hp.
    - rewrite IH, elem_of_lowered_tags. split.
      + intros [[?|(t & Ht & ->)]|(p' & ts & t & Hp' & Hts & Ht & ->)]; [by left| |].
        * right. destruct (Song.tags p) as [ts|] eqn:E; simpl in Ht.
          -- exists p, ts, t. repeat split; [left|done..].
          -- by apply elem_of_nil in Ht.
        * right. exists p', ts, t. repeat split; [by right|done..].
      + intros [?|(p' & ts & t & Hp' & Hts & Ht & ->)]; [by left; left|].
        apply elem_of_cons in Hp' as [->|Hp'].
        * left. right. exists t. rewrite Hts. done.
        * right. by exists p', ts, t. }
  rewrite H. split; [|by right]. intros [Hx|?]; [|done]. by apply elem_of_empty in Hx.
Qed.


Lemma filter_fmap_norm (norm : string → string) (P Q : string → Prop)
    `{!∀ x, Decision (P x)} `{!∀ x, Decision (Q x)} (ts : list string) :
  (∀ t, Q t ↔ P (norm t)) →
  filter P (norm <$> ts) = norm <$> filter Q ts.
Proof.
  intros HPQ. induction ts as [|t ts IH]; [done|]. rewrite fmap_cons.
  destruct (decide (Q t)) as [Hq|Hq].
  - rewrite (filter_cons_True Q) by done.
    rewrite filter_cons_True by by apply HPQ. rewrite fmap_cons. by f_equal.
  - rewrite (filter_cons_False Q) by done.
    rewrite filter_cons_False; [done|]. by rewrite <-HPQ.
Qed.

Lemma counts_set_keys counts key value x :
  x ∈ (counts_set counts key value).*1 ↔ x = key ∨ x ∈ counts.*1.
Proof.
  induction counts as [|entry rest IH]; simpl.
  - rewrite list_elem_of_singleton. split; [by left|]. intros [?|H]; [done|].
    by apply elem_of_nil in H.
  - case_bool_decide as E; simpl; rewrite !elem_of_cons.
    + rewrite E. tauto.
    + rewrite IH. tauto.
Qed.

Lemma most_common_keys n counts x : x ∈ most_common n counts → x ∈ counts.*1.
Proof.
  unfold most_common, slice0. intros (e & -> & He)%list_elem_of_fmap.
  apply subseteq_take, elem_of_Array_sort in He. by apply list_elem_of_fmap_2.
Qed.

Lemma hist_commonTags_normalised topSongs x :
  x ∈ hist_commonTags topSongs →
  ∃ s ts t, s ∈ topSongs ∧ DatabaseSong.tags s = Some ts ∧ t ∈ ts ∧
            x = trim (toLowerCase t).
Proof.
  intros H%most_common_keys. revert H. unfold hist_tagCounts.
  assert (∀ (acc : list (string * Z)) ts,
    x ∈ (foldl (λ acc tag, counts_incr acc (trim (toLowerCase tag))) acc ts).*1 →
    x ∈ acc.*1 ∨ ∃ t, t ∈ ts ∧ x = trim (toLowerCase t)) as Hin.
  { intros acc ts. revert acc. induction ts as [|t ts IH]; intros acc; simpl; [by left|].
    intros [H|(t' & Ht' & ->)]%IH.
    - apply counts_set_keys in H as [->|H]; [|by left].
      right. exists t. split; [left|done].
    - right. exists t'. split; [by right|done]. }
  assert (∀ acc : list (string * Z),
    x ∈ (foldl (λ tagCounts song,
                  match DatabaseSong.tags song with
                  | Some ts =>
                      foldl (λ acc tag, counts_incr acc (trim (toLowerCase tag)))
                            tagCounts ts
                  | None => tagCounts
                  end) acc topSongs).*1 →
    x ∈ acc.*1 ∨ ∃ s ts t, s ∈ topSongs ∧ DatabaseSong.tags s = Some ts ∧ t ∈ ts ∧
                           x = trim (toLowerCase t)) as H.
  { induction topSongs as [|s l IH]; intros acc; simpl; [by left|].
    intros [H|(s' & ts & t & Hs' & Hts & Ht & ->)]%IH.
    - destruct (DatabaseSong.tags s) as [ts|] eqn:E; [|by left].
      apply Hin in H as [H|(t & Ht & ->)]; [by left|].
      right. exists s, ts, t. repeat split; [left|done..].
    - right. exists s', ts, t. repeat split; [by right|done..]. }
  intros [Hx|?]%H; [|done]. by apply elem_of_nil in Hx.
Qed.


(** C7, amended.  Session strategy: the preferred-tag set holds the
    lower-cased tags of the played songs, the matching tags of a candidate
    are its tags whose lower-cased form is in that set, so a candidate tag
    that differs from a played tag only in letter case matches.  History
    strategy: the common tags are lower-cased and trimmed tags of the
    history tracks, and the matching tags of a candidate are its tags whose
    lower-cased and trimmed form is a common tag.  Contextual strategy: the
    matching tags of a candidate are its tags that are equal, character for
    character, to a tag of the current track. *)
Theorem tag_matching :
  (∀ listened x,
     x ∈ smart_preferredTags listened
     ↔ ∃ played ts t, played ∈ listened ∧ Song.tags played = Some ts ∧
                      t ∈ ts ∧ x = toLowerCase t) ∧
  (∀ pT s ts,
     DatabaseSong.tags s = Some ts →
     smart_matchingTags pT s = toLowerCase <$> filter (λ t, toLowerCase t ∈ pT) ts) ∧
  (∀ listened played pts t s ts t',
     played ∈ listened → Song.tags played = Some pts → t ∈ pts →
     DatabaseSong.tags s = Some ts → t' ∈ ts →
     toLowerCase t' = toLowerCase t →
     toLowerCase t' ∈ smart_matchingTags (smart_preferredTags listened) s) ∧
  (∀ topSongs x,
     x ∈ hist_commonTags topSongs →
     ∃ s ts t, s ∈ topSongs ∧ DatabaseSong.tags s = Some ts ∧ t ∈ ts ∧
               x = trim (toLowerCase t)) ∧
  (∀ cT ts,
     hist_matchingTags cT ts
     = (λ t, trim (toLowerCase t)) <$> filter (λ t, trim (toLowerCase t) ∈ cT) ts) ∧
  (∀ cur s ts,
     DatabaseSong.tags s = Some ts →
     ctx_matchingTags cur s
     = match Song.tags cur with
       | Some cts => filter (λ t, t ∈ cts) ts
       | None => []
       end).
Proof.
  split; [apply elem_of_smart_preferredTags|].
  split; [|split; [|split; [apply hist_commonTags_normalised|split]]].
  - intros pT s ts Hts. unfold smart_matchingTags. rewrite Hts.
    by apply filter_fmap_norm.
  - intros listened played pts t s ts t' Hp Hpts Ht Hts Ht' E.
    unfold smart_matchingTags. rewrite Hts.
    apply list_elem_of_filter. split; [|by apply list_elem_of_fmap_2].
    apply elem_of_smart_preferredTags. by exists played, pts, t.
  - intros cT ts. unfold hist_matchingTags.
    apply filter_fmap_norm. intros t. unfold includes.
    by rewrite bool_decide_spec.
  - intros cur s ts Hts. unfold ctx_matchingTags, ctx_tagMatch. rewrite Hts.
    destruct (Song.tags cur) as [cts|].
    + apply list_filter_iff. intros t. unfold includes. by rewrite bool_decide_spec.
    + clear Hts. induction ts as [|t ts IH]; [done|].
      rewrite filter_cons_False; [apply IH|by intros []].
Qed.

(** *** The artist bonus *)








End Properties.

(** ** The statements on sample data *)

Lemma excluded_ids_absent_witness :
  getSmartPersonalizedSongs sample_ln sample_random (serve sample_db) "u"
    [convertDatabaseSong trackB false] {["1"%string]} ≠ [] ∧
  Forall (λ r, Song.id r ∉ ({["1"%string]} : gset string))
    (getSmartPersonalizedSongs sample_ln sample_random (serve sample_db) "u"
       [convertDatabaseSong trackB false] {["1"%string]}).
Proof.
  split.
  - vm_compute. discriminate.
  - apply (proj1 (excluded_ids_absent sample_ln sample_random)).
Defined.

Lemma ranker_output_witness :
  NoDup (Song.file_id <$> rank 2 sample_scored) ∧
  length (rank 2 sample_scored) ≤ 2 ∧
  rank 2 sample_scored = song <$> rankEntries 2 sample_scored ∧
  StronglySorted (λ a b, number_ge (score a) (score b)) (rankEntries 2 sample_scored) ∧
  rankEntries 2 sample_scored ⊆ sample_scored ∧
  (length sample_scored ≤ 2 →
   rank 2 sample_scored ≡ₚ song <$> sample_scored ∧
   length (rank 2 sample_scored) = length sample_scored).
Proof.
  apply (proj1 (ranker_output sample_ln sample_random) 2 sample_scored).
  - apply (bool_decide_unpack _). vm_compute. exact I.
  - repeat constructor; discriminate.
Defined.


Lemma trending_fallback_witness :
  fetchPersonalizedSongs sample_ln sample_random (serve sample_db) (Some "v"%string) []
  = flagged (Some (query_liked sample_db "v"))
      <$> take 20 (order_desc views_key (songs_table sample_db)).
Proof.
  apply (proj2 (trending_fallback sample_ln sample_random "v" []) sample_db).
  repeat constructor; discriminate.
Defined.


Lemma score_monotone_in_matches_witness :
  ¬ number_lt
      (ctx_score_net sample_ln (convertDatabaseSong trackA false) ∅ ∅
         (with_tags trackB (Some ["rock"; "pop"]%string)))
      (ctx_score_net sample_ln (convertDatabaseSong trackA false) ∅ ∅ trackB).
Proof.
  apply (proj1 (proj2 (score_monotone_in_matches sample_ln sample_random trackB
                         (Some ["rock"; "pop"]%string)))
           (convertDatabaseSong trackA false) ∅ ∅ 0).
  vm_compute. lia.
Defined.

Lemma tag_matching_witness :
  toLowerCase "rock" ∈
    smart_matchingTags (smart_preferredTags [convertDatabaseSong trackUpper false]) trackLower.
Proof.
  apply (proj1 (proj2 (proj2 (tag_matching)))
           [convertDatabaseSong trackUpper false] (convertDatabaseSong trackUpper false)
           ["Rock"%string] "Rock"%string trackLower ["rock"%string] "rock"%string).
  - left.
  - reflexivity.
  - left.
  - reflexivity.
  - left.
  - reflexivity.
Defined.


Lemma history_map_keeps_last_witness :
  historyMap_of (Some rows_distinct) !! 1%Z = Some 5%Q ∧
  (5 == spec_total_minutes rows_distinct 1)%Q.
Proof.
  assert (historyMap_of (Some rows_distinct) !! 1%Z = Some 5%Q) as E
    by (vm_compute; reflexivity).
  split; [exact E|].
  apply (proj2 (history_map_keeps_last rows_distinct 1)); [|exact E].
  apply (bool_decide_unpack _). vm_compute. exact I.
Defined.

Lemma scoring_total_witness :
  (sample_ln 1 == 0)%Q ∧
  smart_matchingTags ∅ trackBare = [] ∧
  number_eq (popularity sample_ln trackBare (Fin 0)) (Fin 0) ∧
  is_finite (smart_score sample_ln sample_random [] ∅ ∅ ∅ 0 trackBare) ∧
  is_finite (ctx_score sample_ln sample_random (convertDatabaseSong trackA false)
               ∅ ∅ 0 trackBare) ∧
  is_finite (hist_score sample_ln sample_random [] [] ∅ 0 trackBare).
Proof.
  destruct (scoring_total sample_ln sample_random trackBare) as (Htags & Hpop & Hfin).
  assert (counts_ok trackBare) as Hok by (split; exact I).
  split; [reflexivity|]. split; [apply Htags; reflexivity|].
  split; [apply Hpop; reflexivity|].
  split; [apply Hfin, Hok|]. split; apply Hfin, Hok.
Defined.


(** C7, as stated, fails: in the contextual strategy a candidate tag whose
    lower-cased form is the lower-cased tag of the current track does not
    match when the letter case differs; in the history strategy a candidate
    tag matches although its lower-cased form, with its surrounding space,
    is not a common tag. *)
Lemma contextual_tags_case_sensitive :
  toLowerCase "rock" = toLowerCase "Rock" ∧
  DatabaseSong.tags trackLower = Some ["rock"%string] ∧
  Song.tags (convertDatabaseSong trackQueen false) = Some ["Rock"%string] ∧
  ctx_matchingTags (convertDatabaseSong trackQueen false) trackLower = [] ∧
  (toLowerCase " rock" ∉ ["rock"%string]) ∧
  hist_matchingTags ["rock"%string] [" rock"%string] = ["rock"%string].
Proof.
  repeat split. intros H%list_elem_of_singleton. discriminate.
Qed.


(** C9, as stated, fails: two signals of 5 and 3 minutes for one track
    leave 3 in the map, not their sum 8. *)
Lemma history_map_overwrites :
  historyMap_of (Some rows_repeated) !! 1%Z = Some 3%Q ∧
  (spec_total_minutes rows_repeated 1 == 8)%Q ∧
  ¬ (3 == spec_total_minutes rows_repeated 1)%Q.
Proof. repeat split; by vm_compute. Qed.

Example toString_decimal :
  toString 42 = "42"%string ∧ toString (-7) = "-7"%string ∧ toString 0 = "0"%string.
Proof. repeat split. Qed.

Example trim_lower : trim (toLowerCase "  The Beatles ") = "the beatles"%string.
Proof. reflexivity. Qed.

(** The scenario of the specification: catalog A, B, C, history "A: 5
    minutes", contextual call on B without exclusions.  A comes before C. *)
Example scenario_contextual :
  Song.id <$> getPersonalizedSongs sample_ln sample_random (serve sample_db) "u"
                (convertDatabaseSong trackB false) None
  = ["1"; "3"]%string.
Proof. by vm_compute. Qed.

(** Empty session: the session strategy returns nothing; listener without
    history: the history strategy returns the trending list, most viewed
    first, with the listener's liked flags. *)
Example scenario_empty :
  getSmartPersonalizedSongs sample_ln sample_random (serve sample_db) "v" [] ∅ = [] ∧
  (λ r, (Song.id r, Song.isLiked r))
    <$> fetchPersonalizedSongs sample_ln sample_random (serve sample_db)
          (Some "v"%string) []
  = [("1", false); ("2", true); ("3", false)]%string.
Proof. split; by vm_compute. Qed.

(** With no history and a trending read that returns no data, the run ends
    without [setPersonalizedSongs]: the list of the previous run stays. *)
Example trending_failure_keeps_state :
  fetchPersonalizedSongs sample_ln sample_random trending_down (Some "u"%string)
    [convertDatabaseSong trackA false]
  = [convertDatabaseSong trackA false].
Proof. reflexivity. Qed.

(** The common tags are ranked by frequency, ties in order of first
    appearance. *)
Example common_tags_by_frequency :
  hist_commonTags [trackA; trackB; trackC] = ["rock"; "pop"; "jazz"]%string ∧
  hist_commonArtists [trackUpper; trackLower; trackQueen; trackQueen]
  = ["queen"]%string.
Proof. split; by vm_compute. Qed.

(** The sort is stable: entries with equal scores keep their order. *)
Example sort_is_stable :
  Song.id <$> rank 3
    [ {| song := convertDatabaseSong trackA false; score := Fin 5 |};
      {| song := convertDatabaseSong trackB false; score := Fin 7 |};
      {| song := convertDatabaseSong trackC false; score := Fin 5 |} ]
  = ["2"; "1"; "3"]%string.
Proof. by vm_compute. Qed.

(** * Further properties

    ** What the strategies return *)

Section Ranking.
Variable ln_approx : Q → Q.
Variable Math_random : nat → Q.

Local Abbreviation getSmartPersonalizedSongs := (getSmartPersonalizedSongs ln_approx Math_random).
Local Abbreviation getPersonalizedSongs := (getPersonalizedSongs ln_approx Math_random).
Local Abbreviation fetchPersonalizedSongs := (fetchPersonalizedSongs ln_approx Math_random).

Lemma served_from_flags catalog likedData r :
  served_from catalog likedData r →
  Song.id r = toString (Song.file_id r) ∧
  (Song.isLiked r = true ↔ Song.file_id r ∈ likedSet likedData) ∧
  ∃ s, s ∈ catalog ∧ Song.file_id r = DatabaseSong.file_id s ∧
       Song.name r = DatabaseSong.name s ∧ Song.artist r = DatabaseSong.artist s.
Proof.
  intros (s & Hs & ->). unfold flagged. simpl. split; [done|]. split.
  - apply bool_decide_eq_true.
  - by exists s.
Qed.

Lemma smart_served sb uid listened exclude :
  Forall (served_from (smart_available exclude (catalog_of (select_songs sb)))
            (answer_data (select_liked sb uid)))
         (getSmartPersonalizedSongs sb uid listened exclude).
Proof.
  unfold getSmartPersonalizedSongs, getSmartPersonalizedSongs_try, catalog_of.
  destruct (decide (length listened = 0)); [constructor|].
  destruct (select_songs sb) as [rs|]; simpl; [|constructor].
  destruct (error rs); [constructor|].
  destruct (data rs) as [songsData|]; [|constructor].
  destruct (decide (length songsData = 0)); [constructor|].
  destruct (select_liked sb uid) as [rl|]; simpl; [|constructor].
  destruct (decide _); [constructor|]. simpl.
  apply Forall_forall. intros r Hr%elem_of_rank.
  rewrite smart_scored_songs in Hr.
  apply list_elem_of_fmap in Hr as (s & -> & Hs). by exists s.
Qed.

Lemma ctx_served sb uid cur listened :
  Forall (served_from (ctx_available cur listened (catalog_of (select_songs sb)))
            (answer_data (select_liked sb uid)))
         (getPersonalizedSongs sb uid cur listened).
Proof.
  unfold getPersonalizedSongs, getPersonalizedSongs_try, catalog_of.
  destruct (select_songs sb) as [rs|]; simpl; [|constructor].
  destruct (error rs); [constructor|].
  destruct (data rs) as [songsData|]; [|constructor].
  destruct (decide (length songsData = 0)); [constructor|].
  destruct (select_history sb uid) as [rh|]; simpl; [|constructor].
  destruct (select_liked sb uid) as [rl|]; simpl; [|constructor].
  destruct (decide _); [constructor|]. simpl.
  apply Forall_forall. intros r Hr%elem_of_rank.
  rewrite ctx_scored_songs in Hr.
  apply list_elem_of_fmap in Hr as (s & -> & Hs). by exists s.
Qed.

Lemma hist_personalize_served sb uid historyData l :
  hist_personalize ln_approx Math_random sb uid historyData = Val (Some l) →
  Forall (served_from (catalog_of (select_songs sb)) (answer_data (select_liked sb uid))) l.
Proof.
  unfold hist_personalize, catalog_of.
  destruct (select_songs sb) as [rs|]; simpl; [|done].
  destruct (error rs); [intros [= <-]; constructor|].
  destruct (data rs) as [allSongs|]; [|intros [= <-]; constructor].
  destruct (decide (length allSongs = 0)); [intros [= <-]; constructor|].
  destruct (select_liked sb uid) as [rl|]; simpl; [|done].
  destruct (decide _); [intros [= <-]; constructor|]. intros [= <-].
  apply Forall_forall. intros r Hr%elem_of_rank.
  rewrite hist_scored_songs in Hr.
  apply list_elem_of_fmap in Hr as (s & -> & Hs).
  unfold hist_available in Hs. apply list_elem_of_filter in Hs as [_ Hs].
  by exists s.
Qed.

Lemma hist_trending_served sb uid l :
  hist_trending sb uid = Val (Some l) →
  Forall (served_from (catalog_of (select_trending sb))
            (answer_data (select_liked sb uid))) l.
Proof.
  unfold hist_trending, catalog_of.
  destruct (select_trending sb) as [rt|]; simpl; [|done].
  destruct (data rt) as [T|]; [|done].
  destruct (select_liked sb uid) as [rl|]; simpl; [|done].
  intros [= <-]. apply Forall_forall.
  intros r (s & -> & Hs)%list_elem_of_fmap. by exists s.
Qed.

Lemma hist_served sb uid prev :
  let P := served_from (catalog_of (select_songs sb) ++ catalog_of (select_trending sb))
             (answer_data (select_liked sb uid)) in
  Forall P prev → Forall P (fetchPersonalizedSongs sb (Some uid) prev).
Proof.
  intros P Hprev.
  assert (∀ c l, (∀ s, s ∈ c → s ∈ catalog_of (select_songs sb)
                                   ++ catalog_of (select_trending sb)) →
                 Forall (served_from c (answer_data (select_liked sb uid))) l →
                 Forall P l) as Hweak.
  { intros c l Hc Hl. eapply Forall_impl; [exact Hl|].
    intros r (s & Hs & ->). exists s. split; [by apply Hc|done]. }
  unfold fetchPersonalizedSongs, fetchPersonalizedSongs_try.
  destruct (select_top_history sb uid) as [rh|]; simpl; [|constructor].
  destruct (error rh); [constructor|].
  assert (∀ body, (∀ l, body = Val (Some l) → Forall P l) →
                  Forall P (default prev (try_catch body (λ _, Some [])))) as Hbody.
  { intros [[l|]|] Hb; simpl; [by apply Hb|done|constructor]. }
  assert (∀ l, hist_trending sb uid = Val (Some l) → Forall P l) as Htr.
  { intros l Hl%hist_trending_served. eapply Hweak; [|exact Hl].
    intros s Hs. apply elem_of_app. by right. }
  destruct (data rh) as [historyData|]; [|by apply Hbody].
  destruct (decide (length historyData = 0)); [by apply Hbody|].
  apply Hbody. intros l Hl%hist_personalize_served.
  eapply Hweak; [|exact Hl]. intros s Hs. apply elem_of_app. by left.
Qed.

(** X1.  Every song a strategy returns is the conversion of a catalog row
    that passed the strategy's filter, carrying the liked flag computed
    from the liked-songs answer: its string id is derived from its
    [file_id] and it is flagged exactly when its [file_id] is in the liked
    set.  For the history strategy this is an invariant of the
    personalized list, over the rows of the catalog and trending reads. *)
Theorem strategies_serve_catalog_rows sb uid :
  (∀ listened exclude,
     Forall (served_from (smart_available exclude (catalog_of (select_songs sb)))
               (answer_data (select_liked sb uid)))
            (getSmartPersonalizedSongs sb uid listened exclude)) ∧
  (∀ cur listened,
     Forall (served_from (ctx_available cur listened (catalog_of (select_songs sb)))
               (answer_data (select_liked sb uid)))
            (getPersonalizedSongs sb uid cur listened)) ∧
  (∀ prev,
     let P := served_from (catalog_of (select_songs sb) ++ catalog_of (select_trending sb))
                (answer_data (select_liked sb uid)) in
     Forall P prev → Forall P (fetchPersonalizedSongs sb (Some uid) prev)) ∧
  (∀ catalog likedData r,
     served_from catalog likedData r →
     Song.id r = toString (Song.file_id r) ∧
     (Song.isLiked r = true ↔ Song.file_id r ∈ likedSet likedData) ∧
     ∃ s, s ∈ catalog ∧ Song.file_id r = DatabaseSong.file_id s ∧
          Song.name r = DatabaseSong.name s ∧ Song.artist r = DatabaseSong.artist s).
Proof.
  split; [|split; [|split]].
  - apply smart_served.
  - apply ctx_served.
  - apply hist_served.
  - apply served_from_flags.
Qed.

Lemma answered_data {A} (p : Awaited A) rows : answered p rows → answer_data p = Some rows.
Proof. by intros (r & -> & _ & ?). Qed.

(** X2.  When no more candidates are left after filtering than the
    strategy returns at most (15, 10, 30), and the reads succeed, the
    strategy returns every candidate, converted and flagged, in some
    order: nothing is dropped. *)
Theorem few_candidates_all_returned sb uid :
  (∀ listened exclude songsData,
     listened ≠ [] → answered (select_songs sb) songsData →
     ¬ rejected (select_liked sb uid) →
     length (smart_available exclude songsData) ≤ 15 →
     getSmartPersonalizedSongs sb uid listened exclude
     ≡ₚ flagged (answer_data (select_liked sb uid)) <$> smart_available exclude songsData) ∧
  (∀ cur listened songsData,
     answered (select_songs sb) songsData →
     ¬ rejected (select_history sb uid) → ¬ rejected (select_liked sb uid) →
     length (ctx_available cur listened songsData) ≤ 10 →
     getPersonalizedSongs sb uid cur listened
     ≡ₚ flagged (answer_data (select_liked sb uid))
          <$> ctx_available cur listened songsData) ∧
  (∀ prev historyData allSongs,
     answered (select_top_history sb uid) historyData → historyData ≠ [] →
     answered (select_songs sb) allSongs →
     ¬ rejected (select_liked sb uid) →
     length (hist_available (hist_historySongIds (hist_topSongs historyData)) allSongs)
       ≤ 30 →
     fetchPersonalizedSongs sb (Some uid) prev
     ≡ₚ flagged (answer_data (select_liked sb uid))
          <$> hist_available (hist_historySongIds (hist_topSongs historyData)) allSongs).
Proof.
  split; [|split].
  - intros listened exclude songsData Hl (rs & Hs & He & Hd) Hliked Hlen.
    unfold getSmartPersonalizedSongs, getSmartPersonalizedSongs_try.
    destruct (decide (length listened = 0)) as [E|_].
    { by apply nil_length_inv in E. }
    rewrite Hs. simpl. rewrite He, Hd.
    destruct (select_liked sb uid) as [rl|]; simpl in *; [|done].
    destruct (decide (length songsData = 0)) as [E|_].
    { apply nil_length_inv in E. by subst. }
    destruct (decide _) as [E|_].
    { apply nil_length_inv in E. by rewrite E. }
    simpl. rewrite rank_all by (unfold smart_scored; by rewrite length_imap).
    by rewrite smart_scored_songs.
  - intros cur listened songsData (rs & Hs & He & Hd) Hhist Hliked Hlen.
    unfold getPersonalizedSongs, getPersonalizedSongs_try.
    rewrite Hs. simpl. rewrite He, Hd.
    destruct (select_history sb uid) as [rh|]; simpl in *; [|done].
    destruct (select_liked sb uid) as [rl|]; simpl in *; [|done].
    destruct (decide (length songsData = 0)) as [E|_].
    { apply nil_length_inv in E. by subst. }
    destruct (decide _) as [E|_].
    { apply nil_length_inv in E. by rewrite E. }
    simpl. rewrite rank_all by (unfold ctx_scored; by rewrite length_imap).
    by rewrite ctx_scored_songs.
  - intros prev historyData allSongs (rh & Hh & Heh & Hdh) Hne (rs & Hs & He & Hd)
      Hliked Hlen.
    unfold fetchPersonalizedSongs, fetchPersonalizedSongs_try.
    rewrite Hh. simpl. rewrite Heh, Hdh.
    destruct (decide (length historyData = 0)) as [E|_].
    { by apply nil_length_inv in E. }
    unfold hist_personalize. rewrite Hs. simpl. rewrite He, Hd.
    destruct (select_liked sb uid) as [rl|]; simpl in *; [|done].
    destruct (decide (length allSongs = 0)) as [E|_].
    { apply nil_length_inv in E. by subst. }
    destruct (decide _) as [E|_].
    { apply nil_length_inv in E. by rewrite E. }
    simpl. rewrite rank_all by (unfold hist_scored; by rewrite length_imap).
    by rewrite hist_scored_songs.
Qed.

(** ** Jitter, popularity and the remaining bonuses *)









Lemma grows_nadd_le a a' x y :
  grows a a' → (x <= y)%Q → grows (a +' Fin x) (a' +' Fin y).
Proof. destruct a, a'; simpl; try done. intros. lra. Qed.

Lemma log_count_le (c c' : option Z) (w : Q) :
  (∀ x y, 0 < x → x <= y → ln_approx x <= ln_approx y)%Q →
  (0 <= w)%Q →
  count_ok c → count_ok c' → (or_zero c ≤ or_zero c')%Z →
  ∃ x y, Math_log ln_approx (Fin (inject_Z (1 + or_zero c))) *' Fin w = Fin x ∧
         Math_log ln_approx (Fin (inject_Z (1 + or_zero c'))) *' Fin w = Fin y ∧
         (x <= y)%Q.
Proof.
  intros Hmono Hw Hc Hc' Hle.
  assert (∀ c, count_ok c → (0 ≤ or_zero c)%Z) as Hnn.
  { intros [z|] H; simpl in *; [|lia]. destruct (z =? 0)%Z; lia. }
  assert (∀ z, (0 ≤ z)%Z → 0 < inject_Z (1 + z))%Q as Hpos.
  { intros z Hz. replace 0%Q with (inject_Z 0) by done. rewrite <-Zlt_Qlt. lia. }
  pose proof (Hpos _ (Hnn _ Hc)) as H1. pose proof (Hpos _ (Hnn _ Hc')) as H2.
  unfold Math_log.
  rewrite (proj1 (Qgt_alt _ _) H1), (proj1 (Qgt_alt _ _) H2). simpl.
  eexists _, _. split; [done|]. split; [done|].
  assert (inject_Z (1 + or_zero c) <= inject_Z (1 + or_zero c'))%Q as Harg.
  { rewrite <-Zle_Qle. lia. }
  pose proof (Hmono _ _ H1 Harg). nra.
Qed.

Lemma popularity_grows s v l v' l' a a' :
  (∀ x y, 0 < x → x <= y → ln_approx x <= ln_approx y)%Q →
  count_ok v → count_ok l → count_ok v' → count_ok l' →
  (or_zero v ≤ or_zero v')%Z → (or_zero l ≤ or_zero l')%Z →
  grows a a' →
  grows (popularity ln_approx (with_counts s v l) a)
        (popularity ln_approx (with_counts s v' l') a').
Proof.
  intros Hmono Hv Hl Hv' Hl' Hvle Hlle Ha. unfold popularity, with_counts.
  cbn [DatabaseSong.likes DatabaseSong.views].
  destruct (log_count_le l l' 2 Hmono ltac:(lra) Hl Hl' Hlle) as (x & y & -> & -> & Hxy).
  destruct (log_count_le v v' 1 Hmono ltac:(lra) Hv Hv' Hvle) as (x' & y' & -> & -> & Hxy').
  apply grows_nadd_le; [apply grows_nadd_le|]; done.
Qed.

(** X4.  If [Math.log] is monotone on positive arguments, then raising a
    candidate's like or view count (null counting as 0), everything else
    being the same, never lowers its score before jitter, in any of the
    three strategies. *)
Theorem score_monotone_in_popularity (s : DatabaseSong.t) (v l v' l' : option Z) :
  (∀ x y, 0 < x → x <= y → ln_approx x <= ln_approx y)%Q →
  count_ok v → count_ok l → count_ok v' → count_ok l' →
  (or_zero v ≤ or_zero v')%Z → (or_zero l ≤ or_zero l')%Z →
  (∀ listened pT pA liked,
     ¬ number_lt (smart_score_net ln_approx listened pT pA liked (with_counts s v' l'))
                 (smart_score_net ln_approx listened pT pA liked (with_counts s v l))) ∧
  (∀ cur hm liked,
     ¬ number_lt (ctx_score_net ln_approx cur hm liked (with_counts s v' l'))
                 (ctx_score_net ln_approx cur hm liked (with_counts s v l))) ∧
  (∀ cT cA liked,
     ¬ number_lt (hist_score_net ln_approx cT cA liked (with_counts s v' l'))
                 (hist_score_net ln_approx cT cA liked (with_counts s v l))).
Proof.
  intros Hmono Hv Hl Hv' Hl' Hvle Hlle.
  split; [|split]; intros; apply grows_not_lt.
  - unfold smart_score_net. apply grows_bonus, popularity_grows; auto.
    apply grows_refl.
  - unfold ctx_score_net. apply grows_bonus, popularity_grows; auto.
    apply grows_refl.
  - unfold hist_score_net. apply popularity_grows; auto. apply grows_refl.
Qed.



(** ** The common tags and artists of the history strategy *)

Lemma counts_get_set counts key value x :
  counts_get (counts_set counts key value) x
  = if decide (x = key) then Some value else counts_get counts x.
Proof.
  unfold counts_get. induction counts as [|[k v] rest IH]; simpl.
  - repeat case_bool_decide; repeat case_decide; simpl; congruence.
  - case_bool_decide as E; simpl in *.
    + subst k. repeat case_bool_decide; repeat case_decide; simpl; congruence.
    + case_bool_decide as E'; simpl.
      * subst k. case_decide; [congruence|done].
      * apply IH.
Qed.

Lemma counts_set_NoDup counts key value :
  NoDup counts.*1 → NoDup (counts_set counts key value).*1.
Proof.
  induction counts as [|[k v] rest IH]; simpl.
  - intros _. apply NoDup_singleton.
  - intros [Hk Hnd]%NoDup_cons. case_bool_decide as E; simpl in *.
    + subst k. by apply NoDup_cons.
    + apply NoDup_cons. split; [|by apply IH].
      intros [->|H]%counts_set_keys; [done|by apply Hk].
Qed.

Lemma occurrences_nonneg x l : (0 ≤ occurrences x l)%Z.
Proof. unfold occurrences. lia. Qed.

Lemma occurrences_snoc x l k :
  occurrences x (l ++ [k]) = (occurrences x l + if decide (x = k) then 1 else 0)%Z.
Proof.
  unfold occurrences. rewrite filter_app, length_app.
  case_decide as E.
  - rewrite filter_cons_True by done. simpl. lia.
  - rewrite filter_cons_False by congruence. simpl. lia.
Qed.

Lemma occurrences_pos x l : x ∈ l ↔ (0 < occurrences x l)%Z.
Proof.
  unfold occurrences. split.
  - intros H. assert (x ∈ filter (λ y, y = x) l) as Hf by by apply list_elem_of_filter.
    destruct (filter _ l); [by apply elem_of_nil in Hf|simpl; lia].
  - intros H. destruct (filter (λ y, y = x) l) as [|y l'] eqn:E; [simpl in H; lia|].
    assert (y ∈ filter (λ y, y = x) l) as [-> Hy]%list_elem_of_filter by (rewrite E; left).
    done.
Qed.

Lemma counts_of_incr counts seen key :
  counts_of counts seen → counts_of (counts_incr counts key) (seen ++ [key]).
Proof.
  intros [Hnd Hget]. split; [by apply counts_set_NoDup|].
  intros x. unfold counts_incr. rewrite counts_get_set, occurrences_snoc.
  pose proof (occurrences_nonneg x seen) as Hx.
  case_decide as E.
  - subst x. rewrite Hget. unfold count_entry.
    destruct (occurrences key seen =? 0)%Z eqn:E0.
    + apply Z.eqb_eq in E0. rewrite E0. done.
    + apply Z.eqb_neq in E0. simpl.
      destruct (occurrences key seen =? 0)%Z eqn:E1; [by apply Z.eqb_eq in E1|].
      destruct (occurrences key seen + 1 =? 0)%Z eqn:E2; [apply Z.eqb_eq in E2; lia|done].
  - rewrite Hget. by rewrite Z.add_0_r.
Qed.

Lemma counts_of_foldl (norm : string → string) counts seen keys :
  counts_of counts seen →
  counts_of (foldl (λ acc key, counts_incr acc (norm key)) counts keys)
            (seen ++ (norm <$> keys)).
Proof.
  revert counts seen. induction keys as [|k keys IH]; intros counts seen H; simpl.
  - by rewrite app_nil_r.
  - rewrite (cons_middle (norm k)), app_assoc. apply IH. by apply counts_of_incr.
Qed.

Lemma counts_of_nil : counts_of [] [].
Proof. split; [constructor|done]. Qed.

Lemma hist_tagCounts_counts topSongs :
  counts_of (hist_tagCounts topSongs) (history_tags topSongs).
Proof.
  unfold hist_tagCounts, history_tags.
  assert (∀ counts seen, counts_of counts seen →
    counts_of
      (foldl (λ tagCounts song,
                match DatabaseSong.tags song with
                | Some ts =>
                    foldl (λ acc tag, counts_incr acc (trim (toLowerCase tag)))
                          tagCounts ts
                | None => tagCounts
                end) counts topSongs)
      (seen ++ (topSongs ≫= λ s, (λ tag, trim (toLowerCase tag))
                                    <$> default [] (DatabaseSong.tags s)))) as H.
  { induction topSongs as [|s l IH]; intros counts seen Hc; simpl.
    - by rewrite app_nil_r.
    - rewrite app_assoc. apply IH.
      destruct (DatabaseSong.tags s) as [ts|]; simpl.
      + by apply (counts_of_foldl (λ tag, trim (toLowerCase tag))).
      + by rewrite app_nil_r. }
  apply (H [] []), counts_of_nil.
Qed.

Lemma hist_artistCounts_counts topSongs :
  counts_of (hist_artistCounts topSongs) (history_artists topSongs).
Proof.
  unfold hist_artistCounts, history_artists.
  assert (∀ counts seen, counts_of counts seen →
    counts_of
      (foldl (λ artistCounts song,
                counts_incr artistCounts (trim (toLowerCase (DatabaseSong.artist song))))
             counts topSongs)
      (seen ++ ((λ s, trim (toLowerCase (DatabaseSong.artist s))) <$> topSongs))) as H.
  { induction topSongs as [|s l IH]; intros counts seen Hc; simpl.
    - by rewrite app_nil_r.
    - rewrite (cons_middle (trim _)), app_assoc. apply IH. by apply counts_of_incr. }
  apply (H [] []), counts_of_nil.
Qed.

Lemma counts_get_elem counts x n :
  NoDup counts.*1 → (x, n) ∈ counts → counts_get counts x = Some n.
Proof.
  unfold counts_get. induction counts as [|[k v] rest IH]; simpl.
  - intros _ H. by apply elem_of_nil in H.
  - intros [Hk Hnd]%NoDup_cons [[= -> ->]|Hin]%elem_of_cons.
    + by rewrite bool_decide_eq_true_2.
    + case_bool_decide as E; [|by apply IH]. simpl in E. subst k.
      exfalso. apply Hk. by apply (list_elem_of_fmap_2 fst) in Hin.
Qed.

Lemma counts_get_keys counts x : x ∈ counts.*1 ↔ is_Some (counts_get counts x).
Proof.
  unfold counts_get. induction counts as [|[k v] rest IH]; simpl.
  - split; [by intros ?%elem_of_nil|by intros [? [=]]].
  - rewrite elem_of_cons. case_bool_decide as E; simpl in *.
    + subst k. split; [by eexists|by left].
    + rewrite IH. split; [by intros [?|?]|by right].
Qed.

Lemma by_count_sorted counts :
  StronglySorted (λ a b : string * Z, (b.2 ≤ a.2)%Z) (Array_sort by_count_desc counts).
Proof.
  apply Array_sort_sorted with (P := λ _, True); [| | |by apply Forall_true].
  - intros a b _ _. unfold by_count_desc, nsub. simpl.
    intros H%negb_false_iff%Qle_bool_iff.
    rewrite Zle_Qle. lra.
  - intros a b _ _. unfold by_count_desc, nsub. simpl.
    intros H%negb_true_iff.
    destruct (Z_le_gt_dec b.2 a.2) as [Hle|Hgt]; [|lia].
    assert (Qle_bool (inject_Z b.2 + - inject_Z a.2) 0 = true) as E.
    { apply Qle_bool_iff. rewrite Zle_Qle in Hle. lra. }
    congruence.
  - intros a b c _ _ _ H1 H2. lia.
Qed.

Lemma most_common_NoDup n counts : NoDup counts.*1 → NoDup (most_common n counts).
Proof.
  intros H. unfold most_common, slice0.
  eapply sublist_NoDup; [|apply fmap_sublist, sublist_take].
  by rewrite Array_sort_Permutation.
Qed.

Lemma length_most_common n counts :
  length (most_common n counts) = min n (length counts).
Proof.
  unfold most_common, slice0. by rewrite length_fmap, length_take, length_Array_sort.
Qed.

Lemma most_common_all n counts x :
  length counts ≤ n → x ∈ counts.*1 → x ∈ most_common n counts.
Proof.
  intros Hlen Hx. unfold most_common, slice0.
  rewrite take_ge by by rewrite length_Array_sort.
  by rewrite Array_sort_Permutation.
Qed.

Lemma most_common_dominates n counts x y cx cy :
  NoDup counts.*1 →
  x ∈ most_common n counts → y ∉ most_common n counts →
  counts_get counts x = Some cx → counts_get counts y = Some cy →
  (cy ≤ cx)%Z.
Proof.
  intros Hnd Hx Hy Hcx Hcy.
  pose proof (by_count_sorted counts) as Hsorted.
  pose proof (Array_sort_Permutation by_count_desc counts) as Hperm.
  set (sorted := Array_sort by_count_desc counts) in *.
  assert (NoDup sorted.*1) as Hnd' by by rewrite Hperm.
  unfold most_common, slice0 in Hx, Hy. fold sorted in Hx, Hy.
  apply list_elem_of_fmap in Hx as ([x' vx] & -> & Hx). simpl in *.
  assert ((x', vx) ∈ counts) as Hxin.
  { rewrite <-Hperm. by eapply subseteq_take. }
  rewrite (counts_get_elem _ _ _ Hnd Hxin) in Hcx. injection Hcx as ->.
  assert (is_Some (counts_get counts y)) as Hyk%counts_get_keys by by eexists.
  apply list_elem_of_fmap in Hyk as ([y' vy] & -> & Hyin). simpl in *.
  rewrite (counts_get_elem _ _ _ Hnd Hyin) in Hcy. injection Hcy as ->.
  assert ((y', cy) ∈ drop n sorted) as Hyd.
  { rewrite <-Hperm, <-(take_drop n sorted) in Hyin.
    apply elem_of_app in Hyin as [Hyt|?]; [|done].
    exfalso. apply Hy. by apply (list_elem_of_fmap_2 fst) in Hyt. }
  rewrite <-(take_drop n sorted) in Hsorted.
  by apply (StronglySorted_app_1_elem_of _ _ _ (x', cx) (y', cy)) in Hsorted.
Qed.

Lemma counts_of_keys counts seen x : counts_of counts seen → x ∈ counts.*1 ↔ x ∈ seen.
Proof.
  intros [_ Hget]. rewrite counts_get_keys, Hget, occurrences_pos.
  unfold count_entry. pose proof (occurrences_nonneg x seen).
  destruct (occurrences x seen =? 0)%Z eqn:E.
  - apply Z.eqb_eq in E. split; [by intros [? [=]]|lia].
  - apply Z.eqb_neq in E. split; [lia|by eexists].
Qed.

Lemma counts_of_dominates n counts seen x y :
  counts_of counts seen →
  x ∈ most_common n counts → y ∈ seen → y ∉ most_common n counts →
  (occurrences y seen ≤ occurrences x seen)%Z.
Proof.
  intros Hc Hx Hy Hny.
  assert (x ∈ seen) as Hxs.
  { apply (counts_of_keys _ _ _ Hc). by apply most_common_keys in Hx. }
  destruct Hc as [Hnd Hget].
  apply occurrences_pos in Hxs, Hy.
  eapply (most_common_dominates n counts x y); eauto.
  - rewrite Hget. unfold count_entry.
    destruct (occurrences x seen =? 0)%Z eqn:E; [apply Z.eqb_eq in E; lia|done].
  - rewrite Hget. unfold count_entry.
    destruct (occurrences y seen =? 0)%Z eqn:E; [apply Z.eqb_eq in E; lia|done].
Qed.

(** X6.  The history strategy keeps at most 5 common tags and 3 common
    artists, all distinct, each the normalised tag or artist of a history
    track; when the history tracks have no more than 5 distinct normalised
    tags (3 artists), all of them are kept. *)
Theorem common_tags_bounded (topSongs : list DatabaseSong.t) :
  (length (hist_commonTags topSongs) ≤ 5 ∧ NoDup (hist_commonTags topSongs) ∧
   (∀ x, x ∈ hist_commonTags topSongs → x ∈ history_tags topSongs) ∧
   (length (hist_tagCounts topSongs) ≤ 5 →
    ∀ x, x ∈ history_tags topSongs → x ∈ hist_commonTags topSongs)) ∧
  (length (hist_commonArtists topSongs) ≤ 3 ∧ NoDup (hist_commonArtists topSongs) ∧
   (∀ x, x ∈ hist_commonArtists topSongs → x ∈ history_artists topSongs) ∧
   (length (hist_artistCounts topSongs) ≤ 3 →
    ∀ x, x ∈ history_artists topSongs → x ∈ hist_commonArtists topSongs)).
Proof.
  pose proof (hist_tagCounts_counts topSongs) as Ht.
  pose proof (hist_artistCounts_counts topSongs) as Ha.
  unfold hist_commonTags, hist_commonArtists. split.
  - split; [rewrite length_most_common; lia|].
    split; [apply most_common_NoDup, Ht|]. split.
    + intros x Hx%most_common_keys. by apply (counts_of_keys _ _ _ Ht).
    + intros Hlen x Hx. apply most_common_all; [done|].
      by apply (counts_of_keys _ _ _ Ht).
  - split; [rewrite length_most_common; lia|].
    split; [apply most_common_NoDup, Ha|]. split.
    + intros x Hx%most_common_keys. by apply (counts_of_keys _ _ _ Ha).
    + intros Hlen x Hx. apply most_common_all; [done|].
      by apply (counts_of_keys _ _ _ Ha).
Qed.

(** X7.  The count maps of the history strategy hold, for each normalised
    tag (artist), the number of its occurrences among the tags (artists)
    of the history tracks, and no entry for a string that does not occur;
    no key is held twice. *)
Theorem tag_counts_are_occurrences (topSongs : list DatabaseSong.t) (x : string) :
  counts_get (hist_tagCounts topSongs) x
  = count_entry (occurrences x (history_tags topSongs)) ∧
  counts_get (hist_artistCounts topSongs) x
  = count_entry (occurrences x (history_artists topSongs)) ∧
  NoDup (hist_tagCounts topSongs).*1 ∧ NoDup (hist_artistCounts topSongs).*1.
Proof.
  destruct (hist_tagCounts_counts topSongs) as [Hnt Ht].
  destruct (hist_artistCounts_counts topSongs) as [Hna Ha].
  by rewrite Ht, Ha.
Qed.

(** X8.  The common tags are the most frequent ones: a tag of the history
    tracks that is left out occurs no more often than any common tag; the
    same holds for the artists. *)
Theorem common_tags_most_frequent (topSongs : list DatabaseSong.t) (x y : string) :
  (x ∈ hist_commonTags topSongs → y ∈ history_tags topSongs →
   y ∉ hist_commonTags topSongs →
   (occurrences y (history_tags topSongs) ≤ occurrences x (history_tags topSongs))%Z) ∧
  (x ∈ hist_commonArtists topSongs → y ∈ history_artists topSongs →
   y ∉ hist_commonArtists topSongs →
   (occurrences y (history_artists topSongs)
    ≤ occurrences x (history_artists topSongs))%Z).
Proof.
  split.
  - apply counts_of_dominates, hist_tagCounts_counts.
  - apply counts_of_dominates, hist_artistCounts_counts.
Qed.

End Ranking.

(** ** Identifiers: [parseInt] after [toString] *)

Lemma parse_digits_acc (d : Decimal.uint) (acc : positive) :
  parse_digits digit_of 10 (DecimalString.NilEmpty.string_of_uint d) (Some (Z.pos acc))
  = Some (Z.pos (Pos.of_uint_acc d acc)).
Proof.
  revert acc. induction d as [|d IH|d IH|d IH|d IH|d IH|d IH|d IH|d IH|d IH|d IH];
    intros acc; [done|..];
    cbn [DecimalString.NilEmpty.string_of_uint parse_digits Pos.of_uint_acc];
    match goal with
    | |- context [digit_of ?c] =>
        let v := eval vm_compute in (digit_of c) in change (digit_of c) with v
    end;
    cbn [default from_option id]; rewrite <-IH; f_equal; f_equal; lia.
Qed.

Lemma parse_digits_zero (d : Decimal.uint) :
  parse_digits digit_of 10 (DecimalString.NilEmpty.string_of_uint d) (Some 0%Z)
  = Some (Z.of_N (Pos.of_uint d)).
Proof.
  induction d as [|d IH|d IH|d IH|d IH|d IH|d IH|d IH|d IH|d IH|d IH];
    [done|exact IH|..];
    cbn [DecimalString.NilEmpty.string_of_uint parse_digits Pos.of_uint];
    match goal with
    | |- context [digit_of ?c] =>
        let v := eval vm_compute in (digit_of c) in change (digit_of c) with v
    end;
    cbn [default from_option id Z.mul Z.add Z.of_N]; apply parse_digits_acc.
Qed.

Lemma parseInt_digits (sign : Z) (prefix : string) (d : Decimal.uint) :
  d ≠ Decimal.Nil →
  (prefix = EmptyString ∧ sign = 1%Z) ∨ (prefix = "-"%string ∧ sign = (-1)%Z) →
  parseInt (prefix ++ DecimalString.NilEmpty.string_of_uint d)
  = Some (sign * Z.of_N (Pos.of_uint d))%Z.
Proof.
  intros Hd Hsign.
  assert (parseInt (prefix ++ DecimalString.NilEmpty.string_of_uint d)
          = (λ v, sign * v)%Z
              <$> parse_digits digit_of 10 (DecimalString.NilEmpty.string_of_uint d)
                    (Some 0%Z)) as ->.
  { destruct Hsign as [[-> ->]|[-> ->]];
      (destruct d as [|d|d|d|d|d|d|d|d|d|d]; [done|..]; destruct d; reflexivity). }
  rewrite parse_digits_zero. done.
Qed.

Lemma string_of_uint_nonnil (p : positive) :
  DecimalString.NilZero.string_of_uint (Pos.to_uint p)
  = DecimalString.NilEmpty.string_of_uint (Pos.to_uint p).
Proof.
  pose proof (DecimalPos.Unsigned.to_uint_nonnil p).
  unfold DecimalString.NilZero.string_of_uint. by destruct (Pos.to_uint p).
Qed.

Lemma parseInt_unsigned (p : positive) : parseInt (toString (Z.pos p)) = Some (Z.pos p).
Proof.
  unfold toString, Z.to_int, DecimalString.NilZero.string_of_int.
  rewrite string_of_uint_nonnil.
  pose proof (parseInt_digits 1 EmptyString (Pos.to_uint p)
                (DecimalPos.Unsigned.to_uint_nonnil p)
                (or_introl (conj eq_refl eq_refl))) as H.
  rewrite DecimalPos.Unsigned.of_to in H. exact H.
Qed.

Lemma parseInt_negative (p : positive) : parseInt (toString (Z.neg p)) = Some (Z.neg p).
Proof.
  unfold toString, Z.to_int, DecimalString.NilZero.string_of_int.
  rewrite string_of_uint_nonnil.
  pose proof (parseInt_digits (-1) "-" (Pos.to_uint p)
                (DecimalPos.Unsigned.to_uint_nonnil p)
                (or_intror (conj eq_refl eq_refl))) as H.
  rewrite DecimalPos.Unsigned.of_to in H. exact H.
Qed.


(** ** Likes *)

Lemma toggleLike_success user write rpc songId st :
  is_Some user → succeeded write → ¬ rejected rpc →
  let x := parseInt songId in
  let b := bool_decide (x ∈ HookState.likedSongs st) in
  toggleLike user write rpc songId st
  = HookState.mk
      (relike_songs songId b (HookState.songs st))
      ((λ p, playlist_with_songs p (relike_songs songId b (Playlist.songs p)))
         <$> HookState.playlists st)
      (if b then HookState.likedSongs st ∖ {[x]} else HookState.likedSongs st ∪ {[x]})
      (HookState.lastPlayedSong st) (HookState.recentlyPlayedSongs st)
      (HookState.personalizedSongs st) (HookState.loading st)
      (HookState.currentSongStartTime st) (HookState.currentSongRef st).
Proof.
  intros [u ->] (w & -> & He) Hrpc. unfold toggleLike, toggleLike_try. simpl.
  rewrite He. by destruct rpc.
Qed.

Lemma toggleLike_cases user write rpc songId st :
  toggleLike user write rpc songId st = st ∨
  (is_Some user ∧ succeeded write ∧ ¬ rejected rpc).
Proof.
  destruct user as [u|]; [|by left]. unfold toggleLike, toggleLike_try.
  destruct write as [w|]; simpl; [|by left].
  destruct (error w) eqn:He; [by left|].
  destruct rpc as [r|]; simpl; [|by left].
  right. split; [by eexists|]. split; [by exists w|tauto].
Qed.

Lemma relike_consistent (liked : gset (option Z)) z s :
  let b := bool_decide (Some z ∈ liked) in
  let liked' := if b then liked ∖ {[Some z]} else liked ∪ {[Some z]} in
  song_consistent liked s →
  song_consistent liked'
    (if bool_decide (Song.id s = toString z) then relike b s else s).
Proof.
  intros b liked' [Hid Hflag]. unfold song_consistent, liked', b.
  case_bool_decide as E.
  - rewrite Hid in E. apply toString_inj in E. subst z. split; [exact Hid|]. simpl.
    destruct (decide (Some (Song.file_id s) ∈ liked)) as [Hin|Hout].
    + rewrite bool_decide_eq_true_2 by done. simpl. split; [done|].
      intros [_ Hx]%elem_of_difference. exfalso. by apply Hx, elem_of_singleton.
    + rewrite bool_decide_eq_false_2 by done. simpl. split; [|done].
      intros _. apply elem_of_union. right. by apply elem_of_singleton.
  - assert (Song.file_id s ≠ z) as Hne.
    { intros Heq. apply E. by rewrite Hid, Heq. }
    split; [done|]. rewrite Hflag.
    destruct (decide (Some z ∈ liked)) as [Hin|Hout].
    + rewrite bool_decide_eq_true_2 by done.
      rewrite elem_of_difference, elem_of_singleton.
      split; [intros Hs; split; [done|congruence]|tauto].
    + rewrite bool_decide_eq_false_2 by done.
      rewrite elem_of_union, elem_of_singleton.
      split; [tauto|intros [Hs|Hs]; [done|congruence]].
Qed.

(** X10.  [toggleLike] on the id of a track keeps the liked flags in step
    with [likedSongs]: if, before the call, every song of the list and of
    the playlists carries the id derived from its [file_id] and is flagged
    exactly when its [file_id] is in [likedSongs], the same holds after
    the call, whatever the outcome of the writes. *)
Theorem toggleLike_keeps_flags_consistent user write rpc (z : Z) st :
  flags_consistent st →
  flags_consistent (toggleLike user write rpc (toString z) st).
Proof.
  intros [Hsongs Hlists].
  destruct (toggleLike_cases user write rpc (toString z) st)
    as [->|(Hu & Hw & Hr)]; [done|].
  rewrite toggleLike_success by done. assert (parseInt (toString z) = Some z) as ->.
  { destruct z; [done|apply parseInt_unsigned|apply parseInt_negative]. }
  unfold flags_consistent. simpl. split.
  - unfold relike_songs. apply Forall_fmap.
    eapply Forall_impl; [exact Hsongs|]. intros s Hs. by apply relike_consistent.
  - apply Forall_fmap. eapply Forall_impl; [exact Hlists|]. intros p Hp. simpl.
    unfold relike_songs. apply Forall_fmap.
    eapply Forall_impl; [exact Hp|]. intros s Hs. by apply relike_consistent.
Qed.

Lemma relike_twice b s :
  Song.isLiked s = b → is_Some (Song.likes s) → relike (negb b) (relike b s) = s.
Proof.
  intros Hb [n Hn]. destruct s as [fid img nm ar lg tg vw lk sid im fl].
  simpl in Hb, Hn. subst b lk. unfold relike, add_null. simpl.
  f_equal; [|by destruct fl]. f_equal. destruct fl; simpl; lia.
Qed.

Lemma relike_songs_twice songId b l :
  Forall (λ s, Song.id s = songId → Song.isLiked s = b ∧ is_Some (Song.likes s)) l →
  relike_songs songId (negb b) (relike_songs songId b l) = l.
Proof.
  intros H. unfold relike_songs. rewrite <-list_fmap_compose.
  rewrite <-(list_fmap_id l) at 2. apply Forall_fmap_ext.
  eapply Forall_impl; [exact H|]. intros s Hs. simpl.
  destruct (decide (Song.id s = songId)) as [E|E].
  - rewrite (bool_decide_eq_true_2 _ E). simpl.
    rewrite (bool_decide_eq_true_2 _ E). by apply relike_twice; apply Hs.
  - rewrite (bool_decide_eq_false_2 _ E). by rewrite (bool_decide_eq_false_2 _ E).
Qed.

(** X11.  Two successful [toggleLike] calls on the same id undo each
    other.  [likedSongs] is always back to what it was.  The songs and the
    playlists are back to what they were when the flags of the songs with
    that id agreed with [likedSongs] and their like counts were not null:
    the flag is restored and the count goes up and down by one. *)
Theorem toggleLike_twice user w1 r1 w2 r2 songId st :
  is_Some user → succeeded w1 → ¬ rejected r1 → succeeded w2 → ¬ rejected r2 →
  let st' := toggleLike user w2 r2 songId (toggleLike user w1 r1 songId st) in
  let wasLiked := bool_decide (parseInt songId ∈ HookState.likedSongs st) in
  let restorable :=
    Forall (λ s, Song.id s = songId →
                 Song.isLiked s = wasLiked ∧ is_Some (Song.likes s)) in
  HookState.likedSongs st' = HookState.likedSongs st ∧
  (restorable (HookState.songs st) → HookState.songs st' = HookState.songs st) ∧
  (Forall (λ p, restorable (Playlist.songs p)) (HookState.playlists st) →
   HookState.playlists st' = HookState.playlists st).
Proof.
  intros Hu Hw1 Hr1 Hw2 Hr2 st' wasLiked restorable. unfold st'.
  rewrite !toggleLike_success by done. cbn [HookState.likedSongs HookState.songs
    HookState.playlists].
  fold wasLiked.
  assert (bool_decide
            (parseInt songId ∈
               (if wasLiked then HookState.likedSongs st ∖ {[parseInt songId]}
                else HookState.likedSongs st ∪ {[parseInt songId]}))
          = negb wasLiked) as ->.
  { unfold wasLiked.
    destruct (decide (parseInt songId ∈ HookState.likedSongs st)) as [Hin|Hout].
    - rewrite (bool_decide_eq_true_2 _ Hin). simpl. apply bool_decide_eq_false_2.
      intros [_ Hx]%elem_of_difference. by apply Hx, elem_of_singleton.
    - rewrite (bool_decide_eq_false_2 _ Hout). simpl. apply bool_decide_eq_true_2.
      apply elem_of_union. right. by apply elem_of_singleton. }
  split; [|split].
  - unfold wasLiked.
    destruct (decide (parseInt songId ∈ HookState.likedSongs st)) as [Hin|Hout].
    + rewrite (bool_decide_eq_true_2 _ Hin). simpl.
      apply set_eq. intros y. rewrite elem_of_union, elem_of_difference, elem_of_singleton.
      destruct (decide (y = parseInt songId)) as [->|]; tauto.
    + rewrite (bool_decide_eq_false_2 _ Hout). simpl.
      apply set_eq. intros y.
      rewrite elem_of_difference, elem_of_union, elem_of_singleton.
      destruct (decide (y = parseInt songId)) as [->|]; tauto.
  - intros H. by apply relike_songs_twice.
  - intros H. rewrite <-list_fmap_compose.
    rewrite <-(list_fmap_id (HookState.playlists st)) at 2. apply Forall_fmap_ext.
    eapply Forall_impl; [exact H|]. intros p Hp. simpl.
    unfold playlist_with_songs. simpl. rewrite relike_songs_twice by done.
    by destruct p.
Qed.

(** X28.  The liked list the hook returns follows [toggleLike].  In a
    state whose flags agree with [likedSongs], after a successful
    [toggleLike] on the id of a track of the song list: if the track was
    not liked, it is in the returned liked list, flagged and with one like
    more; if it was liked, no song with its file id is left in that list;
    and for the songs with another file id the list is unchanged. *)
Theorem toggleLike_updates_liked_list (user : option string) (write rpc : Awaited unit)
    (z : Z) (st : HookState.t) (s : Song.t) :
  flags_consistent st → is_Some user → succeeded write → ¬ rejected rpc →
  s ∈ HookState.songs st → Song.file_id s = z →
  let st' := toggleLike user write rpc (toString z) st in
  (Some z ∉ HookState.likedSongs st → relike false s ∈ exported_likedSongs st') ∧
  (Some z ∈ HookState.likedSongs st →
   ∀ s', s' ∈ exported_likedSongs st' → Song.file_id s' ≠ z) ∧
  (∀ s', Song.file_id s' ≠ z →
         s' ∈ exported_likedSongs st' ↔ s' ∈ exported_likedSongs st).
Proof.
  intros [Hsongs _] Hu Hw Hr Hs Hz st'. unfold st'.
  rewrite toggleLike_success by done. assert (parseInt (toString z) = Some z) as ->.
  { destruct z; [done|apply parseInt_unsigned|apply parseInt_negative]. }
  unfold exported_likedSongs, relike_songs. cbn [HookState.songs].
  rewrite Forall_forall in Hsongs.
  assert (∀ x, x ∈ HookState.songs st →
               Song.id x = toString z ↔ Song.file_id x = z) as Hid.
  { intros x [Hx _]%Hsongs. rewrite Hx. split; [apply toString_inj|by intros ->]. }
  split; [|split].
  - intros Hout. rewrite (bool_decide_eq_false_2 _ Hout).
    apply list_elem_of_filter. split; [done|].
    apply list_elem_of_fmap. exists s. split; [|done].
    by rewrite bool_decide_eq_true_2 by by apply Hid.
  - intros Hin. rewrite (bool_decide_eq_true_2 _ Hin).
    intros s' [Hliked (x & -> & Hx)%list_elem_of_fmap]%list_elem_of_filter.
    destruct (decide (Song.id x = toString z)) as [E|E].
    + rewrite (bool_decide_eq_true_2 _ E) in Hliked. done.
    + rewrite (bool_decide_eq_false_2 _ E). intros Hfile. by apply E, Hid.
  - intros s' Hne. rewrite !list_elem_of_filter, list_elem_of_fmap. split.
    + intros [Hliked (x & -> & Hx)]. revert Hliked Hne.
      destruct (decide (Song.id x = toString z)) as [E|E].
      * rewrite (bool_decide_eq_true_2 _ E). intros _ Hne. simpl in Hne.
        by apply Hid in E.
      * rewrite (bool_decide_eq_false_2 _ E). done.
    + intros [Hliked Hs']. split; [done|]. exists s'. split; [|done].
      rewrite bool_decide_eq_false_2; [done|]. intros E. by apply Hne, Hid.
Qed.


(** ** Playlists *)

Lemma write_outcome {A} (write : Awaited A) : write_failed write ∨ succeeded write.
Proof.
  destruct write as [w|]; [|by left]. simpl.
  destruct (error w) eqn:E; [left; by eexists|right; by exists w].
Qed.

Lemma succeeded_not_failed {A} (write : Awaited A) : succeeded write → ¬ write_failed write.
Proof. intros (w & -> & He) [e He']. simpl in *. congruence. Qed.

Lemma deletePlaylist_success user write playlistId st :
  is_Some user → succeeded write →
  deletePlaylist user write playlistId st
  = setPlaylists st (filter (λ p, Playlist.id p ≠ playlistId) (HookState.playlists st)).
Proof. intros [u ->] (w & -> & He). unfold deletePlaylist. simpl. by rewrite He. Qed.

Lemma renamePlaylist_success user write playlistId newName st :
  is_Some user → succeeded write →
  renamePlaylist user write playlistId newName st
  = setPlaylists st
      ((λ p, if bool_decide (Playlist.id p = playlistId)
             then Playlist.mk (Playlist.id p) newName (Playlist.songCount p)
                    (Playlist.image p) (Playlist.songs p)
             else p) <$> HookState.playlists st).
Proof. intros [u ->] (w & -> & He). unfold renamePlaylist. simpl. by rewrite He. Qed.

Lemma addSongToPlaylist_success user write playlistId song st :
  is_Some user → succeeded write →
  addSongToPlaylist user write playlistId song st
  = setPlaylists st (add_to playlistId song <$> HookState.playlists st).
Proof. intros [u ->] (w & -> & He). unfold addSongToPlaylist. simpl. by rewrite He. Qed.

Lemma removeSongFromPlaylist_success user write playlistId songId st :
  is_Some user → succeeded write →
  removeSongFromPlaylist user write playlistId songId st
  = setPlaylists st (remove_from playlistId songId <$> HookState.playlists st).
Proof.
  intros [u ->] (w & -> & He). unfold removeSongFromPlaylist. simpl. by rewrite He.
Qed.

Lemma createPlaylist_success user write row st :
  is_Some user → answered write row →
  createPlaylist user write st
  = setPlaylists st
      (HookState.playlists st
         ++ [Playlist.mk (toString (PlaylistRecord.id row)) (PlaylistRecord.name row)
               0 default_image []]).
Proof.
  intros [u ->] (w & -> & He & Hd). unfold createPlaylist. simpl. by rewrite He, Hd.
Qed.

Lemma toggleLike_failed user write rpc songId st :
  user = None ∨ write_failed write ∨ rejected rpc →
  toggleLike user write rpc songId st = st.
Proof.
  intros H. unfold toggleLike, toggleLike_try.
  destruct user as [u|]; [|done]. destruct H as [[=]|H].
  destruct write as [w|]; simpl in *; [|done].
  destruct (error w) eqn:He; [done|].
  destruct H as [[e [=]]|H]. by destruct rpc.
Qed.

Lemma createPlaylist_failed user write st :
  user = None ∨ write_failed write ∨ answer_data write = None →
  createPlaylist user write st = st.
Proof.
  intros H. unfold createPlaylist.
  destruct user as [u|]; [|done]. destruct H as [[=]|H].
  destruct write as [w|]; simpl in *; [|done].
  destruct (error w) eqn:He; [done|].
  destruct H as [[e [=]]| ->]. done.
Qed.

Lemma deletePlaylist_failed user write playlistId st :
  user = None ∨ write_failed write → deletePlaylist user write playlistId st = st.
Proof.
  intros H. unfold deletePlaylist.
  destruct user as [u|]; [|done]. destruct H as [[=]|H].
  destruct write as [w|]; simpl in *; [|done].
  destruct H as [e ->]. done.
Qed.

Lemma renamePlaylist_failed user write playlistId newName st :
  user = None ∨ write_failed write →
  renamePlaylist user write playlistId newName st = st.
Proof.
  intros H. unfold renamePlaylist.
  destruct user as [u|]; [|done]. destruct H as [[=]|H].
  destruct write as [w|]; simpl in *; [|done].
  destruct H as [e ->]. done.
Qed.

Lemma addSongToPlaylist_failed user write playlistId song st :
  user = None ∨ write_failed write →
  addSongToPlaylist user write playlistId song st = st.
Proof.
  intros H. unfold addSongToPlaylist.
  destruct user as [u|]; [|done]. destruct H as [[=]|H].
  destruct write as [w|]; simpl in *; [|done].
  destruct H as [e ->]. done.
Qed.

Lemma removeSongFromPlaylist_failed user write playlistId songId st :
  user = None ∨ write_failed write →
  removeSongFromPlaylist user write playlistId songId st = st.
Proof.
  intros H. unfold removeSongFromPlaylist.
  destruct user as [u|]; [|done]. destruct H as [[=]|H].
  destruct write as [w|]; simpl in *; [|done].
  destruct H as [e ->]. done.
Qed.

(** X12.  A write that fails changes nothing.  Without a signed-in user,
    or when the write is rejected or comes back with an error, [toggleLike]
    and the five playlist operations leave the whole state as it was;
    so does [toggleLike] when the counter update is rejected and
    [createPlaylist] when the insert returns no row. *)
Theorem failed_write_changes_nothing (user : option string) (st : HookState.t) :
  (∀ write rpc songId,
     user = None ∨ write_failed write ∨ rejected rpc →
     toggleLike user write rpc songId st = st) ∧
  (∀ write,
     user = None ∨ write_failed write ∨ answer_data write = None →
     createPlaylist user write st = st) ∧
  (∀ write playlistId,
     user = None ∨ write_failed write → deletePlaylist user write playlistId st = st) ∧
  (∀ write playlistId newName,
     user = None ∨ write_failed write →
     renamePlaylist user write playlistId newName st = st) ∧
  (∀ write playlistId song,
     user = None ∨ write_failed write →
     addSongToPlaylist user write playlistId song st = st) ∧
  (∀ write playlistId songId,
     user = None ∨ write_failed write →
     removeSongFromPlaylist user write playlistId songId st = st).
Proof.
  split; [|split; [|split; [|split; [|split]]]].
  - intros write rpc songId. apply toggleLike_failed.
  - intros write. apply createPlaylist_failed.
  - intros write playlistId. apply deletePlaylist_failed.
  - intros write playlistId newName. apply renamePlaylist_failed.
  - intros write playlistId song. apply addSongToPlaylist_failed.
  - intros write playlistId songId. apply removeSongFromPlaylist_failed.
Qed.

Lemma songExists_spec p song :
  songExists p song = true ↔ Song.id song ∈ Song.id <$> Playlist.songs p.
Proof.
  unfold songExists. rewrite existsb_exists, list_elem_of_fmap. split.
  - intros (s & Hs%list_elem_of_In & E%bool_decide_eq_true). by exists s.
  - intros (s & E & Hs). exists s. split; [by apply list_elem_of_In|].
    by apply bool_decide_eq_true.
Qed.

Lemma add_to_ok playlistId song p :
  count_ok_playlist p ∧ distinct_songs p →
  count_ok_playlist (add_to playlistId song p) ∧ distinct_songs (add_to playlistId song p).
Proof.
  intros [Hc Hd]. unfold add_to. case_bool_decide; [|done].
  destruct (songExists p song) eqn:E; [done|].
  split; [done|]. unfold distinct_songs. simpl. rewrite fmap_app. simpl.
  apply NoDup_app. split; [done|]. split; [|apply NoDup_singleton].
  intros x Hx ->%list_elem_of_singleton.
  apply songExists_spec in Hx. congruence.
Qed.

Lemma relike_songs_ids songId b l : Song.id <$> relike_songs songId b l = Song.id <$> l.
Proof.
  unfold relike_songs. rewrite <-list_fmap_compose. apply list_fmap_ext.
  intros i s _. simpl. by case_bool_decide.
Qed.

(** X13.  The playlists stay well formed.  If in every playlist
    [songCount] is the number of its songs and no two songs share an id,
    then the same holds after [createPlaylist], [deletePlaylist],
    [renamePlaylist], [addSongToPlaylist], [removeSongFromPlaylist] and
    [toggleLike], whatever the outcome of their writes. *)
Theorem playlists_stay_well_formed (user : option string) (st : HookState.t) :
  let well_formed st :=
    Forall (λ p, count_ok_playlist p ∧ distinct_songs p) (HookState.playlists st) in
  well_formed st →
  (∀ write, well_formed (createPlaylist user write st)) ∧
  (∀ write playlistId, well_formed (deletePlaylist user write playlistId st)) ∧
  (∀ write playlistId newName,
     well_formed (renamePlaylist user write playlistId newName st)) ∧
  (∀ write playlistId song,
     well_formed (addSongToPlaylist user write playlistId song st)) ∧
  (∀ write playlistId songId,
     well_formed (removeSongFromPlaylist user write playlistId songId st)) ∧
  (∀ write rpc songId, well_formed (toggleLike user write rpc songId st)).
Proof.
  intros well_formed Hst. unfold well_formed in *.
  pose proof (λ write rpc songId, toggleLike_failed user write rpc songId st) as Ftoggle.
  pose proof (λ write, createPlaylist_failed user write st) as Fcreate.
  pose proof (λ write playlistId, deletePlaylist_failed user write playlistId st)
    as Fdelete.
  pose proof (λ write playlistId newName,
                renamePlaylist_failed user write playlistId newName st) as Frename.
  pose proof (λ write playlistId song,
                addSongToPlaylist_failed user write playlistId song st) as Fadd.
  pose proof (λ write playlistId songId,
                removeSongFromPlaylist_failed user write playlistId songId st) as Fremove.
  destruct user as [u|]; cycle 1.
  { repeat split; intros;
      first [ rewrite Ftoggle by (by left) | rewrite Fcreate by (by left)
            | rewrite Fdelete by (by left) | rewrite Frename by (by left)
            | rewrite Fadd by (by left) | rewrite Fremove by (by left) ];
      done. }
  assert (is_Some (Some u)) as Hu by by eexists.
  split; [|split; [|split; [|split; [|split]]]].
  - intros write. destruct (write_outcome write) as [Hf|(w & -> & He)].
    { by rewrite Fcreate by (right; by left). }
    destruct (data w) as [row|] eqn:Hd.
    + rewrite (createPlaylist_success _ _ row) by (done || by exists w).
      simpl. apply Forall_app. split; [done|]. repeat constructor.
    + by rewrite Fcreate by (right; right; done).
  - intros write playlistId. destruct (write_outcome write) as [Hf|Hs].
    { by rewrite Fdelete by by right. }
    rewrite deletePlaylist_success by done. simpl.
    rewrite Forall_forall in Hst. apply Forall_forall.
    intros p [_ Hp]%list_elem_of_filter. by apply Hst.
  - intros write playlistId newName. destruct (write_outcome write) as [Hf|Hs].
    { by rewrite Frename by by right. }
    rewrite renamePlaylist_success by done. simpl. apply Forall_fmap.
    eapply Forall_impl; [exact Hst|]. intros p Hp. simpl. by case_bool_decide.
  - intros write playlistId song. destruct (write_outcome write) as [Hf|Hs].
    { by rewrite Fadd by by right. }
    rewrite addSongToPlaylist_success by done. simpl. apply Forall_fmap.
    eapply Forall_impl; [exact Hst|]. intros p Hp. by apply add_to_ok.
  - intros write playlistId songId. destruct (write_outcome write) as [Hf|Hs].
    { by rewrite Fremove by by right. }
    rewrite removeSongFromPlaylist_success by done. simpl. apply Forall_fmap.
    eapply Forall_impl; [exact Hst|]. intros p [Hc Hd]. simpl.
    unfold remove_from. case_bool_decide; [|done]. split; [done|].
    unfold distinct_songs. simpl.
    eapply sublist_NoDup; [exact Hd|]. apply fmap_sublist, sublist_filter.
  - intros write rpc songId.
    destruct (toggleLike_cases (Some u) write rpc songId st) as [->|(_ & Hw & Hr)];
      [done|].
    rewrite toggleLike_success by done. simpl. apply Forall_fmap.
    eapply Forall_impl; [exact Hst|]. intros p [Hc Hd]. simpl.
    unfold count_ok_playlist, distinct_songs, playlist_with_songs. simpl.
    rewrite relike_songs_ids. split; [|done].
    unfold relike_songs. by rewrite length_fmap.
Qed.

Lemma add_to_idem playlistId song p :
  add_to playlistId song (add_to playlistId song p) = add_to playlistId song p.
Proof.
  unfold add_to at 2 3. case_bool_decide as E.
  - destruct (songExists p song) eqn:Hex.
    + unfold add_to. by rewrite bool_decide_eq_true_2, Hex.
    + unfold add_to. simpl. rewrite bool_decide_eq_true_2 by done.
      replace (songExists _ song) with true; [done|].
      symmetry. apply songExists_spec. simpl. rewrite fmap_app.
      apply elem_of_app. right. simpl. apply list_elem_of_singleton. done.
  - unfold add_to. by rewrite bool_decide_eq_false_2.
Qed.

(** X14.  A song is never added twice.  After a successful
    [addSongToPlaylist], adding the same song to the same playlist again
    changes nothing, whatever the outcome of the second insert. *)
Theorem addSongToPlaylist_idempotent (user : option string) (write again : Awaited unit)
    (playlistId : string) (song : Song.t) (st : HookState.t) :
  is_Some user → succeeded write →
  addSongToPlaylist user again playlistId song
    (addSongToPlaylist user write playlistId song st)
  = addSongToPlaylist user write playlistId song st.
Proof.
  intros Hu Hw. rewrite (addSongToPlaylist_success user write) by done.
  destruct (write_outcome again) as [Hf|Hs].
  - by apply addSongToPlaylist_failed; right.
  - rewrite addSongToPlaylist_success by done. unfold setPlaylists. simpl.
    f_equal. rewrite <-list_fmap_compose. apply list_fmap_ext.
    intros i p _. simpl. apply add_to_idem.
Qed.

Lemma filter_all {A} (P : A → Prop) `{∀ x, Decision (P x)} (l : list A) :
  Forall P l → filter P l = l.
Proof.
  induction 1 as [|x l Hx _ IH]; [done|]. rewrite filter_cons_True by done. by rewrite IH.
Qed.

Lemma songExists_false p song :
  songExists p song = false →
  Forall (λ s, Song.id s ≠ Song.id song) (Playlist.songs p).
Proof.
  intros Hex. apply Forall_forall. intros s Hs E.
  assert (songExists p song = true) as Ht; [|congruence].
  apply songExists_spec, list_elem_of_fmap. by exists s.
Qed.

(** X15.  Adding a song and removing it again.  When the playlists'
    counts are right and the playlist does not hold the song yet, a
    successful [addSongToPlaylist] followed by a successful
    [removeSongFromPlaylist] of that song's id gives back every playlist's
    id, name, song count and songs. *)
Theorem add_then_remove_restores (user : option string) (write1 write2 : Awaited unit)
    (playlistId : string) (song : Song.t) (st : HookState.t) :
  is_Some user → succeeded write1 → succeeded write2 →
  Forall count_ok_playlist (HookState.playlists st) →
  Forall (λ p, Playlist.id p = playlistId → songExists p song = false)
    (HookState.playlists st) →
  let contents p :=
    (Playlist.id p, Playlist.name p, Playlist.songCount p, Playlist.songs p) in
  contents <$> HookState.playlists
                 (removeSongFromPlaylist user write2 playlistId (Song.id song)
                    (addSongToPlaylist user write1 playlistId song st))
  = contents <$> HookState.playlists st.
Proof.
  intros Hu H1 H2 Hc Hn contents.
  rewrite (addSongToPlaylist_success user write1) by done.
  rewrite removeSongFromPlaylist_success by done. simpl.
  rewrite <-!list_fmap_compose. apply Forall_fmap_ext.
  rewrite Forall_forall in Hc, Hn. apply Forall_forall. intros p Hp. simpl.
  specialize (Hc p Hp). specialize (Hn p Hp).
  destruct (decide (Playlist.id p = playlistId)) as [E|E]; cycle 1.
  { unfold add_to. rewrite (bool_decide_eq_false_2 _ E).
    unfold remove_from. by rewrite (bool_decide_eq_false_2 _ E). }
  unfold add_to. rewrite (bool_decide_eq_true_2 _ E), (Hn E).
  unfold remove_from. simpl. rewrite (bool_decide_eq_true_2 _ E).
  unfold contents. simpl.
  assert (filter (λ s, Song.id s ≠ Song.id song) (Playlist.songs p ++ [song])
          = Playlist.songs p) as ->.
  { rewrite filter_app, (filter_singleton _ song []).
    rewrite decide_False by (intros H; by apply H).
    rewrite app_nil_r. apply filter_all, songExists_false, Hn, E. }
  by rewrite <-Hc.
Qed.

(** X16.  What a playlist holds after an edit.  After a successful
    [addSongToPlaylist] every playlist with the given id holds a song with
    the added song's id; after a successful [removeSongFromPlaylist] none
    of them holds a song with the removed id; and both leave the playlists
    with another id as they were, in the same order. *)
Theorem playlist_membership_after_edit (user : option string) (write : Awaited unit)
    (playlistId : string) (song : Song.t) (songId : string) (st : HookState.t) :
  is_Some user → succeeded write →
  let added := HookState.playlists (addSongToPlaylist user write playlistId song st) in
  let removed :=
    HookState.playlists (removeSongFromPlaylist user write playlistId songId st) in
  (∀ p, p ∈ added → Playlist.id p = playlistId →
        Song.id song ∈ Song.id <$> Playlist.songs p) ∧
  (∀ p, p ∈ removed → Playlist.id p = playlistId →
        songId ∉ Song.id <$> Playlist.songs p) ∧
  Playlist.id <$> added = Playlist.id <$> HookState.playlists st ∧
  Playlist.id <$> removed = Playlist.id <$> HookState.playlists st ∧
  filter (λ p, Playlist.id p ≠ playlistId) added
  = filter (λ p, Playlist.id p ≠ playlistId) (HookState.playlists st) ∧
  filter (λ p, Playlist.id p ≠ playlistId) removed
  = filter (λ p, Playlist.id p ≠ playlistId) (HookState.playlists st).
Proof.
  intros Hu Hw added removed. unfold added, removed.
  rewrite addSongToPlaylist_success, removeSongFromPlaylist_success by done. simpl.
  assert (∀ p, Playlist.id (add_to playlistId song p) = Playlist.id p) as Hida.
  { intros p. unfold add_to. case_bool_decide; [|done]. by destruct (songExists p song). }
  assert (∀ p, Playlist.id (remove_from playlistId songId p) = Playlist.id p) as Hidr.
  { intros p. unfold remove_from. by case_bool_decide. }
  assert (∀ (f : Playlist.t → Playlist.t) (l : list Playlist.t),
            (∀ p, Playlist.id (f p) = Playlist.id p) →
            (∀ p, Playlist.id p ≠ playlistId → f p = p) →
            filter (λ p, Playlist.id p ≠ playlistId) (f <$> l)
            = filter (λ p, Playlist.id p ≠ playlistId) l) as Hother.
  { intros f l Hid Hf. induction l as [|p l IH]; [done|]. rewrite fmap_cons.
    destruct (decide (Playlist.id p = playlistId)) as [E|E].
    - rewrite !filter_cons_False; [done| |]; rewrite ?Hid; by intros H.
    - rewrite !filter_cons_True by (rewrite ?Hid; done). by rewrite IH, Hf. }
  split; [|split; [|split; [|split; [|split]]]].
  - intros p (q & -> & Hq)%list_elem_of_fmap. rewrite Hida. intros E.
    unfold add_to. rewrite bool_decide_eq_true_2 by done.
    destruct (songExists q song) eqn:Hex; [by apply songExists_spec|].
    simpl. rewrite fmap_app. apply elem_of_app. right. by apply list_elem_of_singleton.
  - intros p (q & -> & Hq)%list_elem_of_fmap. rewrite Hidr. intros E.
    unfold remove_from. rewrite bool_decide_eq_true_2 by done. simpl.
    intros (s & Hs & [Hne _]%list_elem_of_filter)%list_elem_of_fmap. done.
  - rewrite <-list_fmap_compose. apply list_fmap_ext. intros i p _. apply Hida.
  - rewrite <-list_fmap_compose. apply list_fmap_ext. intros i p _. apply Hidr.
  - apply Hother; [done|]. intros p Hp. unfold add_to. by rewrite bool_decide_eq_false_2.
  - apply Hother; [done|]. intros p Hp. unfold remove_from.
    by rewrite bool_decide_eq_false_2.
Qed.

(** X17.  How playlist edits compose.  Of two successful renames of the
    same playlist the second decides; deleting a playlist twice is
    deleting it once; and once a playlist is deleted, renaming it, adding
    a song to it or removing one from it changes nothing. *)
Theorem playlist_edits_compose (user : option string) (write1 write2 : Awaited unit)
    (playlistId name1 name2 : string) (song : Song.t) (songId : string)
    (st : HookState.t) :
  is_Some user → succeeded write1 →
  (succeeded write2 →
   renamePlaylist user write2 playlistId name2
     (renamePlaylist user write1 playlistId name1 st)
   = renamePlaylist user write2 playlistId name2 st) ∧
  let deleted := deletePlaylist user write1 playlistId st in
  deletePlaylist user write2 playlistId deleted = deleted ∧
  renamePlaylist user write2 playlistId name2 deleted = deleted ∧
  addSongToPlaylist user write2 playlistId song deleted = deleted ∧
  removeSongFromPlaylist user write2 playlistId songId deleted = deleted.
Proof.
  intros Hu H1. split.
  - intros H2. rewrite !renamePlaylist_success by done. unfold setPlaylists. simpl.
    f_equal. rewrite <-list_fmap_compose. apply list_fmap_ext. intros i p _. simpl.
    destruct (decide (Playlist.id p = playlistId)) as [E|E].
    + rewrite !(bool_decide_eq_true_2 _ E). simpl.
      by rewrite ?(bool_decide_eq_true_2 _ E).
    + rewrite !(bool_decide_eq_false_2 _ E). by rewrite ?(bool_decide_eq_false_2 _ E).
  - intros deleted. unfold deleted. rewrite (deletePlaylist_success user write1) by done.
    set (rest := filter (λ p, Playlist.id p ≠ playlistId) (HookState.playlists st)).
    assert (Forall (λ p, Playlist.id p ≠ playlistId) rest) as Hrest.
    { apply Forall_forall. by intros p [Hp _]%list_elem_of_filter. }
    assert (∀ f : Playlist.t → Playlist.t,
              (∀ p, Playlist.id p ≠ playlistId → f p = p) → f <$> rest = rest) as Hmap.
    { intros f Hf. rewrite <-(list_fmap_id rest) at 2. apply Forall_fmap_ext.
      eapply Forall_impl; [exact Hrest|]. intros p Hp. by apply Hf. }
    destruct (write_outcome write2) as [Hf|H2].
    { repeat split;
        first [ apply deletePlaylist_failed | apply renamePlaylist_failed
              | apply addSongToPlaylist_failed | apply removeSongFromPlaylist_failed ];
        by right. }
    rewrite deletePlaylist_success, renamePlaylist_success, addSongToPlaylist_success,
      removeSongFromPlaylist_success by done.
    unfold setPlaylists. simpl. repeat split; f_equal.
    + by apply filter_all.
    + apply Hmap. intros p Hp. by rewrite bool_decide_eq_false_2.
    + apply Hmap. intros p Hp. unfold add_to. by rewrite bool_decide_eq_false_2.
    + apply Hmap. intros p Hp. unfold remove_from. by rewrite bool_decide_eq_false_2.
Qed.

(** ** The catalog read: [fetchSongs] *)

Lemma by_views_plus_likes_positive a b :
  is_positive (by_views_plus_likes a b) = true ↔
  (views_plus_likes a < views_plus_likes b)%Z.
Proof.
  unfold by_views_plus_likes, nsub. simpl.
  rewrite negb_true_iff, <-not_true_iff_false, Qle_bool_iff.
  rewrite Zlt_Qlt. split; intros H.
  - apply Qnot_le_lt in H. lra.
  - apply Qlt_not_le. lra.
Qed.

Lemma sorted_by_views_plus_likes l :
  StronglySorted (λ a b, (views_plus_likes b ≤ views_plus_likes a)%Z)
    (Array_sort by_views_plus_likes l).
Proof.
  apply (Array_sort_sorted by_views_plus_likes _ (λ _, True)).
  - intros a b _ _ H. apply not_true_iff_false in H.
    rewrite by_views_plus_likes_positive in H. lia.
  - intros a b _ _ H. apply by_views_plus_likes_positive in H. lia.
  - intros a b c _ _ _. lia.
  - by apply Forall_forall.
Qed.

Lemma fetchSongs_cases reads user st :
  HookState.songs (fetchSongs reads user st) = [] ∨
  ∃ userId rs rl ru,
    user = Some userId ∧
    select_songs_by_views reads = Fulfilled rs ∧ error rs = None ∧
    select_liked_ids reads userId = Fulfilled rl ∧
    select_last_song reads userId = Fulfilled ru ∧
    HookState.songs (fetchSongs reads user st)
    = Array_sort by_views_plus_likes (flagged (data rl) <$> default [] (data rs)) ∧
    HookState.likedSongs (fetchSongs reads user st)
    = (if data rl is Some _ then set_map Some (likedSet (data rl))
       else HookState.likedSongs st).
Proof.
  unfold fetchSongs. destruct user as [userId|]; [|by left].
  destruct (select_songs_by_views reads) as [rs|] eqn:Hs; [|by left].
  destruct (error rs) eqn:He; [by left|].
  destruct (select_liked_ids reads userId) as [rl|] eqn:Hl; [|by left].
  destruct (select_last_song reads userId) as [ru|] eqn:Hu; [|by left].
  right. exists userId, rs, rl, ru. repeat (split; [done|]).
  assert ((match data rs with
           | Some songsData =>
               (λ song, convertDatabaseSong song
                          (bool_decide (DatabaseSong.file_id song ∈ likedSet (data rl))))
                 <$> songsData
           | None => []
           end) = flagged (data rl) <$> default [] (data rs)) as ->.
  { by destruct (data rs). }
  destruct (data ru) as [[[fileId|]]|]; simpl.
  - destruct (fileId =? 0)%Z; [by destruct (data rl)|].
    destruct (find_song _ _); by destruct (data rl).
  - by destruct (data rl).
  - by destruct (data rl).
Qed.

(** X18.  The song list is always in display order.  Whatever the reads
    answer, the songs [fetchSongs] leaves in the state are sorted by
    views plus likes, highest first, a null count adding nothing. *)
Theorem fetchSongs_sorted (reads : Reads) (user : option string) (st : HookState.t) :
  StronglySorted (λ a b, (views_plus_likes b ≤ views_plus_likes a)%Z)
    (HookState.songs (fetchSongs reads user st)).
Proof.
  destruct (fetchSongs_cases reads user st)
    as [->|(userId & rs & rl & ru & _ & _ & _ & _ & _ & -> & _)].
  - constructor.
  - apply sorted_by_views_plus_likes.
Qed.

(** X19.  A failed catalog read empties the song list.  Without a
    signed-in user, when the read of the songs is rejected or comes back
    with an error, or when the read of the liked songs or of the user's
    row is rejected, [fetchSongs] leaves no song in the state. *)
Theorem fetchSongs_failure_empties (reads : Reads) (user : option string)
    (st : HookState.t) :
  user = None ∨ errored (select_songs_by_views reads) ∨
  (∃ userId, user = Some userId ∧
     (rejected (select_liked_ids reads userId) ∨
      rejected (select_last_song reads userId))) →
  HookState.songs (fetchSongs reads user st) = [].
Proof.
  intros H. unfold fetchSongs. destruct user as [userId|]; [|done].
  destruct H as [[=]|H].
  destruct (select_songs_by_views reads) as [rs|]; [|done].
  destruct (error rs) eqn:He; [done|].
  destruct H as [[e He']|(u & [= <-] & H)]; [congruence|].
  destruct (select_liked_ids reads userId) as [rl|]; [|done].
  destruct (select_last_song reads userId) as [ru|]; [|done].
  simpl in H. tauto.
Qed.

(** X20.  What a successful catalog read serves.  When the read of the
    songs answers with rows and the two other reads are not rejected, the
    song list is a rearrangement of the rows, each converted and flagged
    by the liked-songs answer.  If that answer has data, the liked set of
    the state is replaced by its ids, and every song's flag and string id
    agree with it; if it has none, the liked set is kept and no song is
    flagged. *)
Theorem fetchSongs_serves_catalog (reads : Reads) (userId : string)
    (rows : list DatabaseSong.t) (st : HookState.t) :
  answered (select_songs_by_views reads) rows →
  ¬ rejected (select_liked_ids reads userId) →
  ¬ rejected (select_last_song reads userId) →
  let likedData := answer_data (select_liked_ids reads userId) in
  let st' := fetchSongs reads (Some userId) st in
  HookState.songs st' ≡ₚ flagged likedData <$> rows ∧
  match likedData with
  | Some ids =>
      (∀ x, x ∈ HookState.likedSongs st' ↔
            ∃ item, item ∈ ids ∧ x = Some (LikedRow.song_id item)) ∧
      Forall (song_consistent (HookState.likedSongs st')) (HookState.songs st')
  | None =>
      HookState.likedSongs st' = HookState.likedSongs st ∧
      Forall (λ s, Song.isLiked s = false) (HookState.songs st')
  end.
Proof.
  intros (rs & Hs & He & Hd) Hl Hu likedData st'.
  destruct (select_liked_ids reads userId) as [rl|] eqn:Hrl; [|by destruct Hl].
  destruct (select_last_song reads userId) as [ru|] eqn:Hru; [|by destruct Hu].
  assert (HookState.songs st'
          = Array_sort by_views_plus_likes (flagged (data rl) <$> rows) ∧
          HookState.likedSongs st'
          = (if data rl is Some _ then set_map Some (likedSet (data rl))
             else HookState.likedSongs st)) as [Hsongs Hliked].
  { unfold st', fetchSongs. rewrite Hs, He, Hrl, Hru, Hd.
    destruct (data ru) as [[[fileId|]]|]; simpl.
    - destruct (fileId =? 0)%Z; [by destruct (data rl)|].
      destruct (find_song _ _); by destruct (data rl).
    - by destruct (data rl).
    - by destruct (data rl). }
  unfold likedData. simpl. rewrite Hsongs, Hliked.
  split; [apply Array_sort_Permutation|].
  destruct (data rl) as [ids|] eqn:Hids.
  - split.
    + intros x. rewrite elem_of_map. split.
      * intros (z & -> & Hz). apply elem_of_likedSet in Hz as (item & Hi & <-).
        by exists item.
      * intros (item & Hi & ->). exists (LikedRow.song_id item). split; [done|].
        apply elem_of_likedSet. by exists item.
    + apply Forall_forall. intros s Hs'%elem_of_Array_sort.
      apply list_elem_of_fmap in Hs' as (row & -> & Hrow).
      split; [done|]. unfold flagged. simpl.
      rewrite bool_decide_eq_true, elem_of_map. split.
      * intros Hz. by exists (DatabaseSong.file_id row).
      * by intros (z & [= <-] & Hz).
  - split; [done|]. apply Forall_forall. intros s Hs'%elem_of_Array_sort.
    apply list_elem_of_fmap in Hs' as (row & -> & Hrow).
    unfold flagged. simpl. apply bool_decide_eq_false. set_solver.
Qed.

Lemma find_song_Some fileId l s :
  find_song fileId l = Some s → s ∈ l ∧ Song.file_id s = fileId.
Proof.
  unfold find_song. intros [Hin Hb]%find_some.
  split; [by apply list_elem_of_In|]. by apply bool_decide_eq_true in Hb.
Qed.

Lemma find_song_is_Some fileId l :
  (∃ s, s ∈ l ∧ Song.file_id s = fileId) → is_Some (find_song fileId l).
Proof.
  intros (s & Hs & E). unfold find_song.
  destruct (find _ l) eqn:Hf; [by eexists|].
  apply list_elem_of_In in Hs. eapply find_none in Hf; [|exact Hs].
  simpl in Hf. apply bool_decide_eq_false in Hf. done.
Qed.

(** X21.  The last played song comes from the song list.  [fetchSongs]
    either keeps the last played song of the state or sets it to a song of
    the list it has just stored, whose file id is the one of the user's
    row and is not 0.  It does set it when the reads succeed, the user's
    row names a file id other than 0 and the catalog has a row with it. *)
Theorem fetchSongs_last_played (reads : Reads) (user : option string)
    (st : HookState.t) :
  let st' := fetchSongs reads user st in
  (HookState.lastPlayedSong st' = HookState.lastPlayedSong st ∨
   ∃ s userId row,
     user = Some userId ∧
     HookState.lastPlayedSong st' = Some s ∧ s ∈ HookState.songs st' ∧
     answer_data (select_last_song reads userId) = Some row ∧
     UserRow.last_song_file_id row = Some (Song.file_id s) ∧
     Song.file_id s ≠ 0%Z) ∧
  (∀ userId rows row fileId,
     user = Some userId →
     answered (select_songs_by_views reads) rows →
     ¬ rejected (select_liked_ids reads userId) →
     answer_data (select_last_song reads userId) = Some row →
     UserRow.last_song_file_id row = Some fileId → fileId ≠ 0%Z →
     (∃ r, r ∈ rows ∧ DatabaseSong.file_id r = fileId) →
     ∃ s, HookState.lastPlayedSong st' = Some s ∧ Song.file_id s = fileId).
Proof.
  intros st'. unfold st', fetchSongs. split.
  - destruct user as [userId|]; [|by left].
    destruct (select_songs_by_views reads) as [rs|]; [|by left].
    destruct (error rs); [by left|].
    destruct (select_liked_ids reads userId) as [rl|]; [|by left].
    destruct (select_last_song reads userId) as [ru|] eqn:Hru;
      [|left; by destruct (data rl)].
    destruct (data ru) as [[[fileId|]]|] eqn:Hdu; simpl;
      try (left; by destruct (data rl)).
    destruct (fileId =? 0)%Z eqn:Hz; [left; by destruct (data rl)|].
    destruct (find_song _ _) as [s|] eqn:Hf; [|left; by destruct (data rl)].
    right. apply find_song_Some in Hf as [Hin Hid].
    subst fileId. apply Z.eqb_neq in Hz.
    exists s, userId, (UserRow.mk (Some (Song.file_id s))). simpl.
    repeat split; try done; try by destruct (data rl).
    + destruct (data rl); simpl; by apply elem_of_Array_sort.
    + by rewrite Hru.
  - intros userId rows row fileId -> (rs & -> & -> & Hd) Hl Hrow Hlast Hne Hex.
    destruct (select_liked_ids reads userId) as [rl|]; [|by destruct Hl].
    destruct (select_last_song reads userId) as [ru|]; [|done].
    simpl in Hrow. rewrite Hrow, Hlast, Hd.
    apply Z.eqb_neq in Hne. rewrite Hne.
    destruct (find_song_is_Some fileId
                ((λ song, convertDatabaseSong song
                            (bool_decide (DatabaseSong.file_id song ∈ likedSet (data rl))))
                   <$> rows)) as [s Hs].
    { destruct Hex as (r & Hr & E). eexists. split; [by apply list_elem_of_fmap_2|done]. }
    rewrite Hs. exists s. split; [done|]. by apply find_song_Some in Hs as [_ ?].
Qed.

(** ** The recently played songs: [fetchRecentlyPlayed] *)

Lemma elem_of_recent_songs liked historyData r :
  r ∈ recent_songs liked historyData ↔
  ∃ item s, item ∈ historyData ∧ TopHistoryRow.songs item = Some s ∧
            r = convertDatabaseSong s (bool_decide (TopHistoryRow.song_id item ∈ liked)).
Proof.
  unfold recent_songs. rewrite list_elem_of_omap. split.
  - intros (item & Hi & Hr). destruct (TopHistoryRow.songs item) as [s|] eqn:E; [|done].
    simpl in Hr. exists item, s. by inversion Hr.
  - intros (item & s & Hi & E & ->). exists item. by rewrite E.
Qed.

(** X22.  When the recently played list is kept and when it is emptied.
    If the history read comes back with an error, [fetchRecentlyPlayed]
    leaves the whole state as it was; without a signed-in user, when that
    read is rejected or has no rows, or when the read of the liked songs is
    rejected, the list is emptied. *)
Theorem fetchRecentlyPlayed_failures (reads : Reads) (user : option string)
    (st : HookState.t) :
  (∀ userId r, user = Some userId → select_recent reads userId = Fulfilled r →
               is_Some (error r) → fetchRecentlyPlayed reads user st = st) ∧
  ((user = None ∨
    ∃ userId, user = Some userId ∧
      (rejected (select_recent reads userId) ∨
       (¬ errored (select_recent reads userId) ∧
        (no_rows (select_recent reads userId) ∨
         rejected (select_liked_ids reads userId))))) →
   HookState.recentlyPlayedSongs (fetchRecentlyPlayed reads user st) = []).
Proof.
  unfold fetchRecentlyPlayed. split.
  - intros userId r -> -> [e ->]. done.
  - intros [->|(userId & -> & H)]; [done|].
    destruct (select_recent reads userId) as [rh|]; [|done].
    destruct H as [[]|[Hne H]]. simpl in Hne.
    destruct (error rh) eqn:He; [destruct Hne; by eexists|].
    destruct (data rh) as [historyData|] eqn:Hd; [|done].
    destruct (decide (length historyData = 0)); [done|].
    destruct H as [H|H].
    + exfalso. revert H. unfold no_rows. simpl. rewrite He, Hd.
      intros [[e [=]]|[[=]|[= ->]]]. done.
    + by destruct (select_liked_ids reads userId).
Qed.

Lemma elem_of_query_recent db userId item :
  item ∈ query_recent db userId →
  ∃ h, h ∈ history_table db ∧ HistoryRecord.user_id h = userId ∧
       TopHistoryRow.song_id item = HistoryRecord.song_id h ∧
       ∀ s, TopHistoryRow.songs item = Some s →
            s ∈ songs_table db ∧ DatabaseSong.file_id s = HistoryRecord.song_id h.
Proof.
  unfold query_recent. intros (h & -> & Hh)%list_elem_of_fmap.
  apply subseteq_take in Hh. unfold order_desc in Hh.
  apply elem_of_Array_sort, list_elem_of_filter in Hh as [Hu Hh].
  exists h. split; [done|]. split; [done|]. split; [done|]. simpl.
  intros s [Hin Hb]%find_some.
  split; [by apply list_elem_of_In|by apply bool_decide_eq_true in Hb].
Qed.

Lemma length_omap_le {A B} (f : A → option B) (l : list A) :
  length (omap f l) ≤ length l.
Proof.
  induction l as [|x l IH]; [done|]. change (omap f l) with (list_omap _ _ f l) in IH.
  simpl. destruct (f x); simpl; lia.
Qed.

(** X23.  What the recently played list holds.  When the store answers
    the history read and the liked-songs read, [fetchRecentlyPlayed]
    leaves at most nine songs, each the conversion of a catalog row the
    user has a history record for, and flagged as liked exactly when the
    user has a liked-songs record for it. *)
Theorem fetchRecentlyPlayed_from_store (db : Database) (reads : Reads)
    (userId : string) (st : HookState.t) :
  select_recent reads userId = fulfilled (query_recent db userId) →
  select_liked_ids reads userId = fulfilled (query_liked db userId) →
  let recent :=
    HookState.recentlyPlayedSongs (fetchRecentlyPlayed reads (Some userId) st) in
  length recent ≤ 9 ∧
  ∀ r, r ∈ recent →
    ∃ s, s ∈ songs_table db ∧
         r = convertDatabaseSong s (Song.isLiked r) ∧
         (∃ h, h ∈ history_table db ∧ HistoryRecord.user_id h = userId ∧
               HistoryRecord.song_id h = DatabaseSong.file_id s) ∧
         (Song.isLiked r = true ↔
          ∃ l, l ∈ liked_songs_table db ∧ LikedRecord.user_id l = userId ∧
               LikedRecord.song_id l = DatabaseSong.file_id s).
Proof.
  intros Hrecent Hliked recent. unfold recent, fetchRecentlyPlayed.
  rewrite Hrecent, Hliked. unfold fulfilled. cbn [data error].
  destruct (decide (length (query_recent db userId) = 0)) as [|_];
    cbn [setRecentlyPlayedSongs HookState.recentlyPlayedSongs].
  { split; [simpl; lia|]. by intros r Hr%elem_of_nil. }
  split.
  - unfold recent_songs. etrans; [apply length_omap_le|].
    unfold query_recent. rewrite length_fmap, length_take. lia.
  - intros r (item & s & Hi & Hs & ->)%elem_of_recent_songs.
    apply elem_of_query_recent in Hi as (h & Hh & Hu & Hid & Hjoin).
    destruct (Hjoin s Hs) as [Hin Hfile].
    exists s. split; [done|]. split; [done|]. split; [by exists h|].
    unfold convertDatabaseSong. cbn [Song.isLiked].
    rewrite bool_decide_eq_true, elem_of_likedSet, Hid, <-Hfile.
    unfold query_liked. split.
    + intros (row & (l & -> & [Hlu Hl]%list_elem_of_filter)%list_elem_of_fmap & E).
      by exists l.
    + intros (l & Hl & Hlu & E).
      exists (LikedRow.mk (LikedRecord.song_id l)). split; [|done].
      apply list_elem_of_fmap. exists l. split; [done|].
      by apply list_elem_of_filter.
Qed.

(** ** The playlists read: [fetchPlaylists] *)

Lemma Exc_map_throws {A B} (f : A → Exc B) (l : list A) :
  Exists (λ x, ∃ e, f x = Throw e) l → ∃ e, Exc_map f l = Throw e.
Proof.
  induction l as [|x l IH]; intros H; [by apply Exists_nil in H|]. simpl.
  destruct (f x) as [y|e] eqn:E; simpl; [|by exists e].
  apply Exists_cons in H as [[e He]|H]; [congruence|].
  destruct (IH H) as [e ->]. by exists e.
Qed.

Lemma Exc_map_vals {A B} (f : A → Exc B) (P : A → B → Prop) (l : list A) :
  Forall (λ x, ∃ y, f x = Val y ∧ P x y) l →
  ∃ ys, Exc_map f l = Val ys ∧ Forall2 P l ys.
Proof.
  induction 1 as [|x l (y & E & Hy) _ (ys & Hys & IH)]; simpl.
  - exists []. by split.
  - rewrite E, Hys. simpl. exists (y :: ys). split; [done|]. by constructor.
Qed.

Lemma convert_playlist_song_Val likedSongs ps :
  is_Some (PlaylistSongRow.songs ps) →
  ∃ r, convert_playlist_song likedSongs ps = Val r ∧
       song_consistent likedSongs r ∧
       Some (Song.file_id r) = DatabaseSong.file_id <$> PlaylistSongRow.songs ps.
Proof.
  intros [s Hs]. unfold convert_playlist_song. rewrite Hs. eexists. split; [done|].
  split; [|done]. split; [done|]. simpl. apply bool_decide_eq_true.
Qed.

(** X24.  What a successful playlists read stores.  When the read
    answers with rows, none of them with a null song in its join rows,
    [fetchPlaylists] stores one playlist per row, in order: its id is the
    row's id as a decimal string, its name the row's name, its song count
    the number of its songs; its songs are those of the join rows in order,
    each flagged by the liked set of the state the read started from. *)
Theorem fetchPlaylists_converts (reads : Reads) (userId : string)
    (rows : list PlaylistRow.t) (st : HookState.t) :
  answered (select_playlists reads userId) rows →
  Forall (λ row, Forall (λ ps, is_Some (PlaylistSongRow.songs ps))
                   (default [] (PlaylistRow.playlist_songs row))) rows →
  Forall2 (λ row p,
             Playlist.id p = toString (PlaylistRow.id row) ∧
             Playlist.name p = PlaylistRow.name row ∧
             count_ok_playlist p ∧
             Forall (song_consistent (HookState.likedSongs st)) (Playlist.songs p) ∧
             Some <$> (Song.file_id <$> Playlist.songs p)
             = (λ ps, DatabaseSong.file_id <$> PlaylistSongRow.songs ps)
                 <$> default [] (PlaylistRow.playlist_songs row))
    rows (HookState.playlists (fetchPlaylists reads (Some userId) st)).
Proof.
  intros (r & Hr & He & Hd) Hrows. unfold fetchPlaylists. rewrite Hr. simpl.
  rewrite He, Hd.
  edestruct (Exc_map_vals (convert_playlist (HookState.likedSongs st))
               (λ row p,
                  Playlist.id p = toString (PlaylistRow.id row) ∧
                  Playlist.name p = PlaylistRow.name row ∧
                  count_ok_playlist p ∧
                  Forall (song_consistent (HookState.likedSongs st)) (Playlist.songs p) ∧
                  Some <$> (Song.file_id <$> Playlist.songs p)
                  = (λ ps, DatabaseSong.file_id <$> PlaylistSongRow.songs ps)
                      <$> default [] (PlaylistRow.playlist_songs row)) rows)
    as (ps & -> & Hps); [|done].
  eapply Forall_impl; [exact Hrows|]. intros row Hrow. simpl in Hrow.
  unfold convert_playlist.
  destruct (PlaylistRow.playlist_songs row) as [joined|]; simpl in *.
  - edestruct (Exc_map_vals (convert_playlist_song (HookState.likedSongs st))
                 (λ ps s, song_consistent (HookState.likedSongs st) s ∧
                          Some (Song.file_id s)
                          = DatabaseSong.file_id <$> PlaylistSongRow.songs ps) joined)
      as (songs & -> & Hsongs).
    { eapply Forall_impl; [exact Hrow|]. intros ps Hps. simpl.
      by apply convert_playlist_song_Val. }
    simpl. eexists. split; [done|]. simpl. repeat split.
    + clear -Hsongs. induction Hsongs as [|???? [? _]]; by constructor.
    + clear -Hsongs. induction Hsongs as [|???? [_ ?]]; simpl; [done|]. by f_equal.
  - eexists. split; [done|]. simpl. repeat split. constructor.
Qed.

(** X25.  The playlists read is all or nothing.  When the read is
    rejected or comes back with an error, or when one join row of one
    playlist has a null song, [fetchPlaylists] leaves the whole state as it
    was: no playlist of the answer is stored.  Without a signed-in user,
    and for an answer without data, the playlists are emptied. *)
Theorem fetchPlaylists_all_or_nothing (reads : Reads) (user : option string)
    (st : HookState.t) :
  (∀ userId, user = Some userId →
     errored (select_playlists reads userId) ∨
     (∃ rows, answer_data (select_playlists reads userId) = Some rows ∧
        Exists (λ row, Exists (λ ps, PlaylistSongRow.songs ps = None)
                         (default [] (PlaylistRow.playlist_songs row))) rows) →
     fetchPlaylists reads user st = st) ∧
  ((user = None ∨
    ∃ userId, user = Some userId ∧ ¬ errored (select_playlists reads userId) ∧
              answer_data (select_playlists reads userId) = None) →
   HookState.playlists (fetchPlaylists reads user st) = []).
Proof.
  unfold fetchPlaylists. split.
  - intros userId -> H.
    destruct (select_playlists reads userId) as [r|]; [|done]. simpl in *.
    destruct (error r) eqn:He; [done|].
    destruct H as [[e [=]]|(rows & -> & Hex)].
    destruct (Exc_map_throws (convert_playlist (HookState.likedSongs st)) rows)
      as [e ->]; [|done].
    eapply Exists_impl; [exact Hex|]. intros row Hrow. simpl in Hrow.
    unfold convert_playlist.
    destruct (PlaylistRow.playlist_songs row) as [joined|]; simpl in Hrow;
      [|by apply Exists_nil in Hrow].
    destruct (Exc_map_throws (convert_playlist_song (HookState.likedSongs st)) joined)
      as [e ->]; [|by exists e].
    eapply Exists_impl; [exact Hrow|]. intros ps Hps. simpl in *.
    unfold convert_playlist_song. rewrite Hps. by eexists.
  - intros [->|(userId & -> & Hne & Hd)]; [done|].
    destruct (select_playlists reads userId) as [r|]; [|by destruct Hne].
    simpl in *. destruct (error r) eqn:He; [destruct Hne; by eexists|].
    by rewrite Hd.
Qed.

(** ** Listening time *)

Lemma over_a_tenth (start endTime : Z) :
  negb (Qle_bool (minutes_between start endTime) (1 # 10)) = true ↔
  (6000 < endTime - start)%Z.
Proof.
  rewrite negb_true_iff, <-not_true_iff_false, Qle_bool_iff.
  unfold minutes_between, Qdiv.
  change (/ inject_Z (1000 * 60))%Q with (1 # 60000)%Q.
  rewrite Zlt_Qlt. change (inject_Z 6000) with 6000%Q. split; intros H.
  - apply Qnot_le_lt in H. lra.
  - apply Qlt_not_le. lra.
Qed.




(** X27.  Starting a song and then stopping.  For a signed-in user,
    once a song is set as current, stopping the player or starting another
    song reports its listening time exactly when its id is not empty and
    more than 6000 milliseconds have passed since it started, for
    [parseInt] of its id; and once the player is stopped, neither stopping
    again nor starting a song reports anything. *)
Theorem tracking_round_trip (user : option string) (t0 startTime endTime t1 t2 : Z)
    (songId other : string) (st : HookState.t) :
  is_Some user →
  let playing := (recordListeningHistory user t0 startTime songId st).1 in
  let stopped := (stopCurrentSongTracking user endTime playing).1 in
  let report :=
    if decide (songId ≠ EmptyString ∧ (6000 < endTime - startTime)%Z)
    then Some (parseInt songId, two_decimals (minutes_between startTime endTime))
    else None in
  (stopCurrentSongTracking user endTime playing).2 = report ∧
  (recordListeningHistory user endTime t1 other playing).2 = report ∧
  (stopCurrentSongTracking user t1 stopped).2 = None ∧
  (recordListeningHistory user t1 t2 other stopped).2 = None.
Proof.
  intros [u ->] playing stopped report.
  assert (listening_report playing endTime = report) as Hreport.
  { unfold playing, report, recordListeningHistory, listening_report, truthy_string.
    simpl. destruct (decide (songId = EmptyString)) as [E|E].
    - rewrite (bool_decide_eq_true_2 _ E). simpl. rewrite decide_False; [done|tauto].
    - rewrite (bool_decide_eq_false_2 _ E). simpl.
      destruct (negb _) eqn:Hb.
      + apply over_a_tenth in Hb. by rewrite decide_True.
      + rewrite decide_False; [done|]. intros [_ Hlt%over_a_tenth]. congruence. }
  repeat split; done.
Qed.

(** ** Instances of the further properties *)

Lemma few_candidates_all_returned_witness :
  getSmartPersonalizedSongs sample_ln sample_random (serve sample_db) "u" [songB] ∅
  ≡ₚ flagged (answer_data (select_liked (serve sample_db) "u"))
       <$> smart_available ∅ (songs_table sample_db).
Proof.
  apply (proj1 (few_candidates_all_returned sample_ln sample_random (serve sample_db) "u")
           [songB] ∅ (songs_table sample_db)).
  - discriminate.
  - eexists. repeat split.
  - intros [].
  - vm_compute. lia.
Defined.


Lemma score_monotone_in_popularity_witness :
  (∀ listened pT pA liked,
     ¬ number_lt
         (smart_score_net sample_ln listened pT pA liked
            (with_counts trackA (Some 7%Z) (Some 3%Z)))
         (smart_score_net sample_ln listened pT pA liked
            (with_counts trackA (Some 5%Z) None))) ∧
  (∀ cur hm liked,
     ¬ number_lt
         (ctx_score_net sample_ln cur hm liked (with_counts trackA (Some 7%Z) (Some 3%Z)))
         (ctx_score_net sample_ln cur hm liked (with_counts trackA (Some 5%Z) None))) ∧
  (∀ cT cA liked,
     ¬ number_lt
         (hist_score_net sample_ln cT cA liked (with_counts trackA (Some 7%Z) (Some 3%Z)))
         (hist_score_net sample_ln cT cA liked (with_counts trackA (Some 5%Z) None))).
Proof.
  apply (score_monotone_in_popularity sample_ln trackA (Some 5%Z) None (Some 7%Z)
           (Some 3%Z)); simpl; try lia.
  intros x y Hx Hxy. unfold sample_ln. lra.
Defined.

Lemma common_tags_most_frequent_witness :
  (occurrences "f" (history_tags [trackTags; trackA])
   ≤ occurrences "a" (history_tags [trackTags; trackA]))%Z.
Proof.
  apply (proj1 (common_tags_most_frequent [trackTags; trackA] "a" "f")).
  - apply (bool_decide_unpack _). vm_compute. exact I.
  - apply (bool_decide_unpack _). vm_compute. exact I.
  - apply (bool_decide_unpack _). vm_compute. exact I.
Defined.

Lemma toggleLike_keeps_flags_consistent_witness :
  flags_consistent (toggleLike (Some "u"%string) done_write done_write (toString 1)
                      sample_state).
Proof.
  apply (toggleLike_keeps_flags_consistent (Some "u"%string) done_write done_write 1
           sample_state).
  split; repeat constructor; simpl; rewrite elem_of_singleton; try done;
    split; intros [=].
Defined.

Lemma toggleLike_twice_witness :
  HookState.likedSongs
    (toggleLike (Some "u"%string) done_write done_write "2"
       (toggleLike (Some "u"%string) done_write done_write "2" sample_state))
  = HookState.likedSongs sample_state ∧
  HookState.songs
    (toggleLike (Some "u"%string) done_write done_write "2"
       (toggleLike (Some "u"%string) done_write done_write "2" sample_state))
  = HookState.songs sample_state.
Proof.
  assert (is_Some (Some "u"%string)) as Hu by (by eexists).
  assert (succeeded done_write) as Hw by (by eexists).
  assert (¬ rejected done_write) as Hr by (intros []).
  destruct (toggleLike_twice (Some "u"%string) done_write done_write done_write done_write
              "2" sample_state Hu Hw Hr Hw Hr) as (Hliked & Hsongs & _).
  split; [exact Hliked|]. apply Hsongs.
  constructor; [intros E; vm_compute in E; discriminate E|].
  constructor; [intros _|constructor]. split; [|by eexists].
  symmetry. apply bool_decide_eq_true_2.
  change (Some 2%Z ∈ ({[Some 2%Z]} : gset (option Z))). by apply elem_of_singleton.
Defined.

Lemma playlists_stay_well_formed_witness :
  Forall (λ p, count_ok_playlist p ∧ distinct_songs p)
    (HookState.playlists
       (addSongToPlaylist (Some "u"%string) done_write "1" songB sample_state)).
Proof.
  assert (Forall (λ p, count_ok_playlist p ∧ distinct_songs p)
            (HookState.playlists sample_state)) as Hwf.
  { repeat constructor. intros H. by apply elem_of_nil in H. }
  destruct (playlists_stay_well_formed (Some "u"%string) sample_state Hwf)
    as (_ & _ & _ & Hadd & _).
  apply Hadd.
Defined.

Lemma addSongToPlaylist_idempotent_witness :
  addSongToPlaylist (Some "u"%string) done_write "1" songB
    (addSongToPlaylist (Some "u"%string) done_write "1" songB sample_state)
  = addSongToPlaylist (Some "u"%string) done_write "1" songB sample_state.
Proof.
  apply addSongToPlaylist_idempotent; by eexists.
Defined.

Lemma add_then_remove_restores_witness :
  (λ p, (Playlist.id p, Playlist.name p, Playlist.songCount p, Playlist.songs p))
    <$> HookState.playlists
          (removeSongFromPlaylist (Some "u"%string) done_write "1" (Song.id songB)
             (addSongToPlaylist (Some "u"%string) done_write "1" songB sample_state))
  = (λ p, (Playlist.id p, Playlist.name p, Playlist.songCount p, Playlist.songs p))
      <$> HookState.playlists sample_state.
Proof.
  apply (add_then_remove_restores (Some "u"%string) done_write done_write "1" songB
           sample_state); try (by eexists); repeat constructor.
Defined.

Lemma playlist_membership_after_edit_witness :
  Song.id songB ∈ Song.id <$> Playlist.songs (add_to "1" songB sample_playlist).
Proof.
  assert (is_Some (Some "u"%string)) as Hu by (by eexists).
  assert (succeeded done_write) as Hw by (by eexists).
  destruct (playlist_membership_after_edit (Some "u"%string) done_write "1" songB "1"
              sample_state Hu Hw) as [Hadded _].
  apply Hadded; [|reflexivity]. apply list_elem_of_singleton. reflexivity.
Defined.

Lemma playlist_edits_compose_witness :
  renamePlaylist (Some "u"%string) done_write "1" "evening"
    (renamePlaylist (Some "u"%string) done_write "1" "morning" sample_state)
  = renamePlaylist (Some "u"%string) done_write "1" "evening" sample_state.
Proof.
  assert (is_Some (Some "u"%string)) as Hu by (by eexists).
  assert (succeeded done_write) as Hw by (by eexists).
  destruct (playlist_edits_compose (Some "u"%string) done_write done_write "1"
              "morning" "evening" songB "1" sample_state Hu Hw) as [Hrename _].
  apply Hrename, Hw.
Defined.

Lemma fetchSongs_failure_empties_witness :
  HookState.songs (fetchSongs broken_reads (Some "u"%string) sample_state) = [].
Proof.
  apply fetchSongs_failure_empties. right. left. simpl. by eexists.
Defined.

Lemma fetchSongs_serves_catalog_witness :
  HookState.songs (fetchSongs store_reads (Some "u"%string) sample_state)
  ≡ₚ flagged (answer_data (select_liked_ids store_reads "u"))
       <$> order_desc views_key (songs_table sample_db).
Proof.
  apply (fetchSongs_serves_catalog store_reads "u"
           (order_desc views_key (songs_table sample_db)) sample_state).
  - eexists. repeat split.
  - intros [].
  - intros [].
Defined.

Lemma fetchRecentlyPlayed_from_store_witness :
  length (HookState.recentlyPlayedSongs
            (fetchRecentlyPlayed store_reads (Some "u"%string) sample_state)) ≤ 9.
Proof.
  apply (fetchRecentlyPlayed_from_store sample_db store_reads "u" sample_state);
    reflexivity.
Defined.

Lemma fetchPlaylists_converts_witness :
  Forall2 (λ row p,
             Playlist.id p = toString (PlaylistRow.id row) ∧
             Playlist.name p = PlaylistRow.name row ∧
             count_ok_playlist p ∧
             Forall (song_consistent (HookState.likedSongs sample_state))
               (Playlist.songs p) ∧
             Some <$> (Song.file_id <$> Playlist.songs p)
             = (λ ps, DatabaseSong.file_id <$> PlaylistSongRow.songs ps)
                 <$> default [] (PlaylistRow.playlist_songs row))
    [PlaylistRow.mk 1 "mix"
       (Some [PlaylistSongRow.mk (Some trackA); PlaylistSongRow.mk (Some trackB)])]
    (HookState.playlists (fetchPlaylists sample_reads (Some "u"%string) sample_state)).
Proof.
  apply (fetchPlaylists_converts sample_reads "u").
  - eexists. repeat split.
  - repeat constructor; by eexists.
Defined.


Lemma tracking_round_trip_witness :
  (stopCurrentSongTracking (Some "u"%string) 91000
     (recordListeningHistory (Some "u"%string) 0 1000 "2" sample_state).1).2
  = Some (parseInt "2", two_decimals (minutes_between 1000 91000)) ∧
  (stopCurrentSongTracking (Some "u"%string) 95000
     (stopCurrentSongTracking (Some "u"%string) 91000
        (recordListeningHistory (Some "u"%string) 0 1000 "2" sample_state).1).1).2
  = None.
Proof.
  assert (is_Some (Some "u"%string)) as Hu by (by eexists).
  destruct (tracking_round_trip (Some "u"%string) 0 1000 91000 95000 96000 "2" "3"
              sample_state Hu) as (Hstop & _ & Hagain & _).
  split; [|exact Hagain]. rewrite Hstop. reflexivity.
Defined.


Lemma failed_write_changes_nothing_witness :
  toggleLike (Some "u"%string) (failure "liked_songs unavailable") done_write "2"
    sample_state
  = sample_state.
Proof.
  apply (proj1 (failed_write_changes_nothing (Some "u"%string) sample_state)).
  right. left. simpl. by eexists.
Defined.

Lemma fetchSongs_last_played_witness :
  ∃ s, HookState.lastPlayedSong (fetchSongs store_reads (Some "u"%string) sample_state)
       = Some s ∧ Song.file_id s = 1%Z.
Proof.
  apply (proj2 (fetchSongs_last_played store_reads (Some "u"%string) sample_state)
           "u"%string (order_desc views_key (songs_table sample_db))
           (UserRow.mk (Some 1%Z)) 1%Z).
  - reflexivity.
  - eexists. repeat split.
  - intros [].
  - reflexivity.
  - reflexivity.
  - discriminate.
  - exists trackA. split; [|reflexivity].
    apply elem_of_Array_sort. simpl. apply list_elem_of_In. simpl. tauto.
Defined.

Lemma fetchRecentlyPlayed_failures_witness :
  fetchRecentlyPlayed broken_reads (Some "u"%string) sample_state = sample_state.
Proof.
  eapply (proj1 (fetchRecentlyPlayed_failures broken_reads (Some "u"%string) sample_state)).
  - reflexivity.
  - reflexivity.
  - simpl. by eexists.
Defined.

Lemma fetchPlaylists_all_or_nothing_witness :
  fetchPlaylists broken_reads (Some "u"%string) sample_state = sample_state.
Proof.
  apply (proj1 (fetchPlaylists_all_or_nothing broken_reads (Some "u"%string) sample_state)
           "u"%string eq_refl).
  left. simpl. by eexists.
Defined.

Lemma toggleLike_updates_liked_list_witness :
  relike false songA
  ∈ exported_likedSongs
      (toggleLike (Some "u"%string) done_write done_write (toString 1) sample_state).
Proof.
  assert (is_Some (Some "u"%string)) as Hu by (by eexists).
  assert (succeeded done_write) as Hw by (by eexists).
  assert (¬ rejected done_write) as Hr by (intros []).
  assert (flags_consistent sample_state) as Hc.
  { split; repeat constructor; simpl; rewrite elem_of_singleton; try done;
      split; intros [=]. }
  assert (songA ∈ HookState.songs sample_state) as Hin by (simpl; left).
  apply (proj1 (toggleLike_updates_liked_list (Some "u"%string) done_write done_write 1
                  sample_state songA Hc Hu Hw Hr Hin eq_refl)).
  change (Some 1%Z ∉ ({[Some 2%Z]} : gset (option Z))).
  rewrite elem_of_singleton. intros [=].
Defined.
